(** * opencode-obsidian-sync: a shallow embedding of the synchronization engine

    The development follows the TypeScript sources:
    - [JsText]    : the string primitives the sources rely on (code units, regex
                    classes, [split], [replace], [slice], [lastIndexOf]);
    - [Slug]      : [sessionSlug] and [notePath] (plugin/hooks.ts, sync scripts);
    - [Splitter]  : [splitIfNeeded] (lib/splitter.ts);
    - [Queue]     : the durable write queue (plugin/queue.ts);
    - [Obsidian]  : the note sink client and the queue processor (plugin/obsidian.ts);
    - [Hooks]     : session tracker, deletion guard, rename cascade and the event
                    router (plugin/hooks.ts);
    - [Plugin]    : the hooks the plugin registers (plugin/index.ts).

    The engine is single-threaded and cooperative; a handler, a poll and a
    processor tick are each modelled as running to completion.

    Strings are modelled by their UTF-16 code units restricted to the range
    0..255, which is what [ascii] holds; the character classes below are the
    JavaScript ones intersected with that range. *)

From Stdlib Require Import List String Ascii ZArith NArith Lia Bool Arith.
From Stdlib Require Import Permutation Sorted DecimalString.
Import ListNotations.
Local Open Scope string_scope.
Local Open Scope list_scope.
Local Open Scope nat_scope.

(* ================================================================== *)
(** * Definitions *)
(* ================================================================== *)

(** ** JavaScript string primitives *)

Module JsText.

Definition chars := list ascii.

Definition ofString (s : string) : chars := list_ascii_of_string s.
Definition toString (l : chars) : string := string_of_list_ascii l.

Definition code (c : ascii) : N := N_of_ascii c.

Definition isChar (n : N) (c : ascii) : bool := N.eqb (code c) n.

(** The dash, code unit 45. *)
Definition dash : ascii := ascii_of_N 45.
Definition isDash (c : ascii) : bool := isChar 45 c.

(** [\s] on code units below 256: TAB, LF, VT, FF, CR, SPACE, NBSP. *)
Definition isWhitespace (c : ascii) : bool :=
  existsb (N.eqb (code c)) [9; 10; 11; 12; 13; 32; 160]%N.

(** Line terminators seen by [^] under the [m] flag: LF and CR. *)
Definition isLineTerminator (c : ascii) : bool :=
  existsb (N.eqb (code c)) [10; 13]%N.

(** Upper-case letters with a lower-case partner 32 code units above:
    A-Z, and the Latin-1 capitals 0xC0-0xDE except the multiplication sign. *)
Definition isUpper (c : ascii) : bool :=
  let n := code c in
  ((65 <=? n) && (n <=? 90) || (192 <=? n) && (n <=? 222) && negb (n =? 215))%N.

Definition toLowerChar (c : ascii) : ascii :=
  if isUpper c then ascii_of_N (code c + 32) else c.

(** [String.prototype.toLowerCase]. *)
Definition toLowerCase (s : chars) : chars := map toLowerChar s.

(** [s.startsWith(p)]. *)
Fixpoint startsWith (p s : chars) : bool :=
  match p, s with
  | [], _ => true
  | _ :: _, [] => false
  | a :: p', b :: s' => Ascii.eqb a b && startsWith p' s'
  end.

(** [s.endsWith(p)]. *)
Definition endsWith (p s : chars) : bool := startsWith (List.rev p) (List.rev s).

(** [s.slice(0, n)] for [0 <= n]. *)
Definition sliceTo (n : nat) (s : chars) : chars := firstn n s.

(** [s.lastIndexOf(c)] for a one-character needle; [-1] when absent. *)
Fixpoint lastIndexOf (c : ascii) (s : chars) : Z :=
  match s with
  | [] => (-1)%Z
  | x :: s' =>
      let r := lastIndexOf c s' in
      if (0 <=? r)%Z then (r + 1)%Z
      else if Ascii.eqb x c then 0%Z else (-1)%Z
  end.

(** [words.join(sep)]. *)
Fixpoint join (sep : chars) (ws : list chars) : chars :=
  match ws with
  | [] => []
  | [w] => w
  | w :: rest => w ++ sep ++ join sep rest
  end.

(** [s.split(/[sep]+/)] for a character class [sep]: the maximal runs of
    non-separator characters, with an empty piece in front when [s] starts
    with a separator and an empty piece at the end when it ends with one. *)
Fixpoint splitRuns (sep : ascii -> bool) (s : chars) : list chars :=
  match s with
  | [] => [[]]
  | c :: s' =>
      match splitRuns sep s' with
      | [] => [[c]]
      | h :: t =>
          if sep c then
            match s' with
            | d :: _ => if sep d then h :: t else [] :: h :: t
            | [] => [] :: h :: t
            end
          else (c :: h) :: t
      end
  end.

(** [s.split(c)] for a single separator character. *)
Fixpoint splitOn (sep : ascii -> bool) (s : chars) : list chars :=
  match s with
  | [] => [[]]
  | c :: s' =>
      match splitOn sep s' with
      | [] => [[c]]
      | h :: t => if sep c then [] :: h :: t else (c :: h) :: t
      end
  end.

(** [s.replace(/-+/g, "-")]: every run of dashes becomes one dash. *)
Fixpoint collapseDashes (s : chars) : chars :=
  match s with
  | [] => []
  | c :: s' =>
      if isDash c then
        match s' with
        | d :: _ => if isDash d then collapseDashes s' else c :: collapseDashes s'
        | [] => [c]
        end
      else c :: collapseDashes s'
  end.

Definition dropLeadingDash (s : chars) : chars :=
  match s with
  | c :: s' => if isDash c then s' else s
  | [] => []
  end.

Fixpoint dropTrailingDash (s : chars) : chars :=
  match s with
  | [] => []
  | [c] => if isDash c then [] else [c]
  | c :: s' => c :: dropTrailingDash s'
  end.

(** [s.replace(/^-|-$/g, "")]: the leading dash goes, then the trailing one
    of what is left. *)
Definition trimDashes (s : chars) : chars :=
  dropTrailingDash (dropLeadingDash s).

(** Index of the first occurrence of [p] in [s]. *)
Fixpoint indexOf (p s : chars) : option nat :=
  if startsWith p s then Some 0
  else match s with
       | [] => None
       | _ :: s' => option_map S (indexOf p s')
       end.

(** [s.replace(p, r)] for a string pattern [p] and a replacement [r] free of
    [$]: the first occurrence only. *)
Definition replaceFirst (p r s : chars) : chars :=
  match indexOf p s with
  | Some i => firstn i s ++ r ++ skipn (i + List.length p) s
  | None => s
  end.

(** Template-literal rendering of a non-negative integer. *)
Definition decimal (n : nat) : chars :=
  ofString (NilEmpty.string_of_uint (Nat.to_uint n)).

End JsText.

(** ** Slugs and note paths (plugin/hooks.ts, sync/sync-all.ts, sync/daily-notes.ts) *)

Module Slug.
Import JsText.

(** The argument of [sessionSlug]: [{ title?: string; slug?: string; id: string }]. *)
Record SlugSource := mkSlugSource {
  title : option string;
  slug : option string;
  id : string
}.

(** Truthiness of an optional string: [undefined] and [""] are falsy. *)
Definition truthy (o : option string) : option string :=
  match o with
  | Some s => if String.eqb s "" then None else Some s
  | None => None
  end.

(** [session.title || session.slug || session.id.slice(0, 12)]. *)
Definition rawName (session : SlugSource) : string :=
  match truthy (title session) with
  | Some t => t
  | None =>
      match truthy (slug session) with
      | Some s => s
      | None => substring 0 12 (id session)
      end
  end.

(** The class stripped by the first [replace]: less-than, greater-than,
    colon, double quote, slash, backslash, bar, question mark, star, hash,
    caret and the two square brackets. *)
Definition isUnsafe (c : ascii) : bool :=
  existsb (N.eqb (code c)) [60; 62; 58; 34; 47; 92; 124; 63; 42; 35; 94; 91; 93]%N.

(** The class [[\s_-]]. *)
Definition isSeparator (c : ascii) : bool :=
  isWhitespace c || isChar 95 c || isDash c.

Definition removeUnsafe (s : chars) : chars :=
  filter (fun c => negb (isUnsafe c)) s.

Definition inStopWords (stop : list string) (w : chars) : bool :=
  existsb (String.eqb (toString w)) stop.

Definition keepWord (stop : list string) (w : chars) : bool :=
  (0 <? List.length w)%nat && negb (inStopWords stop w).

(** The [words] of [sessionSlug]. *)
Definition slugWords (stop : list string) (raw : chars) : list chars :=
  filter (keepWord stop) (splitRuns isSeparator (removeUnsafe (toLowerCase raw))).

(** [words.join("-").replace(/-+/g, "-").replace(/^-|-$/g, "")]. *)
Definition joinWords (ws : list chars) : chars :=
  trimDashes (collapseDashes (join [dash] ws)).

(** The length cap at the end of [sessionSlug]. *)
Definition capSlug (joined : chars) : chars :=
  if (List.length joined <=? 40)%nat then joined
  else
    let truncated := sliceTo 40 joined in
    let lastDash := lastIndexOf dash truncated in
    if (10 <? lastDash)%Z then sliceTo (Z.to_nat lastDash) truncated
    else truncated.

(** The body shared by the three copies of [sessionSlug], over the
    stop-word set of the copy. *)
Definition slugify (stop : list string) (raw : chars) : chars :=
  capSlug (joinWords (slugWords stop raw)).

(** A character a kept word can hold, and a kept word. *)
Definition GoodChar (c : ascii) : Prop :=
  isSeparator c = false /\ isUnsafe c = false /\ isUpper c = false.

Definition GoodWord (stop : list string) (w : chars) : Prop :=
  w <> [] /\ inStopWords stop w = false /\ Forall GoodChar w.

(** What a slug function [slugOf] built on stop-word set [stop] guarantees
    for every session: the raw name falls back from title to slug to id
    prefix; the result is a prefix of the dash-joined kept words (all of it
    when that fits in 40 characters), has at most 40 characters, holds no
    upper-case letter and no stripped character, and its dash-separated
    pieces are non-empty words outside the stop-word set. *)
Definition SlugSpec (stop : list string) (slugOf : SlugSource -> string) : Prop :=
  forall session : SlugSource,
    let ws := slugWords stop (ofString (rawName session)) in
    let r := ofString (slugOf session) in
    (forall t, title session = Some t -> t <> "" -> rawName session = t)
    /\ (truthy (title session) = None ->
        forall s, slug session = Some s -> s <> "" -> rawName session = s)
    /\ (truthy (title session) = None -> truthy (slug session) = None ->
        rawName session = substring 0 12 (id session))
    /\ Forall (fun w => w <> [] /\ inStopWords stop w = false) ws
    /\ (exists rest, join [dash] ws = r ++ rest)
    /\ (List.length (join [dash] ws) <= 40 -> r = join [dash] ws)
    /\ String.length (slugOf session) <= 40
    /\ Forall (fun c => isUpper c = false /\ isUnsafe c = false) r
    /\ (r = [] \/
        Forall (fun w => w <> [] /\ inStopWords stop w = false)
               (splitOn isDash r)).

(** [notePath(projectName, date, slug, suffix)]. *)
Definition notePath (projectName date slug suffix : string) : string :=
  let yearMonth := substring 0 7 date in
  let day := substring 8 2 date in
  "10-Projects/" ++ projectName ++ "/sessions/" ++ yearMonth ++ "/"
    ++ day ++ "-" ++ slug ++ "/" ++ suffix ++ ".md".

End Slug.

(** *** plugin/hooks.ts *)

Module HooksSlug.
Import JsText Slug.

Definition STOP_WORDS : list string :=
  ["a";"an";"the";"and";"or";"but";"for";"in";"on";"at";"to";"of";"with";"is";"was";
   "are";"were";"be";"been";"being";"have";"has";"had";"do";"does";"did";"will";"would";
   "could";"should";"may";"might";"shall";"can";"this";"that";"these";"those";"it";"its";
   "my";"your";"our";"their";"his";"her";"from";"by";"about";"into";"through";"during";
   "before";"after";"above";"below";"between";"under";"again";"further";"then";"once";
   "here";"there";"when";"where";"why";"how";"all";"each";"every";"both";"few";"more";
   "most";"other";"some";"such";"no";"nor";"not";"only";"own";"same";"so";"than";"too";
   "very";"just";"because";"as";"until";"while";"also";"i";"me";"we";"you";"he";"she";
   "they";"them";"what";"which";"who";"whom";"let";"lets";"using";"use";"need";"needs"].

Definition sessionSlug (session : SlugSource) : string :=
  toString (slugify STOP_WORDS (ofString (rawName session))).

End HooksSlug.

(** *** sync/sync-all.ts *)

Module SyncAll.
Import JsText Slug.

Definition STOP_WORDS : list string :=
  ["a";"an";"the";"and";"or";"but";"for";"in";"on";"at";"to";"of";"with";"is";"it";
   "this";"that";"be";"as";"by";"from";"was";"were";"been";"are";"do";"does";"did";
   "has";"have";"had";"not";"no";"so";"if";"then";"than";"when";"where";"how";"what";
   "which";"who";"whom";"its";"my";"our";"your";"their";"we";"you";"they";"i";"me";
   "he";"she";"him";"her";"us";"them";"can";"could";"will";"would";"shall";"should";
   "may";"might";"must";"let";"lets";"just";"also";"very";"really";"about";"into"].

Definition sessionSlug (s : SlugSource) : string :=
  toString (slugify STOP_WORDS (ofString (rawName s))).

End SyncAll.

(** *** sync/daily-notes.ts *)

Module DailyNotes.
Import JsText Slug.

Definition STOP_WORDS : list string :=
["a";"an";"the";"and";"or";"for";"in";"on";"at";"to";"of";"with";"is";"it";
 "by";"as";"from";"that";"this"].

Definition sessionSlug (s : SlugSource) : string :=
toString (slugify STOP_WORDS (ofString (rawName s))).

End DailyNotes.

(** ** Transcript splitting (lib/splitter.ts) *)

Module Splitter.
Import JsText.

Record SplitResult := mkSplitResult {
  markdown : string;
  partNumber : nat;
  totalParts : nat
}.

(** The line feed, code unit 10. *)
Definition nl : ascii := ascii_of_N 10.

(** Three dashes and a line feed: the opening fence of the front matter. *)
Definition openFence : chars := ofString "---" ++ [nl].

(** A line feed, three dashes and a line feed: the closing fence. *)
Definition closeFence : chars := nl :: ofString "---" ++ [nl].

(** The lazy group followed by the closing fence: the text up to the first
    closing fence, and what follows the fence. *)
Fixpoint findClose (s : chars) : option (chars * chars) :=
  if startsWith closeFence s then Some ([], skipn 5 s)
  else
    match s with
    | [] => None
    | c :: s' =>
        match findClose s' with
        | Some (fm, rest) => Some (c :: fm, rest)
        | None => None
        end
    end.

(** [markdown.match] on the front-matter pattern, anchored at the start:
    the captured front matter and [markdown.slice(match[0].length)]. *)
Definition matchFrontmatter (md : chars) : option (chars * chars) :=
  if startsWith openFence md then findClose (skipn 4 md) else None.

(** The lookahead of the split pattern: a level-three heading of a user
    or assistant message, up to its opening parenthesis. *)
Definition isMessageHeader (s : chars) : bool :=
  startsWith (ofString "### User (") s
  || startsWith (ofString "### Assistant (") s.

(** [body.split] on the zero-width lookahead at line starts: the text is cut
    in front of every message heading that follows a line terminator; a
    heading at offset 0 cuts nothing (an empty match at the start of the
    input does not split). *)
Fixpoint splitSections (s : chars) : list chars :=
  match s with
  | [] => [[]]
  | c :: s' =>
      match splitSections s' with
      | [] => [[c]]
      | h :: t =>
          if isLineTerminator c && isMessageHeader s' then [c] :: h :: t
          else (c :: h) :: t
      end
  end.

(** [Math.ceil(n / m)] for a positive integer [m]. *)
Definition ceilDiv (n m : nat) : nat := (n + m - 1) / m.

(** [messageSections.slice(start, end)]. *)
Definition sliceList {A} (start end_ : nat) (l : list A) : list A :=
  firstn (end_ - start) (skipn start l).

(** [partBody] of loop index [i]. *)
Definition partBody (headerSection : chars) (messageSections : list chars)
    (maxMessages i : nat) : chars :=
  let start := i * maxMessages in
  let end_ := Nat.min (start + maxMessages) (List.length messageSections) in
  let chunk := sliceList start end_ messageSections in
  if i =? 0 then headerSection ++ List.concat chunk else List.concat chunk.

(** [partFrontmatter]. *)
Definition partFrontmatter (frontmatter : chars) (part total : nat) : chars :=
  frontmatter ++ nl :: ofString "part: " ++ decimal part
    ++ nl :: ofString "total_parts: " ++ decimal total.

(** [partMarkdown]. *)
Definition partMarkdown (frontmatter : chars) (part total : nat) (body : chars)
  : chars :=
  openFence ++ partFrontmatter frontmatter part total ++ closeFence ++ body.

(** [splitIfNeeded(markdown, maxMessages)], for an integer [maxMessages >= 1]
    (with [maxMessages = 0] and a message section present the source loops
    on [i < Infinity]; the model is not meant for that input). *)
Definition splitIfNeeded (markdown : string) (maxMessages : nat)
  : list SplitResult :=
  match matchFrontmatter (ofString markdown) with
  | None => [mkSplitResult markdown 1 1]
  | Some (frontmatter, body) =>
      let sections := splitSections body in
      let headerSection := hd [] sections in
      let messageSections := tl sections in
      if List.length messageSections <=? maxMessages then
        [mkSplitResult markdown 1 1]
      else
        let totalParts := ceilDiv (List.length messageSections) maxMessages in
        map (fun i =>
               mkSplitResult
                 (toString
                    (partMarkdown frontmatter (i + 1) totalParts
                       (partBody headerSection messageSections maxMessages i)))
                 (i + 1) totalParts)
            (seq 0 totalParts)
  end.

End Splitter.

(** ** The durable write queue (plugin/queue.ts) *)

Module Queue.

(** ["create" | "update" | "delete"]. *)
Inductive OpType := create | update | delete.

Record QueueItem := mkQueueItem {
  id : string;
  type : OpType;
  path : string;
  content : string;
  retries : Z;
  createdAt : Z
}.

(** One entry of [QUEUE_DIR]: the file name, and what [readFile] followed by
    [JSON.parse] gives for it ([None] when either throws). The list is in
    the order in which [readdir] lists the directory. *)
Record QFile := mkQFile {
  name : string;
  data : option QueueItem
}.

Definition QueueDir := list QFile.

(** [`${id}.json`]. *)
Definition fileName (id : string) : string := (id ++ ".json")%string.

(** [writeFile(filePath, JSON.stringify(item))]: an existing file is
    overwritten where it stands. A new file is put last in the list; where
    [readdir] lists it is up to the file system, so statements about a new
    file are made for every order of the listing. *)
Fixpoint writeFile (fname : string) (item : QueueItem) (dir : QueueDir)
  : QueueDir :=
  match dir with
  | [] => [mkQFile fname (Some item)]
  | f :: rest =>
      if String.eqb (name f) fname then mkQFile fname (Some item) :: rest
      else f :: writeFile fname item rest
  end.

(** [unlink(filePath)], its failure on a missing file swallowed. *)
Definition unlink (fname : string) (dir : QueueDir) : QueueDir :=
  filter (fun f => negb (String.eqb (name f) fname)) dir.

Definition lookupFile (fname : string) (dir : QueueDir) : option QFile :=
  find (fun f => String.eqb (name f) fname) dir.

(** [enqueue(type, path, content)], with the identifier drawn by
    [randomUUID()] and the clock read by [Date.now()] as arguments. *)
Definition enqueue (uuid : string) (now : Z)
    (type : OpType) (path content : string) (dir : QueueDir) : QueueDir :=
  let item := mkQueueItem uuid type path content 0 now in
  writeFile (fileName (id item)) item dir.

(** Insertion in front of the first item that is not older: the step of a
    stable sort under the comparator [a.createdAt - b.createdAt]. *)
Fixpoint insertByCreatedAt (x : QueueItem) (l : list QueueItem)
  : list QueueItem :=
  match l with
  | [] => [x]
  | y :: l' =>
      if (createdAt x <=? createdAt y)%Z then x :: y :: l'
      else y :: insertByCreatedAt x l'
  end.

(** [items.sort((a, b) => a.createdAt - b.createdAt)]; [Array.prototype.sort]
    is stable. *)
Fixpoint sortByCreatedAt (l : list QueueItem) : list QueueItem :=
  match l with
  | [] => []
  | x :: l' => insertByCreatedAt x (sortByCreatedAt l')
  end.

(** [f.endsWith(".json")]. *)
Definition isJsonFile (f : QFile) : bool :=
  JsText.endsWith (JsText.ofString ".json") (JsText.ofString (name f)).

(** The loop of [readQueue]: the files that read and parse, in listing
    order. *)
Fixpoint parsedItems (files : list QFile) : list QueueItem :=
  match files with
  | [] => []
  | f :: rest =>
      match data f with
      | Some item => item :: parsedItems rest
      | None => parsedItems rest
      end
  end.

(** [readQueue()]. *)
Definition readQueue (dir : QueueDir) : list QueueItem :=
  let jsonFiles := filter isJsonFile dir in
  sortByCreatedAt (parsedItems jsonFiles).

(** [dequeue(id)]. *)
Definition dequeue (id : string) (dir : QueueDir) : QueueDir :=
  unlink (fileName id) dir.

(** The item after [item.retries += 1]. *)
Definition bumped (item : QueueItem) : QueueItem :=
  mkQueueItem (id item) (type item) (path item) (content item)
              (retries item + 1) (createdAt item).

(** [updateRetries(item)]. *)
Definition updateRetries (item : QueueItem) (dir : QueueDir) : QueueDir :=
  writeFile (fileName (id item)) (bumped item) dir.

Definition MAX_RETRIES : Z := 50.

(** [shouldDiscard(item)]. *)
Definition shouldDiscard (item : QueueItem) : bool :=
  (MAX_RETRIES <=? retries item)%Z.

(** The order the specification asks of [listPending]: ascending in
    [(createdAt, id)], identifiers compared as strings. *)
Definition keyBefore (a b : QueueItem) : Prop :=
  (createdAt a < createdAt b)%Z
  \/ (createdAt a = createdAt b /\ String.ltb (id a) (id b) = true).

(** The ordering the specification states for [listPending]: any two
    returned items at positions [i < j] are in [(createdAt, id)] order. *)
Definition listPendingOrdered (l : list QueueItem) : Prop :=
  forall i j a b,
    i < j -> nth_error l i = Some a -> nth_error l j = Some b ->
    keyBefore a b.

(** The order [readQueue] sorts by, and the test for one timestamp. *)
Definition olderOrSame (a b : QueueItem) : Prop := (createdAt a <= createdAt b)%Z.

Definition at_ (t : Z) (x : QueueItem) : bool := (createdAt x =? t)%Z.

(** A queue directory as [enqueue] and [updateRetries] leave it: no two
    entries share a name, and a file that parses holds the item whose
    identifier names it. *)
Definition wellFormed (dir : QueueDir) : Prop :=
  NoDup (map name dir)
  /\ forall f item, In f dir -> data f = Some item -> name f = fileName (id item).

End Queue.

(** ** Types of the session store collaborator (lib/types.ts) *)

Module Lib.

Record Session := mkSession {
  id : string;
  projectID : string;
  title : option string;
  slug : option string;
  created : Z;              (* time.created *)
  updated : option Z        (* time.updated *)
}.

Record ConversationEntry := mkEntry {
  role : string;
  textContent : string
}.

Record ReconstructedConversation := mkConversation {
  entries : list ConversationEntry;
  session : Session;
  projectName : string;
  projectPath : string
}.

(** A message, with [tokens.input] and [tokens.output] when it has them. *)
Record Message := mkMessage {
  tokens : option (Z * Z)
}.

End Lib.

(** ** State of the plugin and the runtime it runs against *)

Module Engine.

(** A call into the outside world returns or throws. *)
Inductive IOResult (A : Type) :=
| Returned (a : A)
| Threw.
Arguments Returned {A} a.
Arguments Threw {A}.

(** The four HTTP requests of obsidian.ts, by what they address. *)
Inductive Request :=
| HealthProbe
| VaultPut (path content : string)
| VaultGet (path : string)
| VaultDelete (path : string).

(** What [await fetch(...)] gives: a response with its status and, when
    [res.text()] succeeds, its text; or a rejection (connection failure or
    the [AbortSignal.timeout]). *)
Inductive FetchResult :=
| Response (status : Z) (text : option string)
| FetchFailed.

(** [res.ok]. *)
Definition ok (status : Z) : bool := ((200 <=? status) && (status <=? 299))%Z.

(** An entry of the [sessions] map of hooks.ts. *)
Record SessionTracker := mkTracker {
  projectId : string;
  projectName : string;
  slug : string;
  summaryPath : string;
  messageCount : Z;
  lastMessageSync : Z;
  foundInStorage : bool
}.

(** A call [enqueue(type, path, content)] issued by a handler. The handlers
    do not await it: they only start it, so it is recorded as issued. *)
Record EnqueueCall := mkEnqueue {
  callType : Queue.OpType;
  callPath : string;
  callContent : string
}.

(** Observable effects, in the order they happen. *)
Inductive Effect :=
| EFetch (req : Request) (res : FetchResult)
| EUnlink (fname : string)
| EWriteFile (fname : string) (item : Queue.QueueItem).

(** A JavaScript [Map] with string keys: entries in insertion order. *)
Definition JsMap (V : Type) := list (string * V).

Fixpoint mapGet {V} (k : string) (m : JsMap V) : option V :=
  match m with
  | [] => None
  | (k', v) :: rest => if String.eqb k' k then Some v else mapGet k rest
  end.

(** [m.set(k, v)]: a present key keeps its place. *)
Fixpoint mapSet {V} (k : string) (v : V) (m : JsMap V) : JsMap V :=
  match m with
  | [] => [(k, v)]
  | (k', v') :: rest =>
      if String.eqb k' k then (k, v) :: rest else (k', v') :: mapSet k v rest
  end.

Definition mapDelete {V} (k : string) (m : JsMap V) : JsMap V :=
  filter (fun e => negb (String.eqb (fst e) k)) m.

(** The module-level state of the plugin ([available] of obsidian.ts,
    [sessions] and [deletionFailures] of hooks.ts), the queue directory, the
    state of the outside world, and what has been observed so far. *)
Record Sys (W : Type) := mkSys {
  world : W;
  available : bool;
  queueDir : Queue.QueueDir;
  sessions : JsMap SessionTracker;
  deletionFailures : JsMap Z;
  outbox : list EnqueueCall;
  trace : list Effect
}.
Arguments mkSys {W}.
Arguments world {W}.
Arguments available {W}.
Arguments queueDir {W}.
Arguments sessions {W}.
Arguments deletionFailures {W}.
Arguments outbox {W}.
Arguments trace {W}.

(** The outside world: the note sink behind [fetch], the session store
    behind the lib readers, the clock, and the document templates (pure
    transforms, kept abstract). *)
Class Runtime (W : Type) := {
  fetch : W -> Request -> FetchResult * W;
  readSession : W -> string -> string -> IOResult (option Lib.Session) * W;
  resolveProjectName : W -> string -> IOResult string * W;
  reconstructConversation :
    W -> string -> string -> IOResult (option Lib.ReconstructedConversation) * W;
  readMessages : W -> string -> IOResult (list Lib.Message) * W;
  dateNow : W -> Z * W;
  formatDate : Z -> string;
  formatForObsidian : Lib.ReconstructedConversation -> string;
  buildSkeletonSummary : string -> string -> string -> string -> string -> string -> string;
  buildUpdatedSummary : W -> Lib.ReconstructedConversation -> Z -> IOResult string * W;
  buildRawLogNote : Lib.ReconstructedConversation -> nat -> nat -> string
}.

Section Monad.
Context {W : Type}.

(** State passing for code that cannot throw. *)
Definition St (A : Type) := Sys W -> A * Sys W.

Definition ret {A} (a : A) : St A := fun s => (a, s).

Definition bind {A B} (m : St A) (k : A -> St B) : St B :=
  fun s => let (a, s') := m s in k a s'.

Definition gets {A} (f : Sys W -> A) : St A := fun s => (f s, s).

Definition modify (f : Sys W -> Sys W) : St unit := fun s => (tt, f s).

Definition setWorld (w : W) (s : Sys W) : Sys W :=
  mkSys w (available s) (queueDir s) (sessions s) (deletionFailures s)
        (outbox s) (trace s).

Definition setAvailable (a : bool) (s : Sys W) : Sys W :=
  mkSys (world s) a (queueDir s) (sessions s) (deletionFailures s)
        (outbox s) (trace s).

Definition setQueueDir (d : Queue.QueueDir) (s : Sys W) : Sys W :=
  mkSys (world s) (available s) d (sessions s) (deletionFailures s)
        (outbox s) (trace s).

Definition setSessions (m : JsMap SessionTracker) (s : Sys W) : Sys W :=
  mkSys (world s) (available s) (queueDir s) m (deletionFailures s)
        (outbox s) (trace s).

Definition setDeletionFailures (m : JsMap Z) (s : Sys W) : Sys W :=
  mkSys (world s) (available s) (queueDir s) (sessions s) m
        (outbox s) (trace s).

Definition pushOutbox (c : EnqueueCall) (s : Sys W) : Sys W :=
  mkSys (world s) (available s) (queueDir s) (sessions s)
        (deletionFailures s) (outbox s ++ [c]) (trace s).

Definition logEffect (e : Effect) (s : Sys W) : Sys W :=
  mkSys (world s) (available s) (queueDir s) (sessions s)
        (deletionFailures s) (outbox s) (trace s ++ [e]).

(** State passing for code that can throw: the state reached when the
    exception is raised is kept. *)
Definition Exc (A : Type) := St (IOResult A).

Definition retE {A} (a : A) : Exc A := ret (Returned a).

Definition bindE {A B} (m : Exc A) (k : A -> Exc B) : Exc B :=
  fun s =>
    match m s with
    | (Returned a, s') => k a s'
    | (Threw, s') => (Threw, s')
    end.

Definition lift {A} (m : St A) : Exc A :=
  fun s => let (a, s') := m s in (Returned a, s').

(** A call into the world that may throw. *)
Definition io {A} (f : W -> IOResult A * W) : Exc A :=
  fun s => let (r, w') := f (world s) in (r, setWorld w' s).

(** [try { body } catch {}]. *)
Definition tryCatch (body : Exc unit) : St unit :=
  fun s => (tt, snd (body s)).

End Monad.

Declare Scope engine_scope.
Delimit Scope engine_scope with engine.

Notation "x <- m ;; k" := (bind m (fun x => k))
  (at level 61, m at next level, right associativity) : engine_scope.
Notation "m ;; k" := (bind m (fun _ => k))
  (at level 61, right associativity) : engine_scope.
Notation "x <-! m ;; k" := (bindE m (fun x => k))
  (at level 61, m at next level, right associativity) : engine_scope.
Notation "m ;;! k" := (bindE m (fun _ => k))
  (at level 61, right associativity) : engine_scope.

End Engine.

(** ** The note sink client and the queue processor (plugin/obsidian.ts) *)

Module Obsidian.
Import Engine.
Local Open Scope engine_scope.

Section WithRuntime.
Context {W : Type} {RT : Runtime W}.

(** [await fetch(...)], with the request and its outcome recorded. *)
Definition doFetch (req : Request) : St (W := W) FetchResult :=
  fun s =>
    let (res, w') := fetch (world s) req in
    (res, logEffect (EFetch req res) (setWorld w' s)).

(** [isAvailable()]. *)
Definition isAvailable : St (W := W) bool := gets available.

(** [healthCheck()]. *)
Definition healthCheck : St (W := W) bool :=
  res <- doFetch HealthProbe ;;
  match res with
  | Response status _ => modify (setAvailable (ok status))
  | FetchFailed => modify (setAvailable false)
  end ;;
  gets available.

(** [obsidianPut(path, content)]. *)
Definition obsidianPut (path content : string) : St (W := W) bool :=
  res <- doFetch (VaultPut path content) ;;
  match res with
  | Response status _ => ret (ok status)
  | FetchFailed => ret false
  end.

(** [obsidianGet(path)]. *)
Definition obsidianGet (path : string) : St (W := W) (option string) :=
  res <- doFetch (VaultGet path) ;;
  match res with
  | Response status text => if ok status then ret text else ret None
  | FetchFailed => ret None
  end.

(** [obsidianDelete(path)]. *)
Definition obsidianDelete (path : string) : St (W := W) bool :=
  res <- doFetch (VaultDelete path) ;;
  match res with
  | Response status _ => ret (ok status || (status =? 404)%Z)
  | FetchFailed => ret false
  end.

(** [processItem(item)]. *)
Definition processItem (item : Queue.QueueItem) : St (W := W) bool :=
  match Queue.type item with
  | Queue.delete => obsidianDelete (Queue.path item)
  | _ => obsidianPut (Queue.path item) (Queue.content item)
  end.

(** [await dequeue(item.id)]. *)
Definition dequeue (id : string) : St (W := W) unit :=
  modify (fun s =>
    logEffect (EUnlink (Queue.fileName id))
              (setQueueDir (Queue.dequeue id (queueDir s)) s)).

(** [await updateRetries(item)]. *)
Definition updateRetries (item : Queue.QueueItem) : St (W := W) unit :=
  modify (fun s =>
    logEffect (EWriteFile (Queue.fileName (Queue.id item)) (Queue.bumped item))
              (setQueueDir (Queue.updateRetries item (queueDir s)) s)).

(** The [for (const item of items)] loop of [processQueue]; the [return]
    in its failure branch ends the tick. *)
Fixpoint processItems (items : list Queue.QueueItem) : St (W := W) unit :=
  match items with
  | [] => ret tt
  | item :: rest =>
      if Queue.shouldDiscard item then
        dequeue (Queue.id item) ;;
        processItems rest
      else
        ok <- processItem item ;;
        if ok then
          dequeue (Queue.id item) ;;
          processItems rest
        else
          modify (setAvailable false) ;;
          updateRetries item
  end.

(** [processQueue()]: one tick of the processor. *)
Definition processQueue : St (W := W) unit :=
  a <- gets available ;;
  proceed <- (if a then ret true else healthCheck) ;;
  if proceed then
    items <- gets (fun s => Queue.readQueue (queueDir s)) ;;
    match items with
    | [] => ret tt
    | _ => processItems items
    end
  else ret tt.

End WithRuntime.

End Obsidian.

(** ** Session tracker, deletion guard, rename cascade, event router
       (plugin/hooks.ts) *)

Module Hooks.
Import Engine.
Local Open Scope engine_scope.

Definition MESSAGE_DEBOUNCE_MS : Z := 30000.
Definition DELETION_THRESHOLD : Z := 3.

(** The [info] of a session event. *)
Record SessionInfo := mkSessionInfo {
  id : string;
  projectID : string;
  title : string;
  directory : string;
  created : Z;              (* time.created *)
  updated : Z               (* time.updated *)
}.

(** The [info] of a message event. *)
Record MessageInfo := mkMessageInfo {
  sessionID : string
}.

Inductive Info :=
| InfoSession (i : SessionInfo)
| InfoMessage (m : MessageInfo).

(** [event.properties]: the two fields the router reads. *)
Record Properties := mkProperties {
  propInfo : option Info;
  propSessionID : option string
}.

(** A tagged event [{ type, properties }]. *)
Record Event := mkEvent {
  type : string;
  properties : Properties
}.

Definition sessionSlug := HooksSlug.sessionSlug.
Definition notePath := Slug.notePath.

(** [s.replace(p, r)] on strings. *)
Definition replace (p r s : string) : string :=
  JsText.toString
    (JsText.replaceFirst (JsText.ofString p) (JsText.ofString r) (JsText.ofString s)).

(** [`${n}`]. *)
Definition show (n : nat) : string := JsText.toString (JsText.decimal n).

Definition setSlugAndPath (slug summaryPath : string) (t : SessionTracker)
  : SessionTracker :=
  mkTracker (projectId t) (projectName t) slug summaryPath
            (messageCount t) (lastMessageSync t) (foundInStorage t).

Definition setFoundInStorage (b : bool) (t : SessionTracker) : SessionTracker :=
  mkTracker (projectId t) (projectName t) (slug t) (summaryPath t)
            (messageCount t) (lastMessageSync t) b.

Definition setMessageCount (n : Z) (t : SessionTracker) : SessionTracker :=
  mkTracker (projectId t) (projectName t) (slug t) (summaryPath t)
            n (lastMessageSync t) (foundInStorage t).

Definition setLastMessageSync (n : Z) (t : SessionTracker) : SessionTracker :=
  mkTracker (projectId t) (projectName t) (slug t) (summaryPath t)
            (messageCount t) n (foundInStorage t).

(** [handleRenameIfNeeded(tracker, newTitle, created)]: the returned
    boolean, the tracker as the call leaves it, and the [enqueue] calls it
    issues, in order. *)
Definition handleRenameIfNeeded (tracker : SessionTracker)
    (newTitle created : string) : bool * SessionTracker * list EnqueueCall :=
  let newSlug := sessionSlug (Slug.mkSlugSource (Some newTitle) None "") in
  if String.eqb newSlug (slug tracker) then (false, tracker, [])
  else
    let oldSlug := slug tracker in
    let projectName := projectName tracker in
    let oldRawLogPath := notePath projectName created oldSlug "raw-log" in
    let calls :=
      mkEnqueue Queue.delete (summaryPath tracker) ""
      :: mkEnqueue Queue.delete oldRawLogPath ""
      :: map (fun i =>
                mkEnqueue Queue.delete
                  (notePath projectName created oldSlug
                     ("raw-log-part-" ++ show i)%string) "")
             (seq 1 20) in
    (true,
     setSlugAndPath newSlug (notePath projectName created newSlug "summary") tracker,
     calls).

Section WithRuntime.
Context {W : Type} {RT : Runtime W}.

(** [enqueue(type, path, content).catch(() => {})]. *)
Definition enqueue (type : Queue.OpType) (path content : string)
  : St (W := W) unit :=
  modify (pushOutbox (mkEnqueue type path content)).

Fixpoint enqueueAll (calls : list EnqueueCall) : St (W := W) unit :=
  match calls with
  | [] => ret tt
  | c :: rest =>
      enqueue (callType c) (callPath c) (callContent c) ;;
      enqueueAll rest
  end.

(** The tracker object of a session is the entry of the [sessions] map;
    a write to one of its fields is a write to that entry. *)
Definition writeTracker (sessionId : string) (t : SessionTracker)
  : St (W := W) unit :=
  modify (fun s => setSessions (mapSet sessionId t (sessions s)) s).

(** [syncRawLog(conv, projectName, created, slug)], as the calls it
    issues. *)
Definition syncRawLog (conv : Lib.ReconstructedConversation)
    (projectName created slug : string) : list EnqueueCall :=
  match Lib.entries conv with
  | [] => []
  | _ =>
      let fullMarkdown := formatForObsidian conv in
      let splits := Splitter.splitIfNeeded fullMarkdown 300 in
      let totalParts := Nat.max (List.length splits) 1 in
      if totalParts <=? 1 then
        [mkEnqueue Queue.update
           (notePath projectName created slug "raw-log")
           (buildRawLogNote conv 1 1)]
      else
        map (fun i =>
               mkEnqueue Queue.update
                 (notePath projectName created slug
                    ("raw-log-part-" ++ show i)%string)
                 (buildRawLogNote conv i totalParts))
            (seq 1 totalParts)
  end.

(** The [for (let i = 1; i <= 20; i++)] loop of [moveToTrash], over the
    indices still to visit; a missing part ends it. *)
Fixpoint trashParts (summaryPath : string) (indices : list nat)
  : St (W := W) unit :=
  match indices with
  | [] => ret tt
  | i :: rest =>
      let partPath :=
        replace "/summary.md" ("/raw-log-part-" ++ show i ++ ".md")%string
                summaryPath in
      partContent <- Obsidian.obsidianGet partPath ;;
      match partContent with
      | None => ret tt
      | Some text =>
          let trashPartPath := replace "/sessions/" "/trash/" partPath in
          enqueue Queue.create trashPartPath text ;;
          enqueue Queue.delete partPath "" ;;
          trashParts summaryPath rest
      end
  end.

(** [moveToTrash(sessionId, tracker)]. *)
Definition moveToTrash (sessionId : string) (tracker : SessionTracker)
  : St (W := W) unit :=
  let summaryPath := summaryPath tracker in
  let trashSummaryPath := replace "/sessions/" "/trash/" summaryPath in
  summaryContent <- Obsidian.obsidianGet summaryPath ;;
  match summaryContent with
  | Some text =>
      enqueue Queue.create trashSummaryPath text ;;
      enqueue Queue.delete summaryPath ""
  | None => ret tt
  end ;;
  let rawLogPath := replace "/summary.md" "/raw-log.md" summaryPath in
  let trashRawLogPath := replace "/sessions/" "/trash/" rawLogPath in
  rawLogContent <- Obsidian.obsidianGet rawLogPath ;;
  match rawLogContent with
  | Some text =>
      enqueue Queue.create trashRawLogPath text ;;
      enqueue Queue.delete rawLogPath ""
  | None => ret tt
  end ;;
  trashParts summaryPath (seq 1 20).

(** [(deletionFailures.get(sessionId) || 0)]. *)
Definition failuresOf (sessionId : string) (m : JsMap Z) : Z :=
  match mapGet sessionId m with
  | Some n => n
  | None => 0%Z
  end.

(** The body of the loop of [pollForDeletions] for one entry of
    [sessions]. *)
Definition pollSession (sessionId : string) (tracker : SessionTracker)
  : St (W := W) unit :=
  tryCatch (
    session <-! io (fun w => readSession w sessionId (projectId tracker)) ;;
    match session with
    | Some _ =>
        lift (
          writeTracker sessionId (setFoundInStorage true tracker) ;;
          modify (fun s =>
            setDeletionFailures (mapDelete sessionId (deletionFailures s)) s))
    | None =>
        if foundInStorage tracker then
          lift (
            failures <- gets (fun s =>
              (failuresOf sessionId (deletionFailures s) + 1)%Z) ;;
            modify (fun s =>
              setDeletionFailures
                (mapSet sessionId failures (deletionFailures s)) s) ;;
            if (DELETION_THRESHOLD <=? failures)%Z then
              moveToTrash sessionId tracker ;;
              modify (fun s =>
                setSessions (mapDelete sessionId (sessions s)) s) ;;
              modify (fun s =>
                setDeletionFailures
                  (mapDelete sessionId (deletionFailures s)) s)
            else ret tt)
        else retE tt
    end).

(** The iteration over [sessions.entries()]: the keys present when the
    loop starts, each visited with the entry it has when it is reached. *)
Fixpoint pollAll (keys : list string) : St (W := W) unit :=
  match keys with
  | [] => ret tt
  | sessionId :: rest =>
      entry <- gets (fun s => mapGet sessionId (sessions s)) ;;
      match entry with
      | Some tracker => pollSession sessionId tracker
      | None => ret tt
      end ;;
      pollAll rest
  end.

(** [pollForDeletions()]. *)
Definition pollForDeletions : St (W := W) unit :=
  keys <- gets (fun s => map fst (sessions s)) ;;
  pollAll keys.

(** [computeTotalTokens(sessionId)]. *)
Definition computeTotalTokens (sessionId : string) : Exc (W := W) Z :=
  messages <-! io (fun w => readMessages w sessionId) ;;
  retE (fold_left
          (fun total msg =>
             match Lib.tokens msg with
             | Some (input, output) => (total + (input + output))%Z
             | None => total
             end)
          messages 0%Z).

(** The call of [handleRenameIfNeeded] on the tracker of [sessionId],
    with its effects on the map and the calls it issues. *)
Definition renameTracked (sessionId : string) (tracker : SessionTracker)
    (newTitle created : string) : St (W := W) SessionTracker :=
  let '(_, tracker', calls) := handleRenameIfNeeded tracker newTitle created in
  writeTracker sessionId tracker' ;;
  enqueueAll calls ;;
  ret tracker'.

(** [onSessionCreated(sessionInfo)]. *)
Definition onSessionCreated (sessionInfo : SessionInfo) : St (W := W) unit :=
  tryCatch (
    projectName <-! io (fun w => resolveProjectName w (projectID sessionInfo)) ;;
    let created := formatDate (created sessionInfo) in
    let slug :=
      sessionSlug (Slug.mkSlugSource (Some (title sessionInfo)) None
                                     (id sessionInfo)) in
    let title :=
      if String.eqb (title sessionInfo) "" then substring 0 12 (id sessionInfo)
      else title sessionInfo in
    let summaryPath := notePath projectName created slug "summary" in
    lift (
      writeTracker (id sessionInfo)
        (mkTracker (projectID sessionInfo) projectName slug summaryPath
                   0 0 false) ;;
      let content :=
        buildSkeletonSummary (id sessionInfo) projectName
          (directory sessionInfo) created title slug in
      enqueue Queue.create summaryPath content)).

(** The common tail of the update handlers: rebuild the summary from the
    reconstructed conversation and enqueue it at the tracker's path. *)
Definition refreshSummary (sessionId : string) (tracker : SessionTracker)
    (conv : Lib.ReconstructedConversation) : Exc (W := W) SessionTracker :=
  totalTokens <-! computeTotalTokens sessionId ;;
  content <-! io (fun w => buildUpdatedSummary w conv totalTokens) ;;
  let tracker' :=
    setMessageCount (Z.of_nat (List.length (Lib.entries conv))) tracker in
  lift (
    writeTracker sessionId tracker' ;;
    enqueue Queue.update (summaryPath tracker') content ;;
    ret tracker').

(** [onSessionUpdated(sessionInfo)]. *)
Definition onSessionUpdated (sessionInfo : SessionInfo) : St (W := W) unit :=
  tryCatch (
    entry <-! lift (gets (fun s => mapGet (id sessionInfo) (sessions s))) ;;
    match entry with
    | None => retE tt
    | Some tracker =>
        let created := formatDate (created sessionInfo) in
        tracker <-! lift (
          if String.eqb (title sessionInfo) "" then ret tracker
          else renameTracked (id sessionInfo) tracker (title sessionInfo) created) ;;
        conv <-! io (fun w =>
          reconstructConversation w (id sessionInfo) (projectId tracker)) ;;
        match conv with
        | None => retE tt
        | Some conv =>
            refreshSummary (id sessionInfo) tracker conv ;;!
            retE tt
        end
    end).

(** [freshSession.title || freshSession.slug || freshSession.id]. *)
Definition currentTitle (fresh : Lib.Session) : string :=
  match Slug.truthy (Lib.title fresh) with
  | Some t => t
  | None =>
      match Slug.truthy (Lib.slug fresh) with
      | Some s => s
      | None => Lib.id fresh
      end
  end.

(** [onSessionIdle(sessionId)]. *)
Definition onSessionIdle (sessionId : string) : St (W := W) unit :=
  tryCatch (
    entry <-! lift (gets (fun s => mapGet sessionId (sessions s))) ;;
    match entry with
    | None => retE tt
    | Some tracker =>
        freshSession <-! io (fun w => readSession w sessionId (projectId tracker)) ;;
        tracker <-! lift (
          match freshSession with
          | Some fresh =>
              let tracker := setFoundInStorage true tracker in
              writeTracker sessionId tracker ;;
              renameTracked sessionId tracker (currentTitle fresh)
                            (formatDate (Lib.created fresh))
          | None => ret tracker
          end) ;;
        conv <-! io (fun w => reconstructConversation w sessionId (projectId tracker)) ;;
        match conv with
        | None => retE tt
        | Some conv =>
            tracker <-! refreshSummary sessionId tracker conv ;;
            let created := formatDate (Lib.created (Lib.session conv)) in
            lift (enqueueAll
                    (syncRawLog conv (projectName tracker) created (slug tracker)))
        end
    end).

(** [onCompacting(sessionId)]. *)
Definition onCompacting (sessionId : string) : St (W := W) unit :=
  tryCatch (
    entry <-! lift (gets (fun s => mapGet sessionId (sessions s))) ;;
    match entry with
    | None => retE tt
    | Some tracker =>
        conv <-! io (fun w => reconstructConversation w sessionId (projectId tracker)) ;;
        match conv with
        | None => retE tt
        | Some conv =>
            let projectName := Lib.projectName conv in
            let created := formatDate (Lib.created (Lib.session conv)) in
            lift (enqueueAll (syncRawLog conv projectName created (slug tracker))) ;;!
            totalTokens <-! computeTotalTokens sessionId ;;
            summaryContent <-! io (fun w => buildUpdatedSummary w conv totalTokens) ;;
            lift (
              enqueue Queue.update (summaryPath tracker) summaryContent ;;
              writeTracker sessionId
                (setMessageCount (Z.of_nat (List.length (Lib.entries conv)))
                                 tracker))
        end
    end).

(** [Date.now()]. *)
Definition clockNow : St (W := W) Z :=
fun s => let (t, w') := dateNow (world s) in (t, setWorld w' s).

(** [onMessageUpdated(messageInfo)]. *)
Definition onMessageUpdated (messageInfo : MessageInfo) : St (W := W) unit :=
  tryCatch (
    entry <-! lift (gets (fun s => mapGet (sessionID messageInfo) (sessions s))) ;;
    match entry with
    | None => retE tt
    | Some tracker =>
        now <-! lift clockNow ;;
        if (now - lastMessageSync tracker <? MESSAGE_DEBOUNCE_MS)%Z then retE tt
        else
          let tracker := setLastMessageSync now tracker in
          lift (writeTracker (sessionID messageInfo) tracker) ;;!
          messages <-! io (fun w => readMessages w (sessionID messageInfo)) ;;
          lift (writeTracker (sessionID messageInfo)
                  (setMessageCount (Z.of_nat (List.length messages)) tracker))
    end).

(** [_resetForTesting()]. *)
Definition _resetForTesting : St (W := W) unit :=
  modify (fun s => setDeletionFailures [] (setSessions [] s)).

(** [handleEvent(event)]. A handler whose argument does not have the
    shape its event type promises throws on its first field access or
    finds no tracker, inside its own [try]: nothing happens. *)
Definition handleEvent (event : Event) : St (W := W) unit :=
  if String.eqb (type event) "session.created" then
    match propInfo (properties event) with
    | Some (InfoSession info) => onSessionCreated info
    | _ => ret tt
    end
  else if String.eqb (type event) "session.updated" then
    match propInfo (properties event) with
    | Some (InfoSession info) => onSessionUpdated info
    | _ => ret tt
    end
  else if String.eqb (type event) "session.idle" then
    match propSessionID (properties event) with
    | Some sessionID => onSessionIdle sessionID
    | None => ret tt
    end
  else if String.eqb (type event) "message.updated" then
    match propInfo (properties event) with
    | Some (InfoMessage info) => onMessageUpdated info
    | _ => ret tt
    end
  else ret tt.

End WithRuntime.

End Hooks.

(** ** The plugin's hooks (plugin/index.ts) *)

Module Plugin.
Import Engine.

Section WithRuntime.
Context {W : Type} {RT : Runtime W}.

(** The start of the plugin: [await healthCheck()]; the two timers it then
    arms tick [Obsidian.processQueue] and [Hooks.pollForDeletions]. *)
Definition start : St (W := W) bool := Obsidian.healthCheck.

(** The [event] hook. *)
Definition event (e : Hooks.Event) : St (W := W) unit := Hooks.handleEvent e.

(** The [experimental.session.compacting] hook. *)
Definition sessionCompacting (sessionID : string) : St (W := W) unit :=
Hooks.onCompacting sessionID.

(** The oldest [enqueue] call a handler has issued completes: with the
    identifier [randomUUID()] gives it and the time [Date.now()] reads, its
    record is written to the queue directory. *)
Definition settleEnqueue (uuid : string) (now : Z) (s : Sys W) : Sys W :=
match outbox s with
| [] => s
| c :: rest =>
    mkSys (world s) (available s)
          (Queue.enqueue uuid now (callType c) (callPath c) (callContent c)
                         (queueDir s))
          (sessions s) (deletionFailures s) rest (trace s)
end.

End WithRuntime.

End Plugin.

(** ** YAML scalars (plugin/hooks.ts, sync/sync-all.ts, sync/daily-notes.ts) *)

Module Yaml.
Import JsText.

(** The double quote, code unit 34, and the backslash, code unit 92. *)
Definition quote : ascii := ascii_of_N 34.
Definition backslash : ascii := ascii_of_N 92.

(** The characters whose presence makes [escapeYaml] quote the value: the
    double quote, the colon, the hash, the line feed and the two square
    brackets. *)
Definition needsQuotes (c : ascii) : bool :=
  existsb (N.eqb (code c)) [34; 58; 35; 10; 91; 93]%N.

(** The first [replace]: every backslash is written twice. *)
Definition doubleBackslashes (s : chars) : chars :=
  flat_map (fun c => if isChar 92 c then [backslash; backslash] else [c]) s.

(** The second [replace]: every double quote gets a backslash in front. *)
Definition escapeQuotes (s : chars) : chars :=
  flat_map (fun c => if isChar 34 c then [backslash; quote] else [c]) s.

(** [escapeYaml(value)]. *)
Definition escapeYaml (value : string) : string :=
  if existsb needsQuotes (ofString value)
  then toString (quote :: escapeQuotes (doubleBackslashes (ofString value)) ++ [quote])
  else value.

End Yaml.

(** ** Folder names (sync/sync-all.ts, sync/daily-notes.ts) *)

Module FolderName.
Import JsText.

(** The space, code unit 32. *)
Definition space : ascii := ascii_of_N 32.

(** The class replaced by a dash: less-than, greater-than, colon, double
    quote, slash, backslash, bar, question mark and star. *)
Definition isForbidden (c : ascii) : bool :=
  existsb (N.eqb (code c)) [60; 62; 58; 34; 47; 92; 124; 63; 42]%N.

(** The first [replace]: every forbidden character becomes a dash. *)
Definition replaceForbidden (s : chars) : chars :=
  map (fun c => if isForbidden c then dash else c) s.

(** The second [replace]: every run of white space becomes one space. *)
Fixpoint collapseWhitespace (s : chars) : chars :=
  match s with
  | [] => []
  | c :: s' =>
      if isWhitespace c then
        match s' with
        | d :: _ => if isWhitespace d then collapseWhitespace s'
                    else space :: collapseWhitespace s'
        | [] => [space]
        end
      else c :: collapseWhitespace s'
  end.

(** [s.trimStart()] and [s.trimEnd()]. *)
Fixpoint trimStart (s : chars) : chars :=
  match s with
  | [] => []
  | c :: s' => if isWhitespace c then trimStart s' else s
  end.

Definition trimEnd (s : chars) : chars := List.rev (trimStart (List.rev s)).

(** [s.trim()]. *)
Definition trim (s : chars) : chars := trimEnd (trimStart s).

(** [sanitizeFolderName(name)]. *)
Definition sanitizeFolderName (name : string) : string :=
  match trim (collapseWhitespace (replaceForbidden (ofString name))) with
  | [] => "unknown"
  | r => toString r
  end.

End FolderName.

(** ** Wikilink names (sync/backlinks.ts) *)

Module Backlinks.
Import JsText.

(** [s.replace(/\.md$/, "")]: the extension goes when the text ends with
    it. *)
Definition dropMdExtension (s : chars) : chars :=
  if endsWith (ofString ".md") s then firstn (List.length s - 3) s else s.

(** [extractWikilinkName(filePath)]. [parts.pop() || ""] is the last piece,
    the empty text when there is none, and leaves the pieces before it. *)
Definition extractWikilinkName (filePath : string) : string :=
  let parts := splitOn (isChar 47) (ofString filePath) in
  let filename := last parts [] in
  let parts := removelast parts in
  let folder := last parts [] in
  toString (folder ++ ofString "/" ++ dropMdExtension filename).

End Backlinks.

(** ** The search tool (plugin/index.ts) *)

Module SearchTool.
Import JsText.

(** An entry of [matches] of a search result. *)
Record SearchMatch := mkSearchMatch {
  matchStart : Z;
  matchEnd : Z;
  context : string
}.

(** A result of the search of the note sink; its score is passed on as it
    is. *)
Record SearchResult (Score : Type) := mkSearchResult {
  filename : string;
  score : Score;
  matches : option (list SearchMatch)
}.
Arguments mkSearchResult {Score}.
Arguments filename {Score}.
Arguments score {Score}.
Arguments matches {Score}.

(** An entry of [results] in the answer of the tool, with its fields
    [path], [project], [date], [context] and [score]. *)
Record Hit (Score : Type) := mkHit {
  hitPath : string;
  hitProject : string;
  hitDate : string;
  hitContext : string;
  hitScore : Score
}.
Arguments mkHit {Score}.
Arguments hitPath {Score}.
Arguments hitProject {Score}.
Arguments hitDate {Score}.
Arguments hitContext {Score}.
Arguments hitScore {Score}.

(** [s.includes(p)]. *)
Definition includes (p s : string) : bool :=
  match indexOf (ofString p) (ofString s) with
  | Some _ => true
  | None => false
  end.

(** [x || "unknown"] for a piece that may be missing. *)
Definition orUnknown (x : option chars) : string :=
  match x with
  | Some (c :: s) => toString (c :: s)
  | _ => "unknown"
  end.

(** [parts[parts.length - k]]: nothing when the index is negative. *)
Definition fromEnd (k : nat) (parts : list chars) : option chars :=
  if List.length parts <? k then None
  else nth_error parts (List.length parts - k).

(** [r.matches?.[0]?.context?.substring(0, 500) || ""]. *)
Definition firstContext (ms : option (list SearchMatch)) : string :=
  match ms with
  | Some (m :: _) => substring 0 500 (context m)
  | _ => ""
  end.

(** The arrow function that turns a result into an entry of the answer. *)
Definition toHit {Score} (r : SearchResult Score) : Hit Score :=
  let pathParts := splitOn (isChar 47) (ofString (filename r)) in
  let projectName := orUnknown (fromEnd 3 pathParts) in
  let sessionDate :=
    orUnknown (option_map (replaceFirst (ofString ".md") [])
                          (fromEnd 1 pathParts)) in
  mkHit (filename r) projectName sessionDate (firstContext (matches r)) (score r).

(** [if (!project) return true; return r.filename.includes(`/${project}/`)]. *)
Definition inProject {Score} (project : option string) (r : SearchResult Score)
  : bool :=
  match project with
  | None => true
  | Some "" => true
  | Some p => includes ("/" ++ p ++ "/")%string (filename r)
  end.

(** [filtered] of [searchSessionLogs(query, project)], from the results the
    note sink answered. *)
Definition searchHits {Score} (project : option string)
    (results : list (SearchResult Score)) : list (Hit Score) :=
  map toHit
    (firstn 10
       (filter (inProject project)
          (filter (fun r => includes "/sessions/" (filename r)) results))).

End SearchTool.

(** ** Tags of a conversation (lib/tagger.ts) *)

Module Tagger.
Import JsText.

Definition MAX_TAGS : nat := 15.
Definition DOMAIN_TEXT_THRESHOLD : nat := 3.

(** A rule: the source and the flags of its regular expression, and its
    tag. *)
Record TagRule := mkRule {
  source : string;
  flags : string;
  tag : string
}.

(** The rule tables, with the regular expressions as they are written. *)
Definition TOPIC_RULES : list TagRule :=
[ mkRule "\b(authenticat|auth[- ]?flow|login|signup|sign[- ]?up|oauth|jwt|bearer\s+token)\b" "i" "topic/authentication";
  mkRule "\b(database|sql\b|query|migration|schema|postgres|mysql|mongo|sqlite|table\b|column\b)\b" "i" "topic/database";
  mkRule "\b(test(s|ing)?|jest|vitest|pytest|\.spec\.|\.test\.|assert|expect\(|describe\(|it\()\b" "i" "topic/testing";
  mkRule "\b(deploy(ment|ing)?|ci[\/-]cd|pipeline|github[- ]?actions|workflow|\.ya?ml\b)" "i" "topic/ci-cd";
  mkRule "\b(refactor(ing|ed)?|rename|extract\s+(method|function|class)|cleanup|restructur)" "i" "topic/refactoring";
  mkRule "\b(debug(g(er|ing))?|breakpoint|stack\s*trace|error|fix(ed|ing)?|bug(s|fix)?)\b" "i" "topic/debugging";
  mkRule "\b(api\b|endpoint|route(s|r)?|rest\b|graphql|grpc|http(s)?\b)" "i" "topic/api";
  mkRule "\b(performance|optimiz(e|ation)|cache|latenc|profil(e|ing)|benchmark)" "i" "topic/performance";
  mkRule "\b(security|vulnerabilit|xss|csrf|injection|sanitiz|encrypt|decrypt)" "i" "topic/security";
  mkRule "\b(ui\b|frontend|css\b|style(s|d|sheet)?|component(s)?|layout|responsive)\b" "i" "topic/ui";
  mkRule "\b(config(uration)?|setup|install(ation)?|init(ializ)?|scaffold|boilerplate)\b" "i" "topic/setup";
  mkRule "\b(docker|container(s|iz)?|kubernetes|k8s|helm)\b" "i" "topic/infrastructure" ].

Definition TECH_RULES : list TagRule :=
[ mkRule "\b(typescript|\.tsx?\b)" "i" "tech/typescript";
  mkRule "\b(javascript|\.jsx?\b)" "i" "tech/javascript";
  mkRule "\b(python|\.py\b|pip\b|pytest)\b" "i" "tech/python";
  mkRule "\b(react|jsx|use[A-Z]\w+\(|useState|useEffect)\b" "" "tech/react";
  mkRule "\b(next\.?js|next\.config|next[/-]app)\b" "i" "tech/nextjs";
  mkRule "\b(vue|\.vue\b|vuex|pinia)\b" "i" "tech/vue";
  mkRule "\b(node\.?js|nodejs|npm\b|yarn\b|pnpm\b)\b" "i" "tech/nodejs";
  mkRule "\b(bun\b|bunx|bun\.sh)\b" "i" "tech/bun";
  mkRule "\b(postgres(ql)?|pg_|psql)\b" "i" "tech/postgres";
  mkRule "\b(redis|ioredis)\b" "i" "tech/redis";
  mkRule "\b(docker(file)?|docker[- ]?compose)\b" "i" "tech/docker";
  mkRule "\b(aws|s3\b|lambda\b|ec2\b|dynamodb|cloudfront)\b" "i" "tech/aws";
  mkRule "\b(graphql|gql\b|apollo|urql)\b" "i" "tech/graphql";
  mkRule "\b(git(hub|lab|bucket)?\b)" "i" "tech/git";
  mkRule "\b(obsidian|dataview|wikilink)\b" "i" "tech/obsidian";
  mkRule "\b(tailwind(css)?)\b" "i" "tech/tailwind";
  mkRule "\b(prisma|drizzle|typeorm|sequelize)\b" "i" "tech/orm";
  mkRule "\b(openai|anthropic|claude|gpt[- ]?\d|llm|embeddings)\b" "i" "tech/ai" ].

Definition ACTIVITY_RULES : list TagRule :=
[ mkRule "\b(fix(ed|ing|es)?|bug(s|fix)?|issue|patch|hotfix|broken)\b" "i" "activity/bugfix";
  mkRule "\b(feature|implement(ed|ing)?|add(ed|ing)?|creat(e|ed|ing)|build(ing)?|new\s+(component|function|module|file|endpoint))\b" "i" "activity/feature";
  mkRule "\b(explor(e|ing|ation)|investigat(e|ing)|research|look\s+into|understand|how\s+does)\b" "i" "activity/exploration";
  mkRule "\b(review|feedback|pr\b|pull\s+request|code\s+review)\b" "i" "activity/review";
  mkRule "\b(setup|install|configur(e|ing|ation)|init(ializ)?\b|scaffold)\b" "i" "activity/setup";
  mkRule "\b(migrat(e|ion|ing)|upgrade|update\s+version)\b" "i" "activity/migration" ].

(** The pairs of [DOMAIN_PATTERNS], each as a rule. *)
Definition DOMAIN_PATTERNS : list TagRule :=
[ mkRule "\b(opencode|oh-my-opencode|ohmyopencode|opencode-ai|opencode\.ai)\b" "i" "domain/opencode";
  mkRule "\b(bifrost)\b" "i" "domain/bifrost";
  mkRule "\b(aifr|aifr-core|aifr-preprod)\b" "i" "domain/aifr";
  mkRule "\b(obsidian|dataview|wikilink|vault)\b" "i" "domain/obsidian";
  mkRule "\b(neovim|nvim|lazyvim|vim)\b" "i" "domain/neovim";
  mkRule "\b(kubernetes|k8s|kind-cluster|helm|kubectl)\b" "i" "domain/kubernetes";
  mkRule "\b(tailscale|homelab|glance)\b" "i" "domain/homelab";
  mkRule "\b(aws|amazon|cloudfront|s3|lambda|ec2|bedrock|dynamodb|sagemaker)\b" "i" "domain/aws";
  mkRule "\b(docker|dockerfile|docker-compose|container)\b" "i" "domain/docker";
  mkRule "\b(github|github-actions|gh-cli)\b" "i" "domain/github";
  mkRule "\b(terraform|pulumi|cloudformation)\b" "i" "domain/iac";
  mkRule "\b(postgres|postgresql|mysql|mongodb|sqlite|database|sql)\b" "i" "domain/database";
  mkRule "\b(react|nextjs|next\.js|remix|gatsby)\b" "i" "domain/react";
  mkRule "\b(python|django|flask|fastapi)\b" "i" "domain/python";
  mkRule "\b(typescript|javascript|nodejs|node\.js|bun|deno)\b" "i" "domain/javascript" ].

(** A tool call of an entry; [input] is an object that goes through
    [JSON.stringify]. *)
Record ToolCall (Input : Type) := mkToolCall {
  tool : string;
  input : option Input;
  output : option string
}.
Arguments mkToolCall {Input}.
Arguments tool {Input}.
Arguments input {Input}.
Arguments output {Input}.

(** The fields of an entry and of a conversation that the tagger reads. *)
Record ConversationEntry (Input : Type) := mkEntry {
  textContent : string;
  toolCalls : list (ToolCall Input)
}.
Arguments mkEntry {Input}.
Arguments textContent {Input}.
Arguments toolCalls {Input}.

Record ReconstructedConversation (Input : Type) := mkConversation {
  entries : list (ConversationEntry Input);
  session : Lib.Session;
  projectName : string
}.
Arguments mkConversation {Input}.
Arguments entries {Input}.
Arguments session {Input}.
Arguments projectName {Input}.

(** Insertion in front of the first match that does not count more: the
    step of a stable sort under the comparator [b.count - a.count]. *)
Fixpoint insertByCount (x : string * nat) (l : list (string * nat))
  : list (string * nat) :=
  match l with
  | [] => [x]
  | y :: l' =>
      if snd y <=? snd x then x :: y :: l'
      else y :: insertByCount x l'
  end.

(** [results.sort((a, b) => b.count - a.count)]. *)
Fixpoint sortByCount (l : list (string * nat)) : list (string * nat) :=
  match l with
  | [] => []
  | x :: l' => insertByCount x (sortByCount l')
  end.

(** A loop [for (const m of ms) { if (tags.length >= MAX_TAGS) break;
    tags.push(m) }]. *)
Fixpoint pushCapped (tags ms : list string) : list string :=
  match ms with
  | [] => tags
  | m :: rest =>
      if MAX_TAGS <=? List.length tags then tags
      else pushCapped (tags ++ [m]) rest
  end.

(** The same loop with [if (!tags.includes(dt)) tags.push(dt)] for its
    body. *)
Fixpoint pushNew (tags ds : list string) : list string :=
  match ds with
  | [] => tags
  | dt :: rest =>
      if MAX_TAGS <=? List.length tags then tags
      else if existsb (String.eqb dt) tags then pushNew tags rest
      else pushNew (tags ++ [dt]) rest
  end.

(** [set.add(x)] on a [Set] kept in insertion order. *)
Definition setAdd (x : string) (set : list string) : list string :=
  if existsb (String.eqb x) set then set else set ++ [x].

Section WithRegExp.

(** The regular expressions and [JSON.stringify] are not modelled:
    [matchCount source flags text] is the number of matches
    [text.match(new RegExp(source, flags))] finds, zero when it answers
    [null], and [test source flags text] is
    [new RegExp(source, flags).test(text)]. *)
Context {Input : Type}.
Variable stringify : Input -> string.
Variable matchCount : string -> string -> string -> nat.
Variable test : string -> string -> string -> bool.

(** What one tool call adds to [parts]. *)
Definition toolCallParts (tc : ToolCall Input) : list string :=
  [tool tc]
  ++ match input tc with
     | Some i => [stringify i]
     | None => []
     end
  ++ match output tc with
     | Some o =>
         if String.eqb o "" then []
         else [if 500 <? String.length o then substring 0 500 o else o]
     | None => []
     end.

(** What one entry adds to [parts]. *)
Definition entryParts (entry : ConversationEntry Input) : list string :=
  (if String.eqb (textContent entry) "" then [] else [textContent entry])
  ++ flat_map toolCallParts (toolCalls entry).

(** [buildSearchText(conv)]. *)
Definition buildSearchText (conv : ReconstructedConversation Input) : string :=
  toString
    (toLowerCase
       (join [ascii_of_N 10]
             (map ofString (flat_map entryParts (entries conv))))).

(** The entry a rule adds to [results], if any. *)
Definition ruleMatch (text : string) (rule : TagRule) : list (string * nat) :=
  let n := matchCount (source rule) (flags rule ++ "g")%string text in
  if 0 <? n then [(tag rule, n)] else [].

(** [matchRules(text, rules)]. *)
Definition matchRules (text : string) (rules : list TagRule)
  : list (string * nat) :=
  sortByCount (flat_map (ruleMatch text) rules).

(** Whether [matchDomainTags] adds the tag of a pattern. *)
Definition domainMatch (text title : string) (rule : TagRule) : bool :=
  if test (source rule) (flags rule) title then true
  else DOMAIN_TEXT_THRESHOLD
       <=? matchCount (source rule) (flags rule ++ "g")%string text.

(** [matchDomainTags(text, title, tags)], as the set it leaves. *)
Definition matchDomainTags (text title : string) (tags : list string)
  : list string :=
  fold_left
    (fun set rule =>
       if domainMatch text title rule then setAdd (tag rule) set else set)
    DOMAIN_PATTERNS tags.

(** [`project/${conv.projectName.toLowerCase()}`]. *)
Definition projectTag (conv : ReconstructedConversation Input) : string :=
  ("project/" ++ toString (toLowerCase (ofString (projectName conv))))%string.

(** [conv.session.title || conv.session.slug || ""]. *)
Definition titleOf (conv : ReconstructedConversation Input) : string :=
  match Slug.truthy (Lib.title (session conv)) with
  | Some t => t
  | None =>
      match Slug.truthy (Lib.slug (session conv)) with
      | Some s => s
      | None => ""
      end
  end.

(** [extractTags(conv)]. *)
Definition extractTags (conv : ReconstructedConversation Input) : list string :=
  let tags :=
    if String.eqb (projectName conv) "" then [] else [projectTag conv] in
  let text := buildSearchText conv in
  if String.eqb text "" then tags
  else
    let topicMatches := matchRules text TOPIC_RULES in
    let techMatches := matchRules text TECH_RULES in
    let activityMatches := matchRules text ACTIVITY_RULES in
    let tags := pushCapped tags (map fst topicMatches) in
    let tags := pushCapped tags (map fst techMatches) in
    let tags := pushCapped tags (map fst activityMatches) in
    let domainSet := matchDomainTags text (titleOf conv) [] in
    pushNew tags domainSet.

End WithRegExp.

End Tagger.

(** ** Front matter values (lib/formatter.ts) *)

Module Formatter.
Import JsText.

(** The characters whose presence makes [escapeFrontmatter] quote the
    value: the double quote, the colon, the hash and the line feed. *)
Definition needsQuotes (c : ascii) : bool :=
  existsb (N.eqb (code c)) [34; 58; 35; 10]%N.

(** [escapeFrontmatter(value)]; its one [replace] is the second one of
    [escapeYaml]. *)
Definition escapeFrontmatter (value : string) : string :=
  if existsb needsQuotes (ofString value)
  then toString (Yaml.quote :: Yaml.escapeQuotes (ofString value) ++ [Yaml.quote])
  else value.

End Formatter.

(** ** Vocabulary for the statements about the processor *)

Module ProcessorSpec.
Import Engine.

(** The request [processItem] sends for an item. *)
Definition requestOf (item : Queue.QueueItem) : Request :=
  match Queue.type item with
  | Queue.delete => VaultDelete (Queue.path item)
  | _ => VaultPut (Queue.path item) (Queue.content item)
  end.

(** Whether the outcome of that request counts as delivered: [res.ok], and
    for a delete also status 404. *)
Definition delivered (t : Queue.OpType) (res : FetchResult) : bool :=
  match res with
  | Response status _ =>
      match t with
      | Queue.delete => ok status || (status =? 404)%Z
      | _ => ok status
      end
  | FetchFailed => false
  end.

(** A request that was rejected: connection failure or timeout. *)
Definition rejected (e : Effect) : bool :=
match e with
| EFetch _ FetchFailed => true
| _ => false
end.

(** The effects of [final] that are not yet in [s]. *)
Definition newEffects {W} (s final : Sys W) : list Effect :=
  skipn (List.length (trace s)) (trace final).



(** A write or delete request counts as failed when its outcome is not
    [delivered] for the operation it carries. *)
Definition failedSinkWrite (e : Effect) : bool :=
  match e with
  | EFetch (VaultPut _ _) res => negb (delivered Queue.update res)
  | EFetch (VaultDelete _) res => negb (delivered Queue.delete res)
  | _ => false
  end.

Section WithRuntime.
Context {W : Type} {RT : Runtime W}.

(** Running the loop over [items] from [s], every item is discarded or
    delivered: no sink call fails. *)
Fixpoint deliversAll (items : list Queue.QueueItem) (s : Sys W) : bool :=
  match items with
  | [] => true
  | item :: rest =>
      if Queue.shouldDiscard item then
        deliversAll rest (snd (Obsidian.dequeue (Queue.id item) s))
      else
        let (ok, s') := Obsidian.processItem item s in
        ok && deliversAll rest (snd (Obsidian.dequeue (Queue.id item) s'))
  end.

(** The calls a caller can make on the sink client. *)
Inductive ClientCall :=
| CallHealthCheck
| CallGet (path : string)
| CallPut (path content : string)
| CallDelete (path : string)
| CallProcessQueue.

Definition runCall (c : ClientCall) : St (W := W) unit :=
  match c with
  | CallHealthCheck => bind Obsidian.healthCheck (fun _ => ret tt)
  | CallGet path => bind (Obsidian.obsidianGet path) (fun _ => ret tt)
  | CallPut path content =>
      bind (Obsidian.obsidianPut path content) (fun _ => ret tt)
  | CallDelete path => bind (Obsidian.obsidianDelete path) (fun _ => ret tt)
  | CallProcessQueue => Obsidian.processQueue
  end.


(** The state after the probe of [healthCheck]. *)
Definition probed (s : Sys W) : Sys W :=
  let res := fst (fetch (world s) HealthProbe) in
  setAvailable
    match res with
    | Response status _ => ok status
    | FetchFailed => false
    end
    (logEffect (EFetch HealthProbe res)
               (setWorld (snd (fetch (world s) HealthProbe)) s)).

End WithRuntime.

(** The first half of the specification's sentence on the [available] flag,
    read literally: whatever the call, a rejected request leaves the flag
    cleared. *)
Definition flagClearedByEveryFailedCall {W : Type} {RT : Runtime W} : Prop :=
forall (call : ClientCall) (s : Sys W),
  existsb rejected (newEffects s (snd (runCall call s))) = true ->
  available (snd (runCall call s)) = false.

End ProcessorSpec.

(** ** Vocabulary for the statements about the deletion guard *)

Module GuardSpec.
Import Engine.

(** The quarantine of one note read from the sink: its copy under the trash
    folder, then the delete of the original. *)
Definition quarantine (note : string * string) : list EnqueueCall :=
[mkEnqueue Queue.create (Hooks.replace "/sessions/" "/trash/" (fst note)) (snd note);
 mkEnqueue Queue.delete (fst note) ""].

(** The paths [moveToTrash] probes: the summary, the raw log, and the raw-log
    parts 1 to 20. *)
Definition notePaths (tracker : SessionTracker) : list string :=
summaryPath tracker
:: Hooks.replace "/summary.md" "/raw-log.md" (summaryPath tracker)
:: map (fun i =>
          Hooks.replace "/summary.md"
            ("/raw-log-part-" ++ Hooks.show i ++ ".md")%string
            (summaryPath tracker))
       (seq 1 20).

(** Every failure counter is below the threshold. *)
Definition countersBelowThreshold {W} (s : Sys W) : Prop :=
forall k, (Hooks.failuresOf k (deletionFailures s) < Hooks.DELETION_THRESHOLD)%Z.

Section WithRuntime.
Context {W : Type} {RT : Runtime W}.

(** The states the plugin is in between runs, when every run goes from its
    start to its end before the next one starts: it starts with empty maps
    and the queue directory earlier runs left, and then events arrive, the
    compaction hook fires, the two timers tick, and the enqueue calls the
    handlers issued complete. A poll is a run of visits, one per tracked
    session, and a single visit is a step too. The states inside a run,
    between two of its awaits, and the states of runs that overlap are not
    among them. *)
Inductive Reachable : Sys W -> Prop :=
| ReachStart (w : W) (dir : Queue.QueueDir) :
    Queue.wellFormed dir -> Reachable (mkSys w false dir [] [] [] [])
| ReachEvent (e : Hooks.Event) (s : Sys W) :
    Reachable s -> Reachable (snd (Hooks.handleEvent e s))
| ReachCompacting (sessionId : string) (s : Sys W) :
    Reachable s -> Reachable (snd (Hooks.onCompacting sessionId s))
| ReachPoll (s : Sys W) :
    Reachable s -> Reachable (snd (Hooks.pollForDeletions s))
| ReachVisit (sessionId : string) (tracker : SessionTracker) (s : Sys W) :
    Reachable s ->
    mapGet sessionId (sessions s) = Some tracker ->
    Reachable (snd (Hooks.pollSession sessionId tracker s))
| ReachHealthCheck (s : Sys W) :
    Reachable s -> Reachable (snd (Obsidian.healthCheck s))
| ReachTick (s : Sys W) :
    Reachable s -> Reachable (snd (Obsidian.processQueue s))
| ReachReset (s : Sys W) :
    Reachable s -> Reachable (snd (Hooks._resetForTesting s))
| ReachSettle (uuid : string) (now : Z) (s : Sys W) :
    Reachable s -> Reachable (Plugin.settleEnqueue uuid now s).

(** [s'] differs from [s] by the world, the trace, and [calls] more in the
    outbox. *)
Definition Issued (s s' : Sys W) (calls : list EnqueueCall) : Prop :=
  sessions s' = sessions s
  /\ deletionFailures s' = deletionFailures s
  /\ available s' = available s
  /\ queueDir s' = queueDir s
  /\ outbox s' = outbox s ++ calls.

(** The state one visit of the poll leaves. *)
Definition afterPoll (sessionId : string) (tracker : SessionTracker) (s : Sys W)
  : Sys W :=
  let r := fst (readSession (world s) sessionId (projectId tracker)) in
  let s0 := setWorld (snd (readSession (world s) sessionId (projectId tracker))) s in
  match r with
  | Threw => s0
  | Returned (Some _) =>
      setDeletionFailures (mapDelete sessionId (deletionFailures s0))
        (setSessions (mapSet sessionId (Hooks.setFoundInStorage true tracker) (sessions s0))
                     s0)
  | Returned None =>
      if foundInStorage tracker then
        let failures := (Hooks.failuresOf sessionId (deletionFailures s0) + 1)%Z in
        let s1 :=
          setDeletionFailures (mapSet sessionId failures (deletionFailures s0)) s0 in
        if (Hooks.DELETION_THRESHOLD <=? failures)%Z then
          let s2 := snd (Hooks.moveToTrash sessionId tracker s1) in
          setDeletionFailures (mapDelete sessionId (deletionFailures s2))
            (setSessions (mapDelete sessionId (sessions s2)) s2)
        else s1
      else s0
  end.

(** A program that leaves a component [proj] of the state as it is. *)
Definition Keeps {X A : Type} (proj : Sys W -> X) (m : St (W := W) A) : Prop :=
  forall s, proj (snd (m s)) = proj s.

(** A component of the state that the world, the tracker map, the issued
    calls, the flag and the trace are no part of. *)
Definition Framed {X : Type} (proj : Sys W -> X) : Prop :=
  (forall w s, proj (setWorld w s) = proj s)
  /\ (forall m s, proj (setSessions m s) = proj s)
  /\ (forall c s, proj (pushOutbox c s) = proj s)
  /\ (forall b s, proj (setAvailable b s) = proj s)
  /\ (forall e s, proj (logEffect e s) = proj s).

End WithRuntime.

End GuardSpec.

(** ** Vocabulary for the statements about the handlers *)

Module HandlerSpec.
Import Engine.

Section WithRuntime.
Context {W : Type} {RT : Runtime W}.

(** A program every run of which takes a state to one related to it by
    [R]. *)
Definition Steps {A : Type} (R : Sys W -> Sys W -> Prop) (m : St (W := W) A) : Prop :=
  forall s, R s (snd (m s)).

(** A relation between states that holds across the three things a
    handler does to the state: a call into the world, a write to the entry
    of a session in the tracker map, and one more issued [enqueue]. *)
Definition HandlerClosed (R : Sys W -> Sys W -> Prop) : Prop :=
  (forall s, R s s)
  /\ (forall s1 s2 s3, R s1 s2 -> R s2 s3 -> R s1 s3)
  /\ (forall w s, R s (setWorld w s))
  /\ (forall k t s, R s (setSessions (mapSet k t (sessions s)) s))
  /\ (forall c s, R s (pushOutbox c s)).

(** The tracked sessions of [s] are tracked in [s'], and the failure
    counters are those of [s]. *)
Definition KeepsTracked (s s' : Sys W) : Prop :=
  deletionFailures s' = deletionFailures s
  /\ forall k, mapGet k (sessions s) <> None -> mapGet k (sessions s') <> None.

(** A sound state of the two maps and the queue directory: the directory
    is well formed, every failure counter is between 0 and the threshold,
    the threshold excluded, and only tracked sessions have a counter. *)
Definition Sound (s : Sys W) : Prop :=
  Queue.wellFormed (queueDir s)
  /\ (forall k, (0 <= Hooks.failuresOf k (deletionFailures s)
                  < Hooks.DELETION_THRESHOLD)%Z)
  /\ (forall k, mapGet k (deletionFailures s) <> None ->
                 mapGet k (sessions s) <> None).

(** [s'] is [s] with [enqueue] calls issued, whatever happened to the world
    and the tracker map: the flag, the queue directory, the failure counters
    and the requests sent are those of [s]. *)
Definition OnlyEnqueued (s s' : Sys W) : Prop :=
  available s' = available s
  /\ queueDir s' = queueDir s
  /\ deletionFailures s' = deletionFailures s
  /\ trace s' = trace s
  /\ exists calls, outbox s' = outbox s ++ calls.

(** The entry of session [k] is there and its [foundInStorage] flag is
    [b]. *)
Definition Flagged (k : string) (b : bool) (s : Sys W) : Prop :=
  exists t, mapGet k (sessions s) = Some t /\ foundInStorage t = b.

End WithRuntime.

End HandlerSpec.

(** ** Vocabulary for the statements about the quarantine *)

Module TrashSpec.
Import Engine.

(** What [obsidianGet] returns for the outcome of its request: the text of
    an [ok] response, and [null] otherwise. *)
Definition noteOf (res : FetchResult) : option string :=
  match res with
  | Response status text => if ok status then text else None
  | FetchFailed => None
  end.

(** The read [moveToTrash] makes of a note, with its outcome. *)
Definition probe (pr : string * FetchResult) : Effect :=
  EFetch (VaultGet (fst pr)) (snd pr).

(** The calls [moveToTrash] issues for a note it has probed: the quarantine
    of the note when the read gave its text, nothing otherwise. *)
Definition quarantineIfRead (pr : string * FetchResult) : list EnqueueCall :=
  match noteOf (snd pr) with
  | Some text => GuardSpec.quarantine (fst pr, text)
  | None => []
  end.

Section WithRuntime.
Context {W : Type} {RT : Runtime W}.

(** The state after one read of [moveToTrash] and the two calls that
    follow it when the note is there. *)
Definition afterProbe (path : string) (s : Sys W) : Sys W :=
  let r := fst (fetch (world s) (VaultGet path)) in
  let s1 := logEffect (EFetch (VaultGet path) r)
              (setWorld (snd (fetch (world s) (VaultGet path))) s) in
  match noteOf r with
  | Some text =>
      pushOutbox (mkEnqueue Queue.delete path "")
        (pushOutbox
           (mkEnqueue Queue.create (Hooks.replace "/sessions/" "/trash/" path) text)
           s1)
  | None => s1
  end.

End WithRuntime.

End TrashSpec.

(** ** Vocabulary for the statements about texts and paths *)

Module TextSpec.
Import JsText.

(** The pattern [pat] starts nowhere inside [t] when [t] is followed by
    [x]: at no offset below the length of [t] does [t ++ x] go on with
    [pat]. *)
Definition NoStart (pat t x : chars) : Prop :=
  forall a b, t = a ++ b -> b <> [] -> startsWith pat (b ++ x) = false.

(** The slash, code unit 47, and a text without one. *)
Definition slash : ascii := ascii_of_N 47.

Definition noSlash (s : string) : bool := negb (existsb (isChar 47) (ofString s)).

(** A text without a dot, code unit 46. *)
Definition noDot (s : string) : bool := negb (existsb (isChar 46) (ofString s)).

End TextSpec.

Module PathSpec.
Import JsText TextSpec.

(** The folder of the notes of a session: what [notePath] puts in front of
    the slash and the suffix. *)
Definition noteFolder (projectName date slug : string) : chars :=
  ofString "10-Projects" ++ [slash] ++ ofString projectName ++ [slash]
    ++ ofString "sessions" ++ [slash] ++ ofString (substring 0 7 date) ++ [slash]
    ++ (ofString (substring 8 2 date) ++ [dash] ++ ofString slug).

(** The path of the quarantined copy of a note: the path of the note with
    the trash folder in the place of the sessions folder of the project. *)
Definition trashPath (projectName date slug suffix : string) : string :=
  ("10-Projects/" ++ projectName ++ "/trash/" ++ substring 0 7 date ++ "/"
     ++ substring 8 2 date ++ "-" ++ slug ++ "/" ++ suffix ++ ".md")%string.

End PathSpec.

(** ** Vocabulary for the statements about the splitter *)

Module SplitterSpec.
Import JsText Splitter.

(** No closing fence starts inside [t] when [t] is followed by [x]. *)
Definition NoFence (t x : chars) : Prop := TextSpec.NoStart closeFence t x.

(** The number of line starts of [s], offset 0 apart, at which a message
    heading begins. *)
Fixpoint headingStarts (s : chars) : nat :=
  match s with
  | [] => 0
  | c :: s' =>
      (if isLineTerminator c && isMessageHeader s' then 1 else 0) + headingStarts s'
  end.

End SplitterSpec.

(** ** Vocabulary for the statements about escaping and folder names *)

Module YamlSpec.
Import JsText Yaml.

(** The reading of the inside of a quoted value that undoes the two
    replacements: a backslash makes the character after it literal. *)
Fixpoint unescape (s : chars) : chars :=
  match s with
  | [] => []
  | c :: s' =>
      if isChar 92 c then
        match s' with
        | d :: s'' => d :: unescape s''
        | [] => [c]
        end
      else c :: unescape s'
  end.

(** The reading of a value as [escapeYaml] writes it: between its quotes
    when it starts with one, as it stands otherwise. *)
Definition readScalar (s : string) : string :=
  match ofString s with
  | c :: rest => if isChar 34 c then toString (unescape (removelast rest)) else s
  | [] => s
  end.

End YamlSpec.

Module FolderNameSpec.
Import JsText FolderName.

(** A text that does not start with white space. *)
Definition startsClean (s : chars) : Prop :=
  match s with
  | c :: _ => isWhitespace c = false
  | [] => True
  end.

(** A text in which white space only comes as single spaces. *)
Fixpoint tidy (s : chars) : bool :=
  match s with
  | [] => true
  | c :: s' =>
      (if isWhitespace c then
         isChar 32 c && match s' with
                        | d :: _ => negb (isWhitespace d)
                        | [] => true
                        end
       else true)
      && tidy s'
  end.

End FolderNameSpec.

(** ** Vocabulary for the statements about the tracker map *)

Module TrackerSpec.
Import Engine.

(** The tracker is filed under its slug: the slug is one [sessionSlug]
    makes, and the summary path is the note path of the summary for the
    project name and the slug of the tracker, under some date. *)
Definition Filed (t : SessionTracker) : Prop :=
  exists date source,
    slug t = Hooks.sessionSlug source
    /\ summaryPath t = Hooks.notePath (projectName t) date (slug t) "summary".

(** Every entry of the tracker map has the property [P]. *)
Definition Tracks {W} (P : SessionTracker -> Prop) (s : Sys W) : Prop :=
  forall k t, mapGet k (sessions s) = Some t -> P t.

(** [Q] holds of what a call returned, and nothing is asked of a call that
    threw. *)
Definition Throws {A} (Q : A -> Prop) (r : IOResult A) : Prop :=
  match r with
  | Returned a => Q a
  | Threw => True
  end.

(** A program that, started with a tracker map whose entries all have the
    property [P], leaves such a map and gives a result with the property
    [Q]. *)
Definition Carries {W A} (P : SessionTracker -> Prop) (m : St (W := W) A)
    (Q : A -> Prop) : Prop :=
  forall s, Tracks P s -> Tracks P (snd (m s)) /\ Q (fst (m s)).

End TrackerSpec.

(** ** Vocabulary for the statements about the tagger *)

Module TaggerSpec.
Import Tagger.

(** The family of a tag, by its prefix: 0 for a project tag, 1 for a topic,
    2 for a technology, 3 for an activity, 4 for anything else. *)
Definition family (t : string) : nat :=
  let starts p := JsText.startsWith (JsText.ofString p) (JsText.ofString t) in
  if starts "project/" then 0
  else if starts "topic/" then 1
  else if starts "tech/" then 2
  else if starts "activity/" then 3
  else 4.

(** No text occurs twice in the list. *)
Fixpoint distinct (l : list string) : bool :=
  match l with
  | [] => true
  | x :: rest => negb (existsb (String.eqb x) rest) && distinct rest
  end.

(** The tag [t] is the tag of a rule of [rules] that has a match in
    [text]. *)
Definition RuleMatched (matchCount : string -> string -> string -> nat)
    (text : string) (rules : list TagRule) (t : string) : Prop :=
  exists rule,
    In rule rules /\ t = tag rule
    /\ 0 < matchCount (source rule) (flags rule ++ "g")%string text.

(** The tag [t] is the tag of a domain pattern that matches the title or
    has three matches or more in [text]. *)
Definition DomainMatched (matchCount : string -> string -> string -> nat)
    (test : string -> string -> string -> bool)
    (text title : string) (t : string) : Prop :=
  exists rule,
    In rule DOMAIN_PATTERNS /\ t = tag rule
    /\ (test (source rule) (flags rule) title = true
        \/ 3 <= matchCount (source rule) (flags rule ++ "g")%string text).

End TaggerSpec.

(** ** A scripted world, for running the model on concrete inputs *)

Module Script.
Import Engine.

(** The outcomes the sink and the session store will give, in order; an
    exhausted script means the sink is unreachable and the session is
    gone. *)
Record World := mkWorld {
  fetches : list FetchResult;
  sessionReads : list (IOResult (option Lib.Session));
  conversation : option Lib.ReconstructedConversation;
  clock : Z
}.

Definition nextFetch (w : World) (_ : Request) : FetchResult * World :=
  match fetches w with
  | r :: rest => (r, mkWorld rest (sessionReads w) (conversation w) (clock w))
  | [] => (FetchFailed, w)
  end.

Definition nextSessionRead (w : World) (_ _ : string)
  : IOResult (option Lib.Session) * World :=
  match sessionReads w with
  | r :: rest => (r, mkWorld (fetches w) rest (conversation w) (clock w))
  | [] => (Returned None, w)
  end.

#[export] Instance runtime : Runtime World := {
  fetch := nextFetch;
  readSession := nextSessionRead;
  resolveProjectName := fun w _ => (Returned "demo", w);
  reconstructConversation := fun w _ _ => (Returned (conversation w), w);
  readMessages := fun w _ => (Returned [], w);
  dateNow := fun w => (clock w, w);
  formatDate := fun _ => "2026-02-14";
  formatForObsidian := fun _ => "# log";
  buildSkeletonSummary := fun _ _ _ _ title _ => title;
  buildUpdatedSummary := fun w _ _ => (Returned "summary", w);
  buildRawLogNote := fun _ _ _ => "raw log"
}.

Definition initial (w : World) : Sys World :=
  mkSys w false [] [] [] [] [].

Definition okResponse : FetchResult := Response 200 (Some "note").
Definition errorResponse : FetchResult := Response 500 None.

End Script.

(** ** Sample data *)

Module Samples.
Import Engine.

Definition itemA : Queue.QueueItem :=
  Queue.mkQueueItem "a" Queue.update "notes/a.md" "A" 0 5.
Definition itemB : Queue.QueueItem :=
  Queue.mkQueueItem "b" Queue.delete "notes/b.md" "" 0 5.
Definition itemC : Queue.QueueItem :=
  Queue.mkQueueItem "c" Queue.create "notes/c.md" "C" 0 7.
Definition itemOld : Queue.QueueItem :=
  Queue.mkQueueItem "old" Queue.update "notes/old.md" "O" 50 1.

Definition fileOf (item : Queue.QueueItem) : Queue.QFile :=
  Queue.mkQFile (Queue.fileName (Queue.id item)) (Some item).

(** Two items enqueued in the same millisecond, listed [b] first. *)
Definition dirBA : Queue.QueueDir := [fileOf itemB; fileOf itemA].

(** A directory with a worn-out item, a half-written file and a stray
    file. *)
Definition dirMixed : Queue.QueueDir :=
  [fileOf itemC; Queue.mkQFile "partial.json" None; fileOf itemA;
   Queue.mkQFile "README" None; fileOf itemOld; fileOf itemB].

(** A document with front matter, a header line and two messages. *)
Definition sampleDocument : string :=
  "---
title: demo
---
# Session
### User (10:00)
hello
### Assistant (10:01)
hi
".

(** The processor about to run on [dirMixed], the sink accepting the
    first request and failing the second. *)
Definition tickState : Sys Script.World :=
  mkSys (Script.mkWorld [Script.okResponse; Script.errorResponse] [] None 0)
        true dirMixed [] [] [] [].

(** A session that is created, seen once upstream, and then gone; the sink
    holds its summary and nothing else. *)
Definition sessionOne : Lib.Session :=
Lib.mkSession "ses_1" "proj" (Some "Fix login bug") None 1000 None.

Definition guardWorld : Script.World :=
Script.mkWorld
  [Script.okResponse; Script.errorResponse; Script.errorResponse]
  [Returned (Some sessionOne); Returned None; Returned None; Returned None]
  None 0.

Definition createdEvent : Hooks.Event :=
Hooks.mkEvent "session.created"
  (Hooks.mkProperties
     (Some (Hooks.InfoSession
              (Hooks.mkSessionInfo "ses_1" "proj" "Fix login bug" "/work" 1000 1000)))
     None).

Definition poll (s : Sys Script.World) : Sys Script.World :=
snd (Hooks.pollForDeletions (RT := Script.runtime) s).

Definition tracked : Sys Script.World :=
snd (Hooks.handleEvent (RT := Script.runtime) createdEvent
       (mkSys guardWorld false [] [] [] [] [])).

Definition trackerOne : SessionTracker :=
mkTracker "proj" "demo" "fix-login-bug"
          "10-Projects/demo/sessions/2026-02/14-fix-login-bug/summary.md"
          0 0 true.

(** The same session just created, with an upstream store that does not
    have it yet. *)
Definition unseen : Sys Script.World :=
snd (Hooks.handleEvent (RT := Script.runtime) createdEvent
       (mkSys (Script.mkWorld [] [] None 0) false [] [] [] [] [])).

(** A tracked session whose conversation can be reconstructed, and the
    event a compaction would be announced with. *)
Definition conversationOne : Lib.ReconstructedConversation :=
Lib.mkConversation [Lib.mkEntry "user" "hello"] sessionOne "demo" "/work".

Definition conversing : Sys Script.World :=
snd (Hooks.handleEvent (RT := Script.runtime) createdEvent
       (mkSys (Script.mkWorld [] [] (Some conversationOne) 0) false [] [] [] [] [])).

Definition compactingEvent : Hooks.Event :=
Hooks.mkEvent "session.compacting" (Hooks.mkProperties None (Some "ses_1")).

(** The sink marked available, and unreachable from now on. *)
Definition armedState : Sys Script.World :=
mkSys (Script.mkWorld [] [] None 0) true [] [] [] [] [].

(** The processor about to run on [dirMixed], the sink accepting every
    request. *)
Definition drainState : Sys Script.World :=
mkSys (Script.mkWorld [Script.okResponse; Script.okResponse; Script.okResponse]
                      [] None 0)
      true dirMixed [] [] [] [].

(** The sink not reachable yet and answering the probe with an error, with
    [dirMixed] waiting. *)
Definition downState : Sys Script.World :=
mkSys (Script.mkWorld [Script.errorResponse] [] None 0) false dirMixed [] [] [] [].

(** A delete waiting for a note the sink no longer has. *)
Definition goneState : Sys Script.World :=
mkSys (Script.mkWorld [Response 404 None] [] None 0) true dirBA [] [] [] [].

(** The body of [sampleDocument]: what follows its front matter. *)
Definition sampleBody : string :=
"# Session
### User (10:00)
hello
### Assistant (10:01)
hi
".

(** What the note sink answers a search with: the summary of a session of
    the project [demo], and a note outside the session folders. *)
Definition summaryResult : SearchTool.SearchResult Z :=
SearchTool.mkSearchResult
  "10-Projects/demo/sessions/2026-02/14-fix-login-bug/summary.md" (-3)%Z
  (Some [SearchTool.mkSearchMatch 0 5 "login fails on retry"]).

Definition searchResults : list (SearchTool.SearchResult Z) :=
[summaryResult; SearchTool.mkSearchResult "00-Inbox/todo.md" (-7)%Z None].





(** The processor about to run on [dirMixed] against a sink that takes the
    first request and fails the second, then answers the probe of the next
    tick and fails the request after it. *)
Definition retryState : Sys Script.World :=
  mkSys (Script.mkWorld [Script.okResponse; Script.errorResponse;
                         Script.okResponse; Script.errorResponse] [] None 0)
        true dirMixed [] [] [] [].
End Samples.

(* ================================================================== *)
(** * Theorems *)
(* ================================================================== *)

Example slug_fix_login :
  HooksSlug.sessionSlug (Slug.mkSlugSource (Some "Fix login bug") None "ses_1")
  = "fix-login-bug".
Proof. reflexivity. Qed.

Example slug_special_chars :
  HooksSlug.sessionSlug
    (Slug.mkSlugSource (Some "Fix: <auth> [bug] in #login") None "ses_1")
  = "fix-auth-bug-login".
Proof. reflexivity. Qed.

(** ** Facts about the string primitives *)

Module JsTextFacts.
Import JsText.

Lemma isDash_eq c : isDash c = true -> c = dash.
Proof.
  unfold isDash, isChar, code, dash. intro H.
  apply N.eqb_eq in H. rewrite <- H. symmetry. apply ascii_N_embedding.
Qed.

Lemma isDash_dash : isDash dash = true.
Proof. reflexivity. Qed.

Lemma eqb_dash_isDash x : Ascii.eqb x dash = isDash x.
Proof.
  destruct (Ascii.eqb x dash) eqn:E.
  - apply Ascii.eqb_eq in E. subst x. reflexivity.
  - destruct (isDash x) eqn:D; [|reflexivity].
    apply isDash_eq in D. subst x. rewrite Ascii.eqb_refl in E. discriminate.
Qed.

Lemma toString_length l : String.length (toString l) = List.length l.
Proof. induction l as [|c l IH]; simpl; [reflexivity | now rewrite IH]. Qed.

Lemma ofString_toString l : ofString (toString l) = l.
Proof. apply list_ascii_of_string_of_list_ascii. Qed.

Lemma ofString_length s : List.length (ofString s) = String.length s.
Proof. induction s as [|c s IH]; simpl; [reflexivity | now rewrite IH]. Qed.

(** *** [lastIndexOf] *)

Lemma lastIndexOf_lower c s : (-1 <= lastIndexOf c s)%Z.
Proof.
  induction s as [|x s IH]; simpl; [lia|].
  destruct (0 <=? lastIndexOf c s)%Z eqn:E.
  - apply Z.leb_le in E. lia.
  - destruct (Ascii.eqb x c); lia.
Qed.

Lemma lastIndexOf_absent c s :
  (lastIndexOf c s < 0)%Z -> Forall (fun x => Ascii.eqb x c = false) s.
Proof.
  induction s as [|x s IH]; simpl; intro H; [constructor|].
  destruct (0 <=? lastIndexOf c s)%Z eqn:E.
  - apply Z.leb_le in E. lia.
  - apply Z.leb_gt in E. destruct (Ascii.eqb x c) eqn:X; [lia|].
    constructor; [exact X | apply IH; exact E].
Qed.

Lemma lastIndexOf_found c s k :
  lastIndexOf c s = Z.of_nat k ->
  exists a b, s = a ++ c :: b /\ List.length a = k
              /\ Forall (fun x => Ascii.eqb x c = false) b.
Proof.
  revert k. induction s as [|x s IH]; simpl; intros k H; [lia|].
  destruct (0 <=? lastIndexOf c s)%Z eqn:E.
  - apply Z.leb_le in E.
    destruct k as [|k]; [lia|].
    destruct (IH k) as (a & b & -> & Hl & Hb); [lia|].
    exists (x :: a), b. simpl. repeat split; [now rewrite Hl | exact Hb].
  - apply Z.leb_gt in E. destruct (Ascii.eqb x c) eqn:X; [|lia].
    apply Ascii.eqb_eq in X. subst x.
    destruct k; [|lia].
    exists [], s. repeat split. apply lastIndexOf_absent. exact E.
Qed.

(** *** [splitOn] and [join] *)

Lemma splitOn_nonempty sep s : splitOn sep s <> [].
Proof.
  destruct s as [|c s]; simpl; [discriminate|].
  destruct (splitOn sep s); [discriminate|].
  destruct (sep c); discriminate.
Qed.

Lemma splitOn_free sep w :
  Forall (fun c => sep c = false) w -> splitOn sep w = [w].
Proof.
  induction 1 as [|c w Hc _ IH]; simpl; [reflexivity|].
  rewrite IH, Hc. reflexivity.
Qed.

Lemma splitOn_app sep a d b :
  sep d = true -> splitOn sep (a ++ d :: b) = splitOn sep a ++ splitOn sep b.
Proof.
  intro Hd. induction a as [|x a IH]; simpl.
  - rewrite Hd. destruct (splitOn sep b) eqn:E; [|reflexivity].
    now apply splitOn_nonempty in E.
  - rewrite IH. destruct (splitOn sep a) as [|h t] eqn:E.
    + now apply splitOn_nonempty in E.
    + simpl. destruct (sep x); reflexivity.
Qed.

Lemma splitOn_join ws :
  ws <> [] ->
  Forall (Forall (fun c => isDash c = false)) ws ->
  splitOn isDash (join [dash] ws) = ws.
Proof.
  induction ws as [|w ws IH]; intros Hne Hws; [congruence|].
  inversion Hws as [|? ? Hw Hrest]; subst.
  destruct ws as [|w' ws].
  - simpl. now apply splitOn_free.
  - change (join [dash] (w :: w' :: ws))
      with (w ++ dash :: join [dash] (w' :: ws)).
    rewrite splitOn_app by apply isDash_dash.
    rewrite splitOn_free by exact Hw.
    rewrite IH; [reflexivity | discriminate | exact Hrest].
Qed.

Lemma in_join c sep ws :
  In c (join sep ws) -> In c sep \/ exists w, In w ws /\ In c w.
Proof.
  induction ws as [|w ws IH]; simpl; [tauto|].
  destruct ws as [|w' ws].
  - intro H. right. exists w. auto.
  - rewrite !in_app_iff. intros [H|[H|H]].
    + right. exists w. auto.
    + now left.
    + destruct (IH H) as [?|(v & Hv & Hc)]; [now left|].
      right. exists v. split; [now right | exact Hc].
Qed.

(** A string whose dash-separated pieces are the non-empty, dash-free
    words [ws] is left alone by the two clean-up replacements. *)

Lemma collapseDashes_word w x :
  Forall (fun c => isDash c = false) w ->
  collapseDashes (w ++ x) = w ++ collapseDashes x.
Proof.
  induction 1 as [|c w Hc _ IH]; simpl; [reflexivity|].
  rewrite Hc, IH. reflexivity.
Qed.

Lemma collapseDashes_join ws :
  Forall (fun w => w <> [] /\ Forall (fun c => isDash c = false) w) ws ->
  collapseDashes (join [dash] ws) = join [dash] ws.
Proof.
  induction ws as [|w ws IH]; intro H; [reflexivity|].
  inversion H as [|? ? [Hne Hw] Hrest]; subst.
  destruct ws as [|w' ws].
  - simpl. rewrite <- (app_nil_r w) at 1.
    rewrite collapseDashes_word by exact Hw. simpl. apply app_nil_r.
  - change (join [dash] (w :: w' :: ws))
      with (w ++ dash :: join [dash] (w' :: ws)).
    rewrite collapseDashes_word by exact Hw. f_equal.
    specialize (IH Hrest).
    inversion Hrest as [|? ? [Hne' Hw'] _]; subst.
    destruct w' as [|c w']; [congruence|].
    inversion Hw' as [|? ? Hc _]; subst.
    assert (E : exists y, join [dash] ((c :: w') :: ws) = c :: y).
    { destruct ws; simpl; eauto. }
    destruct E as [y E]. rewrite E in *.
    simpl. rewrite Hc. simpl in IH. rewrite Hc in IH.
    rewrite IH. reflexivity.
Qed.

Lemma dropTrailingDash_snoc a c :
  isDash c = false -> dropTrailingDash (a ++ [c]) = a ++ [c].
Proof.
  intro Hc. induction a as [|x a IH]; simpl; [now rewrite Hc|].
  rewrite IH. destruct (a ++ [c]) eqn:E; [|reflexivity].
  now destruct a.
Qed.

Lemma join_last ws :
  Forall (fun w => w <> [] /\ Forall (fun c => isDash c = false) w) ws ->
  ws <> [] ->
  exists a c, join [dash] ws = a ++ [c] /\ isDash c = false.
Proof.
  induction ws as [|w ws IH]; intros H Hne; [congruence|].
  inversion H as [|? ? [Hw1 Hw2] Hrest]; subst.
  destruct ws as [|w' ws].
  - simpl. destruct (exists_last Hw1) as (a & c & ->).
    exists a, c. split; [reflexivity|].
    apply Forall_app in Hw2. destruct Hw2 as [_ Hc]. now inversion Hc.
  - destruct (IH Hrest) as (a & c & E & Hc); [discriminate|].
    exists (w ++ dash :: a), c. split; [|exact Hc].
    change (join [dash] (w :: w' :: ws))
      with (w ++ dash :: join [dash] (w' :: ws)).
    rewrite E. now rewrite <- app_assoc.
Qed.

Lemma trimDashes_join ws :
  Forall (fun w => w <> [] /\ Forall (fun c => isDash c = false) w) ws ->
  trimDashes (join [dash] ws) = join [dash] ws.
Proof.
  intro H. unfold trimDashes.
  destruct ws as [|w ws]; [reflexivity|].
  assert (L : dropLeadingDash (join [dash] (w :: ws)) = join [dash] (w :: ws)).
  { inversion H as [|? ? [Hne Hw] _]; subst.
    destruct w as [|c w]; [congruence|].
    inversion Hw as [|? ? Hc _]; subst.
    destruct ws; simpl; now rewrite Hc. }
  rewrite L.
  destruct (join_last _ H) as (a & c & -> & Hc); [discriminate|].
  now apply dropTrailingDash_snoc.
Qed.

(** *** [splitRuns] *)

Lemma splitRuns_nonempty sep s : splitRuns sep s <> [].
Proof.
  destruct s as [|c s]; simpl; [discriminate|].
  destruct (splitRuns sep s); [discriminate|].
  destruct (sep c); [|discriminate].
  destruct s as [|d s]; [discriminate|].
  destruct (sep d); discriminate.
Qed.

Lemma splitRuns_pieces sep s :
  Forall (Forall (fun c => sep c = false /\ In c s)) (splitRuns sep s).
Proof.
  induction s as [|c s IH]; [repeat constructor|].
  assert (IH' : Forall (Forall (fun x => sep x = false /\ In x (c :: s)))
                  (splitRuns sep s)).
  { eapply Forall_impl; [|exact IH]. intros w Hw.
    eapply Forall_impl; [|exact Hw]. intros x [? ?].
    split; [assumption | now right]. }
  clear IH. simpl.
  destruct (splitRuns sep s) as [|h t] eqn:E.
  - now apply splitRuns_nonempty in E.
  - inversion IH' as [|? ? Hh Ht]; subst.
    destruct (sep c) eqn:Hc.
    + destruct s as [|d s]; [repeat constructor; assumption|].
      destruct (sep d); repeat constructor; assumption.
    + constructor; [|exact Ht].
      constructor; [|exact Hh]. split; [exact Hc | now left].
Qed.

End JsTextFacts.

(** ** Facts about slugs *)

Module SlugFacts.
Import JsText JsTextFacts Slug.

Lemma isSeparator_not_dash c : isSeparator c = false -> isDash c = false.
Proof.
  unfold isSeparator. intro H.
  apply orb_false_iff in H. tauto.
Qed.

Lemma toLowerChar_not_upper c : isUpper (toLowerChar c) = false.
Proof. destruct c as [[] [] [] [] [] [] [] []]; reflexivity. Qed.

Lemma slugWords_good stop raw : Forall (GoodWord stop) (slugWords stop raw).
Proof.
  apply Forall_forall. intros w Hw.
  unfold slugWords in Hw. apply filter_In in Hw. destruct Hw as [Hin Hk].
  unfold keepWord in Hk. apply andb_true_iff in Hk. destruct Hk as [Hlen Hstop].
  apply Nat.ltb_lt in Hlen. apply negb_true_iff in Hstop.
  repeat split.
  - intros ->. simpl in Hlen. lia.
  - exact Hstop.
  - pose proof (splitRuns_pieces isSeparator (removeUnsafe (toLowerCase raw))) as P.
    rewrite Forall_forall in P. specialize (P w Hin).
    eapply Forall_impl; [|exact P]. intros c [Hs Hc].
    unfold removeUnsafe in Hc. apply filter_In in Hc. destruct Hc as [Hc Hu].
    apply negb_true_iff in Hu.
    unfold toLowerCase in Hc. apply in_map_iff in Hc. destruct Hc as (c' & <- & _).
    repeat split; [exact Hs | exact Hu | apply toLowerChar_not_upper].
Qed.

Lemma good_dashfree stop ws :
  Forall (GoodWord stop) ws ->
  Forall (fun w => w <> [] /\ Forall (fun c => isDash c = false) w) ws.
Proof.
  intro H. eapply Forall_impl; [|exact H].
  intros w (Hne & _ & Hc). split; [exact Hne|].
  eapply Forall_impl; [|exact Hc]. intros c (Hs & _). now apply isSeparator_not_dash.
Qed.

Lemma joinWords_good stop ws :
  Forall (GoodWord stop) ws -> joinWords ws = join [dash] ws.
Proof.
  intro H. apply good_dashfree in H. unfold joinWords.
  rewrite collapseDashes_join by exact H. now apply trimDashes_join.
Qed.

Lemma inStopWords_length stop n w :
  forallb (fun s => String.length s <=? n) stop = true ->
  inStopWords stop w = true -> List.length w <= n.
Proof.
  intros Hb Hin. unfold inStopWords in Hin.
  apply existsb_exists in Hin. destruct Hin as (s & Hs & E).
  apply String.eqb_eq in E.
  rewrite forallb_forall in Hb. specialize (Hb s Hs).
  apply Nat.leb_le in Hb. rewrite <- E, toString_length in Hb. exact Hb.
Qed.

Lemma long_not_stop stop n w :
  forallb (fun s => String.length s <=? n) stop = true ->
  n < List.length w -> inStopWords stop w = false.
Proof.
  intros Hb Hl. destruct (inStopWords stop w) eqn:E; [|reflexivity].
  pose proof (inStopWords_length _ _ _ Hb E). lia.
Qed.

Lemma capSlug_length j : List.length (capSlug j) <= 40.
Proof.
  unfold capSlug, sliceTo.
  destruct (List.length j <=? 40) eqn:E.
  - now apply Nat.leb_le in E.
  - destruct (10 <? lastIndexOf dash (firstn 40 j))%Z.
    + rewrite !length_firstn. lia.
    + rewrite length_firstn. lia.
Qed.

Lemma capSlug_prefix j : exists rest, j = capSlug j ++ rest.
Proof.
  unfold capSlug, sliceTo.
  destruct (List.length j <=? 40).
  - exists []. now rewrite app_nil_r.
  - destruct (10 <? lastIndexOf dash (firstn 40 j))%Z.
    + exists (skipn (Z.to_nat (lastIndexOf dash (firstn 40 j))) (firstn 40 j)
                ++ skipn 40 j).
      rewrite app_assoc, !firstn_skipn. reflexivity.
    + exists (skipn 40 j). now rewrite firstn_skipn.
Qed.

Lemma capSlug_short j : List.length j <= 40 -> capSlug j = j.
Proof.
  intro H. unfold capSlug. apply Nat.leb_le in H. now rewrite H.
Qed.

Lemma absent_dashfree b :
  Forall (fun x => Ascii.eqb x dash = false) b ->
  Forall (fun c => isDash c = false) b.
Proof.
  intro H. eapply Forall_impl; [|exact H].
  intros c Hc. now rewrite <- eqb_dash_isDash.
Qed.

(** The pieces of a capped slug are kept words, or one long tail that no
    stop word can equal. *)
Lemma capSlug_pieces stop ws :
  forallb (fun s => String.length s <=? 28) stop = true ->
  Forall (GoodWord stop) ws ->
  let r := capSlug (join [dash] ws) in
  r = [] \/ Forall (fun w => w <> [] /\ inStopWords stop w = false)
                   (splitOn isDash r).
Proof.
  intros Hb Hg r.
  assert (Hok : Forall (fun w => w <> [] /\ inStopWords stop w = false) ws).
  { eapply Forall_impl; [|exact Hg]. intros w (? & ? & _). now split. }
  assert (Hdf : Forall (Forall (fun c => isDash c = false)) ws).
  { apply good_dashfree in Hg. eapply Forall_impl; [|exact Hg]. now intros w [_ ?]. }
  destruct ws as [|w0 ws0]; [now left|].
  set (ws := w0 :: ws0) in *.
  assert (Hsplit : splitOn isDash (join [dash] ws) = ws).
  { apply splitOn_join; [discriminate | exact Hdf]. }
  subst r. unfold capSlug, sliceTo.
  destruct (List.length (join [dash] ws) <=? 40) eqn:E.
  - right. now rewrite Hsplit.
  - apply Nat.leb_gt in E.
    set (J := join [dash] ws) in *.
    set (T := firstn 40 J).
    assert (HT : List.length T = 40).
    { unfold T. rewrite length_firstn. lia. }
    assert (HJ : J = T ++ skipn 40 J) by (unfold T; now rewrite firstn_skipn).
    pose proof (lastIndexOf_lower dash T) as Hlow.
    destruct (Z.ltb_spec 10 (lastIndexOf dash T)) as [Hk|Hk].
    + (* cut at the last dash *)
      destruct (lastIndexOf_found dash T (Z.to_nat (lastIndexOf dash T)))
        as (a & b & HTab & Hla & Hb'); [lia|].
      right. rewrite <- Hla. rewrite HTab.
      rewrite firstn_app, Nat.sub_diag, firstn_all. simpl. rewrite app_nil_r.
      rewrite HJ, HTab, <- app_assoc in Hsplit. simpl in Hsplit.
      rewrite splitOn_app in Hsplit by apply isDash_dash.
      rewrite <- Hsplit in Hok. apply Forall_app in Hok. tauto.
    + right.
      destruct (Z.ltb_spec (lastIndexOf dash T) 0) as [Hneg|Hpos].
      * (* no dash at all among the first forty characters *)
        apply lastIndexOf_absent, absent_dashfree in Hneg.
        rewrite (splitOn_free _ _ Hneg). constructor; [|constructor].
        split.
        -- intro H0. rewrite H0 in HT. discriminate.
        -- apply (long_not_stop stop 28); [exact Hb | lia].
      * destruct (lastIndexOf_found dash T (Z.to_nat (lastIndexOf dash T)))
          as (a & b & HTab & Hla & Hb'); [lia|].
        apply absent_dashfree in Hb'.
        assert (Hlb : 28 < List.length b).
        { rewrite HTab in HT. rewrite length_app in HT. simpl in HT. lia. }
        rewrite HTab. rewrite splitOn_app by apply isDash_dash.
        rewrite (splitOn_free _ _ Hb').
        apply Forall_app. split.
        -- rewrite HJ, HTab, <- app_assoc in Hsplit. simpl in Hsplit.
           rewrite splitOn_app in Hsplit by apply isDash_dash.
           rewrite <- Hsplit in Hok. apply Forall_app in Hok. tauto.
        -- constructor; [|constructor]. split.
           ++ intros ->. simpl in Hlb. lia.
           ++ now apply (long_not_stop stop 28).
Qed.

Lemma capSlug_chars (P : ascii -> Prop) j :
  Forall P j -> Forall P (capSlug j).
Proof.
  intro H. destruct (capSlug_prefix j) as [rest E].
  rewrite E in H. apply Forall_app in H. tauto.
Qed.

Lemma join_chars stop ws :
  Forall (GoodWord stop) ws ->
  Forall (fun c => isUpper c = false /\ isUnsafe c = false) (join [dash] ws).
Proof.
  intro H. apply Forall_forall. intros c Hc.
  apply in_join in Hc. destruct Hc as [[<-|[]]|(w & Hw & Hc)].
  - split; reflexivity.
  - rewrite Forall_forall in H. destruct (H w Hw) as (_ & _ & Hg).
    rewrite Forall_forall in Hg. destruct (Hg c Hc) as (_ & ? & ?). now split.
Qed.

Lemma truthy_some t : t <> "" -> truthy (Some t) = Some t.
Proof.
  intro H. simpl. destruct (String.eqb_spec t ""); [contradiction | reflexivity].
Qed.

(** Every slug function that is [slugify] over a stop-word set of short
    words meets [SlugSpec]. *)
Lemma slugify_spec stop :
  forallb (fun s => String.length s <=? 28) stop = true ->
  SlugSpec stop (fun session => toString (slugify stop (ofString (rawName session)))).
Proof.
  intros Hb session ws r.
  pose proof (slugWords_good stop (ofString (rawName session))) as Hg.
  fold ws in Hg.
  assert (Hr : r = capSlug (join [dash] ws)).
  { subst r. rewrite ofString_toString. unfold slugify. fold ws.
    now rewrite (joinWords_good stop). }
  split; [|split; [|split; [|split; [|split; [|split; [|split; [|split]]]]]]].
  - intros t Ht Hne. unfold rawName. rewrite Ht, truthy_some by exact Hne. reflexivity.
  - intros Hn s Hs Hne. unfold rawName. rewrite Hn, Hs, truthy_some by exact Hne.
    reflexivity.
  - intros Hn Hn'. unfold rawName. now rewrite Hn, Hn'.
  - eapply Forall_impl; [|exact Hg]. intros w (? & ? & _). now split.
  - rewrite Hr. apply capSlug_prefix.
  - intro Hl. rewrite Hr. now apply capSlug_short.
  - rewrite toString_length. unfold slugify. apply capSlug_length.
  - rewrite Hr. apply capSlug_chars. now apply (join_chars stop).
  - rewrite Hr. now apply capSlug_pieces.
Qed.

End SlugFacts.


(** ** Facts about the splitter *)

Module SplitterFacts.
Import JsText Splitter.

Lemma splitSections_concat s : List.concat (splitSections s) = s.
Proof.
  induction s as [|c s IH]; [reflexivity|].
  simpl. destruct (splitSections s) as [|h t].
  - simpl in IH. subst s. reflexivity.
  - destruct (isLineTerminator c && isMessageHeader s); simpl in *; now rewrite IH.
Qed.

Lemma splitSections_nonempty s : splitSections s <> [].
Proof.
  destruct s as [|c s]; simpl; [discriminate|].
  destruct (splitSections s); [discriminate|].
  destruct (isLineTerminator c && isMessageHeader s); discriminate.
Qed.

Lemma header_and_messages s :
  hd [] (splitSections s) ++ List.concat (tl (splitSections s)) = s.
Proof.
  pose proof (splitSections_concat s) as H.
  destruct (splitSections s) eqn:E; [now apply splitSections_nonempty in E|].
  exact H.
Qed.

Lemma ceilDiv_bounds n m :
  0 < m -> 0 < n -> (ceilDiv n m - 1) * m < n <= ceilDiv n m * m.
Proof.
  intros Hm Hn. unfold ceilDiv.
  pose proof (Nat.div_mod_eq (n + m - 1) m) as E.
  pose proof (Nat.mod_upper_bound (n + m - 1) m ltac:(lia)) as B.
  set (q := (n + m - 1) / m) in *. set (r := (n + m - 1) mod m) in *.
  nia.
Qed.

Lemma firstn_add {A} a b (l : list A) :
  firstn (a + b) l = firstn a l ++ firstn b (skipn a l).
Proof.
  revert l. induction a as [|a IH]; intro l; [reflexivity|].
  destruct l as [|x l]; simpl.
  - now rewrite firstn_nil.
  - now rewrite IH.
Qed.

Lemma sliceList_chunk {A} s m (l : list A) :
  sliceList s (Nat.min (s + m) (List.length l)) l = firstn m (skipn s l).
Proof.
  unfold sliceList.
  destruct (Nat.le_ge_cases (s + m) (List.length l)) as [H|H].
  - rewrite Nat.min_l by exact H. f_equal. lia.
  - rewrite Nat.min_r by exact H.
    rewrite !firstn_all2; [reflexivity | |]; rewrite length_skipn; lia.
Qed.

Lemma chunks_concat {A} m k (l : list A) :
  List.concat (map (fun i => firstn m (skipn (i * m) l)) (seq 0 k)) = firstn (k * m) l.
Proof.
  induction k as [|k IH]; [reflexivity|].
  rewrite seq_S, map_app, concat_app, IH. simpl.
  rewrite app_nil_r. rewrite (Nat.add_comm m (k * m)). symmetry. apply firstn_add.
Qed.

Lemma concat_concat_map {A B} (f : B -> list (list A)) (l : list B) :
  List.concat (map (fun i => List.concat (f i)) l) = List.concat (List.concat (map f l)).
Proof.
  induction l as [|x l IH]; [reflexivity|].
  simpl. now rewrite concat_app, IH.
Qed.

(** The part bodies, in order, spell the header section followed by all the
    message sections. *)
Lemma partBodies_concat header msgs m :
  0 < m -> 0 < List.length msgs ->
  List.concat (map (partBody header msgs m) (seq 0 (ceilDiv (List.length msgs) m)))
  = header ++ List.concat msgs.
Proof.
  intros Hm Hn.
  pose proof (ceilDiv_bounds _ _ Hm Hn) as [_ Hup].
  set (k := ceilDiv (List.length msgs) m) in *.
  assert (E : map (partBody header msgs m) (seq 0 k)
              = map (fun i => (if i =? 0 then header else [])
                                ++ List.concat (firstn m (skipn (i * m) msgs)))
                    (seq 0 k)).
  { apply map_ext. intro i. unfold partBody. rewrite sliceList_chunk.
    now destruct (i =? 0). }
  rewrite E. clear E.
  assert (Hk : 0 < k) by (destruct k; simpl in *; lia).
  destruct k as [|k]; [lia|].
  change (seq 0 (S k)) with (0 :: seq 1 k).
  rewrite map_cons. simpl List.concat at 1.
  change (if 0 =? 0 then header else []) with header.
  rewrite <- app_assoc. f_equal.
  assert (E2 : map (fun i => (if i =? 0 then header else [])
                               ++ List.concat (firstn m (skipn (i * m) msgs))) (seq 1 k)
               = map (fun i => List.concat (firstn m (skipn (i * m) msgs))) (seq 1 k)).
  { apply map_ext_in. intros i Hi. apply in_seq in Hi.
    destruct i; [lia | reflexivity]. }
  rewrite E2.
  assert (G : List.concat
                (map (fun i => List.concat (firstn m (skipn (i * m) msgs)))
                     (seq 0 (S k)))
              = List.concat msgs).
  { rewrite (concat_concat_map (fun i => firstn m (skipn (i * m) msgs))).
    rewrite chunks_concat. now rewrite firstn_all2 by exact Hup. }
  exact G.
Qed.

Example sampleDocument_split :
  splitIfNeeded Samples.sampleDocument 1 =
  [ mkSplitResult "---
title: demo
part: 1
total_parts: 2
---
# Session
### User (10:00)
hello
" 1 2;
    mkSplitResult "---
title: demo
part: 2
total_parts: 2
---
### Assistant (10:01)
hi
" 2 2 ].
Proof. reflexivity. Qed.

End SplitterFacts.

(** ** Facts about the durable queue *)

Module QueueFacts.
Import Queue.

Lemma insert_perm x l : Permutation (x :: l) (insertByCreatedAt x l).
Proof.
  induction l as [|y l IH]; simpl; [apply Permutation_refl|].
  destruct (createdAt x <=? createdAt y)%Z; [apply Permutation_refl|].
  eapply perm_trans; [apply perm_swap|]. now apply perm_skip.
Qed.

Lemma sort_perm l : Permutation l (sortByCreatedAt l).
Proof.
  induction l as [|x l IH]; simpl; [constructor|].
  eapply perm_trans; [apply perm_skip, IH | apply insert_perm].
Qed.

Lemma insert_sorted x l :
  StronglySorted olderOrSame l -> StronglySorted olderOrSame (insertByCreatedAt x l).
Proof.
  induction 1 as [|y l Hs IH Hy]; simpl.
  - repeat constructor.
  - destruct (Z.leb_spec (createdAt x) (createdAt y)) as [Hle|Hgt].
    + constructor; [now constructor|].
      constructor; [exact Hle|].
      eapply Forall_impl; [|exact Hy]. unfold olderOrSame. intros; lia.
    + constructor; [exact IH|].
      eapply Permutation_Forall; [apply insert_perm|].
      constructor; [unfold olderOrSame; lia | exact Hy].
Qed.

Lemma sort_sorted l : StronglySorted olderOrSame (sortByCreatedAt l).
Proof.
  induction l as [|x l IH]; simpl; [constructor | now apply insert_sorted].
Qed.

(** Insertion puts an item in front of the items of its own timestamp. *)
Lemma insert_stable t x l :
  filter (at_ t) (insertByCreatedAt x l) = filter (at_ t) (x :: l).
Proof.
  induction l as [|y l IH]; [reflexivity|].
  simpl insertByCreatedAt.
  destruct (Z.leb_spec (createdAt x) (createdAt y)) as [Hle|Hgt]; [reflexivity|].
  simpl. simpl in IH. rewrite IH. unfold at_.
  destruct (Z.eqb_spec (createdAt x) t), (Z.eqb_spec (createdAt y) t);
    try reflexivity; lia.
Qed.

Lemma sort_stable t l :
  filter (at_ t) (sortByCreatedAt l) = filter (at_ t) l.
Proof.
  induction l as [|x l IH]; [reflexivity|].
  simpl sortByCreatedAt. rewrite insert_stable. simpl. now rewrite IH.
Qed.

Lemma sorted_nth (R : QueueItem -> QueueItem -> Prop) l :
  StronglySorted R l ->
  forall i j a b, i < j -> nth_error l i = Some a -> nth_error l j = Some b -> R a b.
Proof.
  induction 1 as [|x l Hs IH Hx]; intros i j a b Hij Ha Hb.
  - destruct i; discriminate.
  - destruct j as [|j]; [lia|]. simpl in Hb.
    destruct i as [|i]; simpl in Ha.
    + injection Ha as <-. rewrite Forall_forall in Hx.
      apply Hx. eapply nth_error_In; eassumption.
    + apply (IH i j); [lia | assumption | assumption].
Qed.


End QueueFacts.

(** C5, as stated, fails: two files written in the same millisecond and
    listed by the directory in the order [b.json], [a.json] come back in
    that order, although ["a"] sorts before ["b"]. *)
Lemma C5_ties_not_ordered_by_id :
  Queue.readQueue Samples.dirBA = [Samples.itemB; Samples.itemA]
  /\ ~ Queue.listPendingOrdered (Queue.readQueue Samples.dirBA).
Proof.
  split; [reflexivity|].
  intro H.
  specialize (H 0 1 Samples.itemB Samples.itemA ltac:(lia) eq_refl eq_refl).
  destruct H as [H|[_ H]]; [vm_compute in H; discriminate H | discriminate H].
Qed.

(** C5, amended. [readQueue] returns exactly the items of the [.json] files
    that read and parse, sorted ascending by [createdAt] alone: at positions
    [i < j] the first item is not younger than the second, and items with
    equal [createdAt] keep the order of the directory listing (the identifier
    plays no part). *)
Theorem C5_readQueue_sorted_by_createdAt :
  forall dir : Queue.QueueDir,
    let pending := Queue.parsedItems (filter Queue.isJsonFile dir) in
    Permutation pending (Queue.readQueue dir)
    /\ (forall i j a b,
          i < j ->
          nth_error (Queue.readQueue dir) i = Some a ->
          nth_error (Queue.readQueue dir) j = Some b ->
          (Queue.createdAt a <= Queue.createdAt b)%Z)
    /\ (forall t : Z,
          filter (fun x => (Queue.createdAt x =? t)%Z) (Queue.readQueue dir)
          = filter (fun x => (Queue.createdAt x =? t)%Z) pending).
Proof.
  intros dir pending. unfold Queue.readQueue. fold pending.
  split; [apply QueueFacts.sort_perm|].
  split.
  - apply (QueueFacts.sorted_nth Queue.olderOrSame).
    apply QueueFacts.sort_sorted.
  - intro t. apply (QueueFacts.sort_stable t).
Qed.

Lemma C5_readQueue_sorted_by_createdAt_witness :
  0 < 1
  /\ (Queue.createdAt Samples.itemOld <= Queue.createdAt Samples.itemA)%Z.
Proof.
  split; [lia|].
  exact (proj1 (proj2 (C5_readQueue_sorted_by_createdAt Samples.dirMixed))
           0 1 Samples.itemOld Samples.itemA ltac:(lia) eq_refl eq_refl).
Defined.

Example readQueue_dirMixed :
  Queue.readQueue Samples.dirMixed
  = [Samples.itemOld; Samples.itemA; Samples.itemB; Samples.itemC].
Proof. reflexivity. Qed.

(** ** Facts about the processor *)

Module ProcessorFacts.
Import Engine Obsidian ProcessorSpec.

Lemma ofString_append a b :
  JsText.ofString (a ++ b)%string = JsText.ofString a ++ JsText.ofString b.
Proof. induction a as [|c a IH]; simpl; [reflexivity | now rewrite IH]. Qed.

Lemma fileName_inj a b : Queue.fileName a = Queue.fileName b -> a = b.
Proof.
  unfold Queue.fileName. intro H.
  apply (f_equal JsText.ofString) in H. rewrite !ofString_append in H.
  apply app_inv_tail in H.
  rewrite <- (string_of_list_ascii_of_string a), <- (string_of_list_ascii_of_string b).
  unfold JsText.ofString in H. now rewrite H.
Qed.

Lemma lookup_writeFile_same n item dir :
  Queue.lookupFile n (Queue.writeFile n item dir) = Some (Queue.mkQFile n (Some item)).
Proof.
  unfold Queue.lookupFile.
  induction dir as [|f dir IH]; simpl.
  - now rewrite String.eqb_refl.
  - destruct (String.eqb (Queue.name f) n) eqn:E; simpl.
    + now rewrite String.eqb_refl.
    + now rewrite E.
Qed.


Lemma lookup_unlink_same n dir :
  Queue.lookupFile n (Queue.unlink n dir) = None.
Proof.
  unfold Queue.lookupFile, Queue.unlink.
  induction dir as [|f dir IH]; simpl; [reflexivity|].
  destruct (String.eqb (Queue.name f) n) eqn:E; simpl; [exact IH|].
  now rewrite E.
Qed.


Lemma lookup_present f dir :
  NoDup (map Queue.name dir) -> In f dir ->
  Queue.lookupFile (Queue.name f) dir = Some f.
Proof.
  unfold Queue.lookupFile.
  induction dir as [|g dir IH]; intros Hnd Hin; [contradiction|].
  simpl in Hnd. inversion Hnd as [|? ? Hg Hrest]; subst.
  simpl. destruct Hin as [->|Hin].
  - now rewrite String.eqb_refl.
  - destruct (String.eqb_spec (Queue.name g) (Queue.name f)) as [E|E].
    + exfalso. apply Hg. rewrite E. now apply in_map.
    + now apply IH.
Qed.

Section WithRuntime.
Context {W : Type} {RT : Runtime W}.

Lemma processItem_spec item (s : Sys W) :
  processItem item s =
  (delivered (Queue.type item) (fst (fetch (world s) (requestOf item))),
   logEffect (EFetch (requestOf item) (fst (fetch (world s) (requestOf item))))
             (setWorld (snd (fetch (world s) (requestOf item))) s)).
Proof.
  unfold processItem, requestOf, delivered.
  destruct (Queue.type item);
    unfold obsidianPut, obsidianDelete, bind, doFetch, ret;
    destruct (fetch (world s) _) as [[status text|] w']; reflexivity.
Qed.

Lemma processItems_discard item rest (s : Sys W) :
  Queue.shouldDiscard item = true ->
  processItems (item :: rest) s
  = processItems rest (snd (dequeue (Queue.id item) s)).
Proof. intro H. simpl. now rewrite H. Qed.

Lemma processItems_delivered item rest (s : Sys W) :
  Queue.shouldDiscard item = false ->
  fst (processItem item s) = true ->
  processItems (item :: rest) s
  = processItems rest (snd (dequeue (Queue.id item) (snd (processItem item s)))).
Proof.
  intros H Hok. simpl. rewrite H. unfold bind at 1.
  destruct (processItem item s) as [ok s']. simpl in Hok. subst ok. reflexivity.
Qed.

Lemma processItems_failed item rest (s : Sys W) :
  Queue.shouldDiscard item = false ->
  fst (processItem item s) = false ->
  processItems (item :: rest) s
  = (tt, snd (updateRetries item (setAvailable false (snd (processItem item s))))).
Proof.
  intros H Hok. simpl. rewrite H. unfold bind at 1.
  destruct (processItem item s) as [ok s']. simpl in Hok. subst ok. reflexivity.
Qed.

(** While nothing fails the loop is sequential: running it on a list is
    running it on a prefix and then, from the state reached, on the rest. *)
Lemma processItems_app pre rest (s : Sys W) :
  deliversAll pre s = true ->
  processItems (pre ++ rest) s = processItems rest (snd (processItems pre s)).
Proof.
  revert s. induction pre as [|item pre IH]; intros s H; [reflexivity|].
  simpl app. simpl in H.
  destruct (Queue.shouldDiscard item) eqn:D.
  - rewrite !processItems_discard by exact D. now apply IH.
  - destruct (processItem item s) as [ok s'] eqn:E.
    apply andb_true_iff in H. destruct H as [-> H].
    rewrite !processItems_delivered by (try exact D; now rewrite E).
    rewrite E. now apply IH.
Qed.

Lemma failedSinkWrite_request item res :
  failedSinkWrite (EFetch (requestOf item) res)
  = negb (delivered (Queue.type item) res).
Proof.
  unfold requestOf, failedSinkWrite, delivered.
  destruct (Queue.type item), res; reflexivity.
Qed.





(** The loop and the flag: the trace only grows, a failed write or delete
    leaves the flag cleared, and the loop never sets the flag. *)
Lemma loop_flag items :
  forall s : Sys W,
    exists new,
      trace (snd (processItems items s)) = trace s ++ new
      /\ (existsb failedSinkWrite new = true ->
          available (snd (processItems items s)) = false)
      /\ (available (snd (processItems items s)) = true -> available s = true).
Proof.
  induction items as [|h rest IH]; intro s.
  - exists []. simpl. rewrite app_nil_r. repeat split; auto; discriminate.
  - destruct (Queue.shouldDiscard h) eqn:D.
    + rewrite processItems_discard by exact D.
      destruct (IH (snd (dequeue (Queue.id h) s))) as (new' & Htr & Hfail & Hav).
      exists (EUnlink (Queue.fileName (Queue.id h)) :: new').
      split; [|split].
      * rewrite Htr. simpl. now rewrite <- app_assoc.
      * exact Hfail.
      * exact Hav.
    + destruct (fst (processItem h s)) eqn:Hok.
      * rewrite processItems_delivered by assumption.
        rewrite processItem_spec in Hok. simpl in Hok.
        rewrite processItem_spec. cbn [snd].
        set (res := fst (fetch (world s) (requestOf h))) in *.
        match goal with
        | |- context [processItems rest ?st] =>
            destruct (IH st) as (new' & Htr & Hfail & Hav)
        end.
        exists (EFetch (requestOf h) res
                  :: EUnlink (Queue.fileName (Queue.id h)) :: new').
        split; [|split].
        -- rewrite Htr. simpl. now rewrite <- !app_assoc.
        -- intro H. apply Hfail.
           change (failedSinkWrite (EFetch (requestOf h) res)
                   || existsb failedSinkWrite new' = true) in H.
           rewrite failedSinkWrite_request, Hok in H. exact H.
        -- exact Hav.
      * rewrite processItems_failed by assumption.
        rewrite processItem_spec. cbn [snd].
        exists [EFetch (requestOf h) (fst (fetch (world s) (requestOf h)));
                EWriteFile (Queue.fileName (Queue.id h)) (Queue.bumped h)].
        split; [|split].
        -- simpl. now rewrite <- app_assoc.
        -- reflexivity.
        -- simpl. discriminate.
Qed.

Lemma newEffects_app (s final : Sys W) new :
  trace final = trace s ++ new -> newEffects s final = new.
Proof.
  intro H. unfold newEffects. rewrite H.
  now rewrite skipn_app, Nat.sub_diag, skipn_all.
Qed.

Lemma processQueue_available (s : Sys W) :
  available s = true ->
  processQueue s = processItems (Queue.readQueue (queueDir s)) s.
Proof.
  intro H. unfold processQueue, bind, gets, ret. rewrite H.
  now destruct (Queue.readQueue (queueDir s)).
Qed.

Lemma healthCheck_spec (s : Sys W) :
  healthCheck s = (available (probed s), probed s).
Proof.
  unfold healthCheck, probed, bind, doFetch, modify, gets.
  destruct (fetch (world s) HealthProbe) as [[status text|] w']; reflexivity.
Qed.

Lemma processQueue_unavailable (s : Sys W) :
  available s = false ->
  processQueue s =
  if available (probed s)
  then processItems (Queue.readQueue (queueDir s)) (probed s)
  else (tt, probed s).
Proof.
  intro H. unfold processQueue. unfold bind at 1. unfold gets at 1. rewrite H.
  unfold bind at 1. rewrite healthCheck_spec.
  destruct (available (probed s)); [|reflexivity].
  unfold bind, gets, ret.
  change (queueDir (probed s)) with (queueDir s).
  now destruct (Queue.readQueue (queueDir s)).
Qed.

End WithRuntime.

(** *** The pending list of a well-formed directory *)

Lemma parsedItems_in item files :
  In item (Queue.parsedItems files)
  <-> exists g, In g files /\ Queue.data g = Some item.
Proof.
  induction files as [|f files IH]; simpl.
  - split; [contradiction | now intros (g & [] & _)].
  - destruct (Queue.data f) as [x|] eqn:E; simpl; rewrite IH; split.
    + intros [<-|(g & Hg & Hd)]; [exists f; auto | exists g; auto].
    + intros (g & [<-|Hg] & Hd); [left; congruence | right; exists g; auto].
    + intros (g & Hg & Hd). exists g; auto.
    + intros (g & [<-|Hg] & Hd); [congruence | exists g; auto].
Qed.

Lemma readQueue_in item dir :
  In item (Queue.readQueue dir)
  <-> exists g, In g dir /\ Queue.isJsonFile g = true /\ Queue.data g = Some item.
Proof.
  unfold Queue.readQueue. split.
  - intro H. apply (Permutation_in _ (Permutation_sym (QueueFacts.sort_perm _))) in H.
    apply parsedItems_in in H. destruct H as (g & Hg & Hd).
    apply filter_In in Hg. exists g. tauto.
  - intros (g & Hg & Hj & Hd).
    apply (Permutation_in _ (QueueFacts.sort_perm _)).
    apply parsedItems_in. exists g. split; [|exact Hd].
    apply filter_In. now split.
Qed.

Lemma NoDup_names_filter (p : Queue.QFile -> bool) dir :
  NoDup (map Queue.name dir) -> NoDup (map Queue.name (filter p dir)).
Proof.
  induction dir as [|f dir IH]; simpl; intro H; [constructor|].
  inversion H as [|? ? Hf Hrest]; subst.
  destruct (p f); simpl; [|now apply IH].
  constructor; [|now apply IH].
  intro Hin. apply Hf. apply in_map_iff in Hin. destruct Hin as (g & E & Hg).
  apply filter_In in Hg. apply in_map_iff. exists g. tauto.
Qed.

Lemma parsedItems_NoDup files :
  NoDup (map Queue.name files) ->
  (forall g item, In g files -> Queue.data g = Some item ->
                  Queue.name g = Queue.fileName (Queue.id item)) ->
  NoDup (map Queue.id (Queue.parsedItems files)).
Proof.
  induction files as [|f files IH]; simpl; intros Hnd Hwf; [constructor|].
  inversion Hnd as [|? ? Hf Hrest]; subst.
  assert (IH' : NoDup (map Queue.id (Queue.parsedItems files))).
  { apply IH; [exact Hrest|]. intros g item Hg. apply Hwf. now right. }
  destruct (Queue.data f) as [x|] eqn:E; [|exact IH'].
  simpl. constructor; [|exact IH'].
  intro Hin. apply in_map_iff in Hin. destruct Hin as (y & Ey & Hy).
  apply parsedItems_in in Hy. destruct Hy as (g & Hg & Hd).
  apply Hf. apply in_map_iff. exists g. split; [|exact Hg].
  rewrite (Hwf g y (or_intror Hg) Hd), (Hwf f x (or_introl eq_refl) E).
  now rewrite Ey.
Qed.

Lemma readQueue_NoDup dir :
  Queue.wellFormed dir -> NoDup (map Queue.id (Queue.readQueue dir)).
Proof.
  intros [Hnd Hwf]. unfold Queue.readQueue.
  eapply Permutation_NoDup.
  - apply Permutation_map. apply QueueFacts.sort_perm.
  - apply parsedItems_NoDup; [now apply NoDup_names_filter|].
    intros g item Hg. apply filter_In in Hg. apply Hwf. tauto.
Qed.

Lemma same_name_same_file f g dir :
  NoDup (map Queue.name dir) -> In f dir -> In g dir ->
  Queue.name f = Queue.name g -> f = g.
Proof.
  intros Hnd Hf Hg E.
  pose proof (lookup_present f dir Hnd Hf) as Lf.
  pose proof (lookup_present g dir Hnd Hg) as Lg.
  rewrite E in Lf. congruence.
Qed.

End ProcessorFacts.

(** C1. One tick of the processor walks the pending list in order, and stops
    at the first item whose sink call fails: while items are discarded or
    delivered the loop on a list is the loop on a prefix followed by the loop
    on the rest; at the failing item the [available] flag is cleared, one
    request has been sent for it, its file is rewritten with the retry count
    one higher, and the tick ends there. The state reached, effects
    included, is the one reached without the later items: none of them gets
    a sink call or a change to its file. *)
Theorem C1_halt_on_first_failure :
  forall (W : Type) (RT : Engine.Runtime W)
         (pre : list Queue.QueueItem) (item : Queue.QueueItem)
         (post : list Queue.QueueItem) (s : Engine.Sys W),
    ProcessorSpec.deliversAll pre s = true ->
    Queue.shouldDiscard item = false ->
    fst (Obsidian.processItem item (snd (Obsidian.processItems pre s))) = false ->
    let s1 := snd (Obsidian.processItems pre s) in
    let final := snd (Obsidian.processItems (pre ++ item :: post) s) in
    (forall rest,
        Obsidian.processItems (pre ++ rest) s = Obsidian.processItems rest s1)
    /\ Engine.available final = false
    /\ Engine.queueDir final = Queue.updateRetries item (Engine.queueDir s1)
    /\ Queue.lookupFile (Queue.fileName (Queue.id item)) (Engine.queueDir final)
       = Some (Queue.mkQFile (Queue.fileName (Queue.id item))
                             (Some (Queue.bumped item)))
    /\ Queue.retries (Queue.bumped item) = (Queue.retries item + 1)%Z
    /\ (exists res,
          ProcessorSpec.delivered (Queue.type item) res = false
          /\ Engine.trace final
             = Engine.trace s1
                 ++ [Engine.EFetch (ProcessorSpec.requestOf item) res;
                     Engine.EWriteFile (Queue.fileName (Queue.id item))
                                       (Queue.bumped item)])
    /\ final = snd (Obsidian.processItems (pre ++ [item]) s).
Proof.
  intros W RT pre item post s Hpre Hd Hfail s1 final.
  assert (Happ : forall rest,
             Obsidian.processItems (pre ++ rest) s = Obsidian.processItems rest s1).
  { intro rest. now apply ProcessorFacts.processItems_app. }
  assert (Hfinal : final
                   = snd (Obsidian.updateRetries item
                            (Engine.setAvailable false
                               (snd (Obsidian.processItem item s1))))).
  { unfold final. rewrite Happ.
    now rewrite ProcessorFacts.processItems_failed. }
  split; [exact Happ|].
  split; [now rewrite Hfinal|].
  split.
  { rewrite Hfinal, ProcessorFacts.processItem_spec. reflexivity. }
  split.
  { rewrite Hfinal, ProcessorFacts.processItem_spec. simpl.
    apply ProcessorFacts.lookup_writeFile_same. }
  split; [reflexivity|].
  split.
  { exists (fst (Engine.fetch (Engine.world s1) (ProcessorSpec.requestOf item))).
    split.
    - rewrite ProcessorFacts.processItem_spec in Hfail. exact Hfail.
    - rewrite Hfinal, ProcessorFacts.processItem_spec. simpl.
      now rewrite <- app_assoc. }
  rewrite Hfinal, Happ. now rewrite ProcessorFacts.processItems_failed.
Qed.

Lemma C1_halt_on_first_failure_witness :
  ProcessorSpec.deliversAll (RT := Script.runtime)
    [Samples.itemOld; Samples.itemA] Samples.tickState = true
  /\ Engine.available
       (snd (Obsidian.processItems (RT := Script.runtime)
               ([Samples.itemOld; Samples.itemA] ++ Samples.itemB :: [Samples.itemC])
               Samples.tickState))
     = false.
Proof.
  split; [reflexivity|].
  exact (proj1 (proj2
    (C1_halt_on_first_failure Script.World Script.runtime
       [Samples.itemOld; Samples.itemA] Samples.itemB [Samples.itemC]
       Samples.tickState eq_refl eq_refl eq_refl))).
Defined.

Example tick_on_dirMixed :
  let final := snd (Obsidian.processQueue (RT := Script.runtime) Samples.tickState) in
  Engine.queueDir final
  = [Samples.fileOf Samples.itemC; Queue.mkQFile "partial.json" None;
     Queue.mkQFile "README" None;
     Queue.mkQFile "b.json" (Some (Queue.bumped Samples.itemB))]
  /\ Engine.trace final
     = [Engine.EUnlink "old.json";
        Engine.EFetch (Engine.VaultPut "notes/a.md" "A") Script.okResponse;
        Engine.EUnlink "a.json";
        Engine.EFetch (Engine.VaultDelete "notes/b.md") Script.errorResponse;
        Engine.EWriteFile "b.json" (Queue.bumped Samples.itemB)]
  /\ Engine.available final = false.
Proof. repeat split. Qed.



(** C7, as stated, fails for reads: with the flag set and the sink
    unreachable, [obsidianGet] gives [null] and leaves the flag set. *)
Lemma C7_failed_read_leaves_flag :
  fst (Obsidian.obsidianGet (RT := Script.runtime) "notes/x.md" Samples.armedState)
  = None
  /\ Engine.trace
       (snd (Obsidian.obsidianGet (RT := Script.runtime) "notes/x.md"
               Samples.armedState))
     = [Engine.EFetch (Engine.VaultGet "notes/x.md") Engine.FetchFailed]
  /\ Engine.available
       (snd (Obsidian.obsidianGet (RT := Script.runtime) "notes/x.md"
               Samples.armedState))
     = true
  /\ ~ ProcessorSpec.flagClearedByEveryFailedCall (RT := Script.runtime).
Proof.
  repeat split.
  intro H.
  specialize (H (ProcessorSpec.CallGet "notes/x.md") Samples.armedState eq_refl).
  discriminate H.
Qed.

(** C7, amended. A read, a write or a delete call never changes the
    [available] flag, in either direction. The flag goes from false to true
    only in a [healthCheck], called directly or by the processor when it
    finds the flag cleared, whose probe is answered with an ok status; that
    probe is the first request of the call. [healthCheck] sets the flag to
    the outcome of its probe, so a failed probe clears it; and a processor
    tick in which a write or delete request fails ends with the flag
    cleared. *)
Theorem C7_flag_rearmed_only_by_healthCheck :
  forall (W : Type) (RT : Engine.Runtime W)
         (call : ProcessorSpec.ClientCall) (s : Engine.Sys W),
    let s' := snd (ProcessorSpec.runCall call s) in
    let new := ProcessorSpec.newEffects s s' in
    match call with
    | ProcessorSpec.CallGet _
    | ProcessorSpec.CallPut _ _
    | ProcessorSpec.CallDelete _ => Engine.available s' = Engine.available s
    | ProcessorSpec.CallHealthCheck =>
        Engine.available s'
        = match fst (Engine.fetch (Engine.world s) Engine.HealthProbe) with
          | Engine.Response status _ => Engine.ok status
          | Engine.FetchFailed => false
          end
    | ProcessorSpec.CallProcessQueue =>
        existsb ProcessorSpec.failedSinkWrite new = true ->
        Engine.available s' = false
    end
    /\ (Engine.available s = false ->
        Engine.available s' = true ->
        (call = ProcessorSpec.CallHealthCheck
         \/ call = ProcessorSpec.CallProcessQueue)
        /\ exists status text,
             fst (Engine.fetch (Engine.world s) Engine.HealthProbe)
             = Engine.Response status text
             /\ Engine.ok status = true
             /\ hd_error new
                = Some (Engine.EFetch Engine.HealthProbe
                                      (Engine.Response status text))).
Proof.
  intros W RT call s s' new.
  assert (Hprobe : Engine.available (ProcessorSpec.probed s) = true ->
            exists status text,
              fst (Engine.fetch (Engine.world s) Engine.HealthProbe)
              = Engine.Response status text
              /\ Engine.ok status = true).
  { unfold ProcessorSpec.probed. simpl.
    destruct (fst (Engine.fetch (Engine.world s) Engine.HealthProbe))
      as [status text|]; [|discriminate].
    intro H. exists status, text. now split. }
  destruct call as [|path|path content|path|].
  - (* healthCheck *)
    assert (E : s' = ProcessorSpec.probed s).
    { unfold s'. simpl. unfold Engine.bind.
      now rewrite ProcessorFacts.healthCheck_spec. }
    split; [now rewrite E|].
    intros _ Hafter. split; [now left|].
    rewrite E in Hafter. destruct (Hprobe Hafter) as (status & text & Hres & Hok).
    exists status, text. split; [exact Hres|]. split; [exact Hok|].
    unfold new. rewrite (ProcessorFacts.newEffects_app s s'
      [Engine.EFetch Engine.HealthProbe
         (fst (Engine.fetch (Engine.world s) Engine.HealthProbe))]).
    + simpl. now rewrite Hres.
    + now rewrite E.
  - (* obsidianGet *)
    assert (E : Engine.available s' = Engine.available s).
    { unfold s'. simpl.
      unfold Engine.bind, Obsidian.obsidianGet, Engine.bind, Obsidian.doFetch.
      destruct (Engine.fetch (Engine.world s) (Engine.VaultGet path))
        as [[status text|] w']; [destruct (Engine.ok status)|]; reflexivity. }
    split; [exact E|]. intros H0 H1. congruence.
  - (* obsidianPut *)
    assert (E : Engine.available s' = Engine.available s).
    { unfold s'. simpl.
      unfold Engine.bind, Obsidian.obsidianPut, Engine.bind, Obsidian.doFetch.
      destruct (Engine.fetch (Engine.world s) (Engine.VaultPut path content))
        as [[status text|] w']; reflexivity. }
    split; [exact E|]. intros H0 H1. congruence.
  - (* obsidianDelete *)
    assert (E : Engine.available s' = Engine.available s).
    { unfold s'. simpl.
      unfold Engine.bind, Obsidian.obsidianDelete, Engine.bind, Obsidian.doFetch.
      destruct (Engine.fetch (Engine.world s) (Engine.VaultDelete path))
        as [[status text|] w']; reflexivity. }
    split; [exact E|]. intros H0 H1. congruence.
  - (* processQueue *)
    change (ProcessorSpec.runCall ProcessorSpec.CallProcessQueue s)
      with (Obsidian.processQueue s) in s'.
    destruct (Engine.available s) eqn:Ha.
    + split; [|discriminate].
      unfold new, s'. rewrite ProcessorFacts.processQueue_available by exact Ha.
      destruct (ProcessorFacts.loop_flag
                  (Queue.readQueue (Engine.queueDir s)) s)
        as (new' & Htr & Hfail & _).
      rewrite (ProcessorFacts.newEffects_app _ _ _ Htr). exact Hfail.
    + pose proof (ProcessorFacts.processQueue_unavailable s Ha) as E.
      destruct (Engine.available (ProcessorSpec.probed s)) eqn:Hp.
      * destruct (ProcessorFacts.loop_flag
                    (Queue.readQueue (Engine.queueDir s)) (ProcessorSpec.probed s))
          as (new' & Htr & Hfail & _).
        assert (Htr' : Engine.trace s'
                       = Engine.trace s
                           ++ Engine.EFetch Engine.HealthProbe
                                (fst (Engine.fetch (Engine.world s) Engine.HealthProbe))
                              :: new').
        { unfold s'. rewrite E, Htr. simpl. now rewrite <- app_assoc. }
        unfold new. rewrite (ProcessorFacts.newEffects_app _ _ _ Htr').
        split.
        -- intro H. unfold s'. rewrite E. apply Hfail. exact H.
        -- intros _ _. split; [now right|].
           destruct (Hprobe eq_refl) as (status & text & Hres & Hok).
           exists status, text. split; [exact Hres|]. split; [exact Hok|].
           simpl. now rewrite Hres.
      * assert (Es : s' = ProcessorSpec.probed s) by (unfold s'; now rewrite E).
        split.
        -- intros _. now rewrite Es.
        -- intros _ H. rewrite Es, Hp in H. discriminate.
Qed.

Lemma C7_flag_rearmed_only_by_healthCheck_witness :
  Engine.available
    (snd (ProcessorSpec.runCall (RT := Script.runtime)
            ProcessorSpec.CallProcessQueue Samples.tickState))
  = false.
Proof.
  exact (proj1 (C7_flag_rearmed_only_by_healthCheck Script.World Script.runtime
                  ProcessorSpec.CallProcessQueue Samples.tickState) eq_refl).
Defined.

(** ** Facts about the maps *)

Module MapFacts.
Import Engine.

Lemma mapGet_set_same {V} k (v : V) m : mapGet k (mapSet k v m) = Some v.
Proof.
  induction m as [|[k' v'] m IH]; simpl.
  - now rewrite String.eqb_refl.
  - destruct (String.eqb k' k) eqn:E; simpl.
    + now rewrite String.eqb_refl.
    + now rewrite E.
Qed.

Lemma mapGet_set_other {V} k k' (v : V) m :
  k <> k' -> mapGet k (mapSet k' v m) = mapGet k m.
Proof.
  intro H. induction m as [|[k0 v0] m IH]; simpl.
  - destruct (String.eqb_spec k' k); [congruence | reflexivity].
  - destruct (String.eqb_spec k0 k') as [E|E]; simpl.
    + destruct (String.eqb_spec k' k); [congruence|].
      destruct (String.eqb_spec k0 k); [congruence | reflexivity].
    + destruct (String.eqb k0 k); [reflexivity | exact IH].
Qed.

Lemma mapGet_delete_same {V} k (m : JsMap V) : mapGet k (mapDelete k m) = None.
Proof.
  induction m as [|[k' v'] m IH]; simpl; [reflexivity|].
  destruct (String.eqb k' k) eqn:E; simpl; [exact IH|].
  now rewrite E.
Qed.

Lemma mapGet_delete_other {V} k k' (m : JsMap V) :
  k <> k' -> mapGet k (mapDelete k' m) = mapGet k m.
Proof.
  intro H. induction m as [|[k0 v0] m IH]; simpl; [reflexivity|].
  destruct (String.eqb_spec k0 k') as [E|E]; simpl.
  - destruct (String.eqb_spec k0 k); [congruence | exact IH].
  - destruct (String.eqb k0 k); [reflexivity | exact IH].
Qed.

End MapFacts.

(** ** Facts about the deletion guard *)

Module GuardFacts.
Import Engine Hooks GuardSpec MapFacts.

Section WithRuntime.
Context {W : Type} {RT : Runtime W}.

Lemma Issued_refl (s : Sys W) : Issued s s [].
Proof. unfold Issued. now rewrite app_nil_r. Qed.

Lemma Issued_trans (s1 s2 s3 : Sys W) c1 c2 :
  Issued s1 s2 c1 -> Issued s2 s3 c2 -> Issued s1 s3 (c1 ++ c2).
Proof.
  unfold Issued. intros (A1 & A2 & A3 & A4 & A5) (B1 & B2 & B3 & B4 & B5).
  repeat split; try congruence. now rewrite B5, A5, app_assoc.
Qed.

Lemma obsidianGet_issued path (s : Sys W) :
  Issued s (snd (Obsidian.obsidianGet path s)) [].
Proof.
  unfold Obsidian.obsidianGet, bind, Obsidian.doFetch, Issued.
  destruct (fetch (world s) (VaultGet path)) as [[status text|] w'];
    [destruct (ok status)|]; simpl; now rewrite app_nil_r.
Qed.

Lemma enqueue_issued t p c (s : Sys W) :
  Issued s (snd (enqueue t p c s)) [mkEnqueue t p c].
Proof. unfold Issued. simpl. auto. Qed.

(** One probe of [moveToTrash]: the read, and the copy and delete it issues
    when the note is there; the rest of the function runs from the state
    reached. *)
Lemma probe_step path {A} (k : St (W := W) A) (s : Sys W) :
  exists notes s1,
    Issued s s1 (flat_map quarantine notes)
    /\ Forall (fun n => fst n = path) notes
    /\ bind (Obsidian.obsidianGet path)
            (fun c =>
               bind match c with
                    | Some text =>
                        bind (enqueue Queue.create
                                      (replace "/sessions/" "/trash/" path) text)
                             (fun _ => enqueue Queue.delete path "")
                    | None => ret tt
                    end
                    (fun _ => k)) s
       = k s1.
Proof.
  pose proof (obsidianGet_issued path s) as H. unfold bind.
  destruct (Obsidian.obsidianGet path s) as [[text|] sa]; simpl in H.
  - exists [(path, text)]. eexists. split; [|split; [repeat constructor | reflexivity]].
    simpl. rewrite <- (app_nil_l [_; _]).
    eapply Issued_trans; [exact H|].
    unfold Issued. simpl. rewrite <- app_assoc. auto.
  - exists []. exists sa. split; [exact H | split; [constructor | reflexivity]].
Qed.

Lemma trashParts_issued summary indices :
  forall s : Sys W,
    exists notes,
      Issued s (snd (trashParts summary indices s)) (flat_map quarantine notes)
      /\ Forall (fun n =>
                   exists i, In i indices
                     /\ fst n = replace "/summary.md"
                                 ("/raw-log-part-" ++ show i ++ ".md")%string
                                 summary)
                notes.
Proof.
  induction indices as [|i rest IH]; intro s.
  - exists []. split; [apply Issued_refl | constructor].
  - simpl. unfold bind at 1.
    pose proof (obsidianGet_issued
                  (replace "/summary.md" ("/raw-log-part-" ++ show i ++ ".md") summary)
                  s) as Hget.
    destruct (Obsidian.obsidianGet _ s) as [[text|] s1]; simpl in Hget.
    + unfold bind.
      set (p := replace "/summary.md" ("/raw-log-part-" ++ show i ++ ".md") summary) in *.
      set (s2 := snd (enqueue Queue.delete p ""
                        (snd (enqueue Queue.create (replace "/sessions/" "/trash/" p)
                                      text s1)))).
      destruct (IH s2) as (notes & Hiss & Hall).
      exists ((p, text) :: notes). split.
      * change (flat_map quarantine ((p, text) :: notes))
          with (([] ++ quarantine (p, text)) ++ flat_map quarantine notes).
        eapply Issued_trans; [|exact Hiss].
        eapply Issued_trans; [exact Hget|].
        unfold s2, Issued. simpl. rewrite <- app_assoc. auto.
      * constructor.
        -- exists i. split; [now left | reflexivity].
        -- eapply Forall_impl; [|exact Hall].
           intros n (j & Hj & E). exists j. split; [now right | exact E].
    + exists []. split; [exact Hget | constructor].
Qed.

(** [moveToTrash] touches neither map: it reads notes from the sink and, for
    each one it gets, issues the copy under the trash folder and the delete
    of the original. *)
Lemma moveToTrash_issued sessionId tracker (s : Sys W) :
  exists notes,
    Issued s (snd (moveToTrash sessionId tracker s)) (flat_map quarantine notes)
    /\ Forall (fun n => In (fst n) (notePaths tracker)) notes.
Proof.
  unfold moveToTrash. cbv zeta.
  match goal with
  | |- context [bind (Obsidian.obsidianGet ?p) (fun c => bind _ (fun _ => ?k)) s] =>
      destruct (probe_step p k s) as (n1 & s1 & I1 & F1 & E1)
  end.
  rewrite E1. clear E1.
  match goal with
  | |- context [bind (Obsidian.obsidianGet ?p) (fun c => bind _ (fun _ => ?k)) s1] =>
      destruct (probe_step p k s1) as (n2 & s2 & I2 & F2 & E2)
  end.
  rewrite E2. clear E2.
  destruct (trashParts_issued (summaryPath tracker) (seq 1 20) s2) as (n3 & I3 & F3).
  exists (n1 ++ n2 ++ n3). split.
  - rewrite !flat_map_app.
    eapply Issued_trans; [exact I1|].
    eapply Issued_trans; [exact I2 | exact I3].
  - apply Forall_app. split; [|apply Forall_app; split].
    + eapply Forall_impl; [|exact F1]. intros n ->. now left.
    + eapply Forall_impl; [|exact F2]. intros n ->. right. now left.
    + eapply Forall_impl; [|exact F3]. intros n (i & Hi & ->).
      right. right. apply in_map_iff. exists i. auto.
Qed.

Lemma pollSession_spec sessionId tracker (s : Sys W) :
  pollSession sessionId tracker s = (tt, afterPoll sessionId tracker s).
Proof.
  unfold pollSession, afterPoll, tryCatch, bindE, io. f_equal.
  destruct (readSession (world s) sessionId (projectId tracker)) as [[[session|]|] w'];
    cbn [fst snd]; try reflexivity.
  destruct (foundInStorage tracker); [|reflexivity].
  unfold lift, bind, gets, modify. cbn [fst snd deletionFailures setDeletionFailures].
  destruct (DELETION_THRESHOLD <=? _)%Z; [|reflexivity].
  destruct (moveToTrash sessionId tracker _) as [u s2]. reflexivity.
Qed.

Lemma failuresOf_set_same k n m : failuresOf k (mapSet k n m) = n.
Proof. unfold failuresOf. now rewrite mapGet_set_same. Qed.

Lemma failuresOf_delete_same k m : failuresOf k (mapDelete k m) = 0%Z.
Proof. unfold failuresOf. now rewrite mapGet_delete_same. Qed.

(** A visit for one session leaves the entries of every other session
    alone, in both maps. *)
Lemma afterPoll_frame k tracker sessionId (s : Sys W) :
  sessionId <> k ->
  mapGet sessionId (sessions (afterPoll k tracker s)) = mapGet sessionId (sessions s)
  /\ mapGet sessionId (deletionFailures (afterPoll k tracker s))
     = mapGet sessionId (deletionFailures s).
Proof.
  intro Hne. unfold afterPoll.
  destruct (fst (readSession (world s) k (projectId tracker))) as [[session|]|];
    cbv zeta; simpl.
  - now rewrite mapGet_set_other, mapGet_delete_other.
  - destruct (foundInStorage tracker); [|now split].
    destruct (DELETION_THRESHOLD <=? _)%Z.
    + match goal with
      | |- context [moveToTrash k tracker ?st] =>
          destruct (moveToTrash_issued k tracker st) as (notes & (E1 & E2 & _) & _)
      end.
      simpl. rewrite E1, E2. simpl.
      now rewrite !mapGet_delete_other, mapGet_set_other.
    + simpl. now rewrite mapGet_set_other.
  - now split.
Qed.

Lemma pollAll_cons k keys (s : Sys W) :
  pollAll (k :: keys) s
  = pollAll keys match mapGet k (sessions s) with
                 | Some t => afterPoll k t s
                 | None => s
                 end.
Proof.
  simpl. unfold bind, gets.
  destruct (mapGet k (sessions s)) as [t|]; [|reflexivity].
  now rewrite pollSession_spec.
Qed.

Lemma pollAll_unseen keys sessionId tracker :
  foundInStorage tracker = false ->
  (forall w session,
      fst (readSession w sessionId (projectId tracker)) <> Returned (Some session)) ->
  forall s : Sys W,
    mapGet sessionId (sessions s) = Some tracker ->
    mapGet sessionId (sessions (snd (pollAll keys s))) = Some tracker
    /\ mapGet sessionId (deletionFailures (snd (pollAll keys s)))
       = mapGet sessionId (deletionFailures s).
Proof.
  intros Hflag Hread.
  induction keys as [|k keys IH]; intros s Hs; [now split|].
  rewrite pollAll_cons.
  destruct (mapGet k (sessions s)) as [t|] eqn:Hk.
  - destruct (String.eqb_spec sessionId k) as [<-|Hne].
    + assert (t = tracker) by congruence. subst t.
      assert (E : afterPoll sessionId tracker s
                  = setWorld (snd (readSession (world s) sessionId (projectId tracker))) s).
      { unfold afterPoll. rewrite Hflag.
        pose proof (Hread (world s)) as Hr.
        destruct (fst (readSession (world s) sessionId (projectId tracker)))
          as [[session|]|]; [now elim (Hr session) | reflexivity | reflexivity]. }
      rewrite E.
      destruct (IH (setWorld (snd (readSession (world s) sessionId (projectId tracker))) s)
                   Hs) as [R1 R2].
      split; [exact R1 | exact R2].
    + destruct (afterPoll_frame k t sessionId s Hne) as [E1 E2].
      destruct (IH (afterPoll k t s)) as [R1 R2]; [now rewrite E1|].
      split; [exact R1 | now rewrite R2].
  - apply IH. exact Hs.
Qed.

(** *** What the handlers, the poll and the processor leave alone *)

Section Keeping.
Variable X : Type.
Variable proj : Sys W -> X.
Hypothesis framed : Framed proj.

Let keepsWorld := proj1 framed.
Let keepsSessions := proj1 (proj2 framed).
Let keepsOutbox := proj1 (proj2 (proj2 framed)).
Let keepsAvailable := proj1 (proj2 (proj2 (proj2 framed))).
Let keepsTrace := proj2 (proj2 (proj2 (proj2 framed))).

Lemma keeps_ret {A} (a : A) : Keeps proj (ret a).
Proof. now intro s. Qed.

Lemma keeps_bind {A B} (m : St A) (k : A -> St B) :
  Keeps proj m -> (forall a, Keeps proj (k a)) -> Keeps proj (bind m k).
Proof.
  intros Hm Hk s. unfold bind. specialize (Hm s).
  destruct (m s) as [a s1]. simpl in Hm. now rewrite Hk.
Qed.

Lemma keeps_gets {A} (f : Sys W -> A) : Keeps proj (gets f).
Proof. now intro s. Qed.

Lemma keeps_bindE {A B} (m : Exc A) (k : A -> Exc B) :
  Keeps proj m -> (forall a, Keeps proj (k a)) -> Keeps proj (bindE m k).
Proof.
  intros Hm Hk s. unfold bindE. specialize (Hm s).
  destruct (m s) as [[a|] s1]; simpl in Hm; [now rewrite Hk | exact Hm].
Qed.

Lemma keeps_lift {A} (m : St A) : Keeps proj m -> Keeps proj (lift m).
Proof.
  intros Hm s. unfold lift. specialize (Hm s). now destruct (m s).
Qed.

Lemma keeps_io {A} (f : W -> IOResult A * W) : Keeps proj (io f).
Proof. intro s. unfold io. destruct (f (world s)). apply keepsWorld. Qed.

Lemma keeps_tryCatch (body : Exc unit) :
  Keeps proj body -> Keeps proj (tryCatch body).
Proof. intros H s. exact (H s). Qed.

Lemma keeps_enqueue t p c : Keeps proj (enqueue t p c).
Proof. intro s. apply keepsOutbox. Qed.

Lemma keeps_enqueueAll calls : Keeps proj (enqueueAll calls).
Proof.
  induction calls as [|c calls IH]; simpl; [apply keeps_ret|].
  apply keeps_bind; [apply keeps_enqueue | intros _; exact IH].
Qed.

Lemma keeps_writeTracker k t : Keeps proj (writeTracker k t).
Proof. intro s. apply keepsSessions. Qed.

Lemma keeps_clockNow : Keeps proj clockNow.
Proof. intro s. unfold clockNow. destruct (dateNow (world s)). apply keepsWorld. Qed.

Lemma keeps_doFetch req : Keeps proj (Obsidian.doFetch req).
Proof.
  intro s. unfold Obsidian.doFetch. destruct (fetch (world s) req). simpl.
  now rewrite keepsTrace, keepsWorld.
Qed.

Lemma keeps_setAvailable b : Keeps proj (modify (setAvailable b)).
Proof. intro s. apply keepsAvailable. Qed.

Create HintDb keeps.
#[local] Hint Resolve keeps_ret keeps_gets keeps_io keeps_enqueue keeps_enqueueAll
  keeps_writeTracker keeps_clockNow keeps_doFetch keeps_setAvailable : keeps.

(** Splits a program along its binds and case distinctions, and closes the
    leaves with the [keeps] hints. *)
Ltac keeps_step :=
  lazymatch goal with
  | |- forall _, _ => intro
  | |- Keeps _ (tryCatch _) => apply keeps_tryCatch
  | |- Keeps _ (lift _) => apply keeps_lift
  | |- Keeps _ (bindE _ _) => apply keeps_bindE
  | |- Keeps _ (bind _ _) => apply keeps_bind
  | |- Keeps _ (match ?x with _ => _ end) => destruct x
  | |- Keeps _ (let _ := _ in _) => cbv zeta
  | |- _ => solve [auto with keeps]
  end.

Ltac keeps := repeat keeps_step.

Lemma keeps_healthCheck : Keeps proj Obsidian.healthCheck.
Proof. unfold Obsidian.healthCheck. keeps. Qed.

Lemma keeps_obsidianGet path : Keeps proj (Obsidian.obsidianGet path).
Proof. unfold Obsidian.obsidianGet. keeps. Qed.

Lemma keeps_processItem item : Keeps proj (Obsidian.processItem item).
Proof.
  unfold Obsidian.processItem, Obsidian.obsidianPut, Obsidian.obsidianDelete. keeps.
Qed.

Lemma keeps_renameTracked k t title created :
  Keeps proj (renameTracked k t title created).
Proof. unfold renameTracked. keeps. Qed.

Lemma keeps_computeTotalTokens k : Keeps proj (computeTotalTokens k).
Proof. unfold computeTotalTokens, retE. keeps. Qed.

Lemma keeps_refreshSummary k t conv : Keeps proj (refreshSummary k t conv).
Proof.
  unfold refreshSummary. pose proof (keeps_computeTotalTokens k). keeps.
Qed.

Lemma keeps_onSessionCreated info : Keeps proj (onSessionCreated info).
Proof. unfold onSessionCreated. keeps. Qed.

Lemma keeps_onSessionUpdated info : Keeps proj (onSessionUpdated info).
Proof.
  unfold onSessionUpdated, retE.
  pose proof keeps_renameTracked. pose proof keeps_refreshSummary. keeps.
Qed.

(** In particular the read of the idle handler, which sets the flag of the
    session, leaves its failure counter as it is. *)
Lemma keeps_onSessionIdle k : Keeps proj (onSessionIdle k).
Proof.
  unfold onSessionIdle, retE.
  pose proof keeps_renameTracked. pose proof keeps_refreshSummary. keeps.
Qed.

Lemma keeps_onCompacting k : Keeps proj (onCompacting k).
Proof.
  unfold onCompacting, retE. pose proof keeps_computeTotalTokens. keeps.
Qed.

Lemma keeps_onMessageUpdated info : Keeps proj (onMessageUpdated info).
Proof. unfold onMessageUpdated, retE. keeps. Qed.

Lemma keeps_handleEvent e : Keeps proj (handleEvent e).
Proof.
  unfold handleEvent.
  pose proof keeps_onSessionCreated. pose proof keeps_onSessionUpdated.
  pose proof keeps_onSessionIdle. pose proof keeps_onMessageUpdated.
  keeps.
Qed.

Lemma keeps_trashParts summary indices : Keeps proj (trashParts summary indices).
Proof.
  induction indices as [|i rest IH]; simpl; [apply keeps_ret|].
  pose proof keeps_obsidianGet. keeps.
Qed.

Lemma keeps_moveToTrash k t : Keeps proj (moveToTrash k t).
Proof.
  unfold moveToTrash.
  pose proof keeps_obsidianGet. pose proof keeps_trashParts. keeps.
Qed.

(** The processor, for a component the queue directory is no part of. *)
Lemma keeps_processQueue :
  (forall d s, proj (setQueueDir d s) = proj s) ->
  Keeps proj Obsidian.processQueue.
Proof.
  intro keepsQueue.
  assert (Hd : forall id, Keeps proj (Obsidian.dequeue id)).
  { intros id s. unfold Obsidian.dequeue. simpl. now rewrite keepsTrace, keepsQueue. }
  assert (Hu : forall item, Keeps proj (Obsidian.updateRetries item)).
  { intros item s. unfold Obsidian.updateRetries. simpl.
    now rewrite keepsTrace, keepsQueue. }
  assert (Hl : forall items, Keeps proj (Obsidian.processItems items)).
  { induction items as [|item rest IH]; simpl; [apply keeps_ret|].
    pose proof (keeps_processItem item). keeps. }
  unfold Obsidian.processQueue. pose proof keeps_healthCheck. keeps.
Qed.

(** The poll, for a component the failure counters are no part of. *)
Lemma keeps_pollSession :
  (forall m s, proj (setDeletionFailures m s) = proj s) ->
  forall k t, Keeps proj (pollSession k t).
Proof.
  intros keepsCounters k t.
  assert (Hm : forall f : Sys W -> JsMap Z,
             Keeps proj (modify (fun s => setDeletionFailures (f s) s))).
  { intros f s. apply keepsCounters. }
  assert (Hs : forall f : Sys W -> JsMap SessionTracker,
             Keeps proj (modify (fun s => setSessions (f s) s))).
  { intros f s. apply keepsSessions. }
  unfold pollSession, retE. pose proof keeps_moveToTrash. keeps.
Qed.

Lemma keeps_pollForDeletions :
  (forall m s, proj (setDeletionFailures m s) = proj s) ->
  Keeps proj pollForDeletions.
Proof.
  intro keepsCounters.
  pose proof (keeps_pollSession keepsCounters) as Hp.
  assert (Hl : forall keys, Keeps proj (pollAll keys)).
  { induction keys as [|k keys IH]; simpl; [apply keeps_ret|]. keeps. }
  unfold pollForDeletions. keeps.
Qed.

End Keeping.

Lemma counters_framed : Framed (deletionFailures (W := W)).
Proof. repeat split. Qed.

Lemma queueDir_framed : Framed (queueDir (W := W)).
Proof. repeat split. Qed.

(** *** The counters stay below the threshold *)

Lemma afterPoll_below sessionId tracker (s : Sys W) :
  countersBelowThreshold s -> countersBelowThreshold (afterPoll sessionId tracker s).
Proof.
  intros H k. specialize (H k). unfold DELETION_THRESHOLD in *.
  destruct (String.eqb_spec k sessionId) as [->|Hne].
  - unfold afterPoll.
    destruct (fst (readSession (world s) sessionId (projectId tracker)))
      as [[session|]|]; cbv zeta; simpl; [|  |exact H].
    + rewrite failuresOf_delete_same. lia.
    + destruct (foundInStorage tracker); [|exact H].
      destruct (Z.leb_spec DELETION_THRESHOLD
                  (failuresOf sessionId (deletionFailures s) + 1)) as [Hge|Hlt].
      * simpl. rewrite failuresOf_delete_same. lia.
      * simpl. rewrite failuresOf_set_same. unfold DELETION_THRESHOLD in Hlt. lia.
  - destruct (afterPoll_frame sessionId tracker k s Hne) as [_ E].
    unfold failuresOf in *. now rewrite E.
Qed.

Lemma pollAll_below keys :
  forall s : Sys W,
    countersBelowThreshold s -> countersBelowThreshold (snd (pollAll keys s)).
Proof.
  induction keys as [|k keys IH]; intros s H; [exact H|].
  rewrite pollAll_cons. apply IH.
  destruct (mapGet k (sessions s)); [now apply afterPoll_below | exact H].
Qed.

Lemma keeps_below {A} (m : St A) (s : Sys W) :
  Keeps deletionFailures m ->
  countersBelowThreshold s -> countersBelowThreshold (snd (m s)).
Proof. intros Hm H k. rewrite Hm. apply H. Qed.

(** *** The queue directory stays well formed *)

Lemma wellFormed_unlink n dir :
  Queue.wellFormed dir -> Queue.wellFormed (Queue.unlink n dir).
Proof.
  intros [Hnd Hwf]. split.
  - now apply ProcessorFacts.NoDup_names_filter.
  - intros f item Hf. apply filter_In in Hf. apply Hwf. tauto.
Qed.

Lemma writeFile_names m n item dir :
  In m (map Queue.name (Queue.writeFile n item dir)) ->
  m = n \/ In m (map Queue.name dir).
Proof.
  induction dir as [|f dir IH]; simpl.
  - intros [<-|[]]. now left.
  - destruct (String.eqb_spec (Queue.name f) n) as [E|E]; simpl.
    + intros [<-|H]; [now left | right; now right].
    + intros [<-|H]; [right; now left|].
      destruct (IH H) as [->|H']; [now left | right; now right].
Qed.

Lemma writeFile_entries f n item dir :
  In f (Queue.writeFile n item dir) ->
  f = Queue.mkQFile n (Some item) \/ In f dir.
Proof.
  induction dir as [|g dir IH]; simpl.
  - intros [<-|[]]. now left.
  - destruct (String.eqb (Queue.name g) n); simpl.
    + intros [<-|H]; [now left | right; now right].
    + intros [<-|H]; [right; now left|].
      destruct (IH H) as [->|H']; [now left | right; now right].
Qed.

Lemma wellFormed_writeFile item dir :
  Queue.wellFormed dir ->
  Queue.wellFormed (Queue.writeFile (Queue.fileName (Queue.id item)) item dir).
Proof.
  intros [Hnd Hwf]. split.
  - clear Hwf. induction dir as [|f dir IH]; simpl; [repeat constructor; now intros []|].
    simpl in Hnd. inversion Hnd as [|? ? Hf Hrest]; subst.
    destruct (String.eqb_spec (Queue.name f) (Queue.fileName (Queue.id item))) as [E|E];
      simpl.
    + constructor; [now rewrite <- E | exact Hrest].
    + constructor; [|now apply IH].
      intro Hin. apply writeFile_names in Hin. destruct Hin as [Hin|Hin];
        [now apply E | now apply Hf].
  - intros f x Hf Hd. apply writeFile_entries in Hf. destruct Hf as [->|Hf].
    + simpl in Hd. injection Hd as <-. reflexivity.
    + now apply (Hwf f x).
Qed.

Lemma wellFormed_processItems items :
  forall s : Sys W,
    Queue.wellFormed (queueDir s) ->
    Queue.wellFormed (queueDir (snd (Obsidian.processItems items s))).
Proof.
  induction items as [|item rest IH]; intros s H; [exact H|].
  destruct (Queue.shouldDiscard item) eqn:D.
  - rewrite ProcessorFacts.processItems_discard by exact D.
    apply IH. simpl. now apply wellFormed_unlink.
  - destruct (fst (Obsidian.processItem item s)) eqn:Hok.
    + rewrite ProcessorFacts.processItems_delivered by assumption.
      apply IH. rewrite ProcessorFacts.processItem_spec. simpl.
      now apply wellFormed_unlink.
    + rewrite ProcessorFacts.processItems_failed by assumption.
      rewrite ProcessorFacts.processItem_spec. simpl.
      now apply (wellFormed_writeFile (Queue.bumped item)).
Qed.

Lemma wellFormed_processQueue (s : Sys W) :
  Queue.wellFormed (queueDir s) ->
  Queue.wellFormed (queueDir (snd (Obsidian.processQueue s))).
Proof.
  intro H. destruct (available s) eqn:Ha.
  - rewrite ProcessorFacts.processQueue_available by exact Ha.
    now apply wellFormed_processItems.
  - rewrite ProcessorFacts.processQueue_unavailable by exact Ha.
    destruct (available (ProcessorSpec.probed s)); [|exact H].
    now apply wellFormed_processItems.
Qed.

End WithRuntime.

End GuardFacts.

(** C4. A failed upstream read of a session whose [foundInStorage] flag is
    false changes nothing but the outside world: the visit of the poll
    leaves the tracker map, the failure counters, the issued calls, the queue
    and the flag as they were. Over a whole poll, whatever the other
    sessions do, such a session keeps its tracker entry and its counter (none
    is created), so it is not trashed. *)
Theorem C4_unseen_session_untouched_by_failed_read :
  forall (W : Type) (RT : Engine.Runtime W)
         (sessionId : string) (tracker : Engine.SessionTracker) (s : Engine.Sys W),
    Engine.foundInStorage tracker = false ->
    (forall session,
        fst (Engine.readSession (Engine.world s) sessionId (Engine.projectId tracker))
        <> Engine.Returned (Some session)) ->
    Hooks.pollSession sessionId tracker s
    = (tt,
       Engine.setWorld
         (snd (Engine.readSession (Engine.world s) sessionId
                                  (Engine.projectId tracker)))
         s)
    /\ ((forall w session,
           fst (Engine.readSession w sessionId (Engine.projectId tracker))
           <> Engine.Returned (Some session)) ->
        Engine.mapGet sessionId (Engine.sessions s) = Some tracker ->
        let s' := snd (Hooks.pollForDeletions s) in
        Engine.mapGet sessionId (Engine.sessions s') = Some tracker
        /\ Engine.mapGet sessionId (Engine.deletionFailures s')
           = Engine.mapGet sessionId (Engine.deletionFailures s)).
Proof.
  intros W RT sessionId tracker s Hflag Hread. split.
  - rewrite GuardFacts.pollSession_spec. f_equal.
    unfold GuardSpec.afterPoll. rewrite Hflag.
    destruct (fst (Engine.readSession (Engine.world s) sessionId
                                      (Engine.projectId tracker)))
      as [[session|]|]; [now elim (Hread session) | reflexivity | reflexivity].
  - intros Hall Hs s'. unfold s', Hooks.pollForDeletions, Engine.bind, Engine.gets.
    now apply GuardFacts.pollAll_unseen.
Qed.

Lemma C4_unseen_session_untouched_by_failed_read_witness :
  Engine.foundInStorage (Hooks.setFoundInStorage false Samples.trackerOne) = false
  /\ Hooks.pollSession (RT := Script.runtime) "ses_1"
       (Hooks.setFoundInStorage false Samples.trackerOne) Samples.unseen
     = (tt, Samples.unseen).
Proof.
  split; [reflexivity|].
  refine (proj1 (C4_unseen_session_untouched_by_failed_read
                   Script.World Script.runtime "ses_1"
                   (Hooks.setFoundInStorage false Samples.trackerOne)
                   Samples.unseen eq_refl _)).
  intros session H. vm_compute in H. discriminate H.
Defined.

(** ** The deletion guard on a sample session *)

Example guard_run :
  Engine.sessions Samples.tracked
  = [("ses_1", Hooks.setFoundInStorage false Samples.trackerOne)]
  /\ Engine.sessions (Samples.poll Samples.tracked) = [("ses_1", Samples.trackerOne)]
  /\ Engine.deletionFailures (Samples.poll Samples.tracked) = []
  /\ Engine.deletionFailures (Samples.poll (Samples.poll Samples.tracked))
     = [("ses_1", 1%Z)]
  /\ Engine.deletionFailures
       (Samples.poll (Samples.poll (Samples.poll Samples.tracked)))
     = [("ses_1", 2%Z)]
  /\ Engine.sessions (Samples.poll (Samples.poll (Samples.poll Samples.tracked)))
     = [("ses_1", Samples.trackerOne)]
  /\ Engine.sessions
       (Samples.poll (Samples.poll (Samples.poll (Samples.poll Samples.tracked))))
     = []
  /\ Engine.deletionFailures
       (Samples.poll (Samples.poll (Samples.poll (Samples.poll Samples.tracked))))
     = []
  /\ Engine.outbox
       (Samples.poll (Samples.poll (Samples.poll (Samples.poll Samples.tracked))))
     = [Engine.mkEnqueue Queue.create
          "10-Projects/demo/sessions/2026-02/14-fix-login-bug/summary.md"
          "Fix login bug";
        Engine.mkEnqueue Queue.create
          "10-Projects/demo/trash/2026-02/14-fix-login-bug/summary.md" "note";
        Engine.mkEnqueue Queue.delete
          "10-Projects/demo/sessions/2026-02/14-fix-login-bug/summary.md" ""].
Proof. vm_compute. repeat split. Qed.

(** ** The rename cascade *)

Example rename_sample :
  let '(changed, tracker, calls) :=
    Hooks.handleRenameIfNeeded Samples.trackerOne "Completely different title"
                               "2026-02-14" in
  changed = true
  /\ Engine.slug tracker = "completely-different-title"
  /\ Engine.summaryPath tracker
     = "10-Projects/demo/sessions/2026-02/14-completely-different-title/summary.md"
  /\ firstn 3 (map Engine.callPath calls)
     = ["10-Projects/demo/sessions/2026-02/14-fix-login-bug/summary.md";
        "10-Projects/demo/sessions/2026-02/14-fix-login-bug/raw-log.md";
        "10-Projects/demo/sessions/2026-02/14-fix-login-bug/raw-log-part-1.md"]
  /\ last (map Engine.callPath calls) ""
     = "10-Projects/demo/sessions/2026-02/14-fix-login-bug/raw-log-part-20.md".
Proof. vm_compute. repeat split. Qed.

(** C6. The rename cascade recomputes the slug from the new title alone.
    When it equals the tracker's slug nothing is issued and the tracker is
    returned as it was. Otherwise the calls issued are, in order, the delete
    of the tracker's summary path and, in the folder of the old slug (under
    the project of the tracker, the month and the day of the date), the
    deletes of [raw-log.md] and of [raw-log-part-1.md] to
    [raw-log-part-20.md]: 22 calls, all deletes with empty content, none a
    create or an update; and the tracker gets the new slug and the summary
    path in the folder of the new slug, its other fields unchanged. *)
Theorem C6_rename_cascade :
  forall (tracker : Engine.SessionTracker) (newTitle created : string),
    let newSlug := Hooks.sessionSlug (Slug.mkSlugSource (Some newTitle) None "") in
    let oldSlug := Engine.slug tracker in
    let project := Engine.projectName tracker in
    let inFolder (slug file : string) : string :=
      ("10-Projects/" ++ project ++ "/sessions/" ++ substring 0 7 created ++ "/"
         ++ substring 8 2 created ++ "-" ++ slug ++ "/" ++ file)%string in
    let result := Hooks.handleRenameIfNeeded tracker newTitle created in
    (newSlug = oldSlug -> result = (false, tracker, []))
    /\ (newSlug <> oldSlug ->
        fst (fst result) = true
        /\ snd (fst result)
           = Engine.mkTracker (Engine.projectId tracker) project newSlug
               (inFolder newSlug "summary.md")
               (Engine.messageCount tracker) (Engine.lastMessageSync tracker)
               (Engine.foundInStorage tracker)
        /\ snd result
           = map (fun path => Engine.mkEnqueue Queue.delete path "")
               (Engine.summaryPath tracker
                :: map (inFolder oldSlug)
                  ["raw-log.md"; "raw-log-part-1.md"; "raw-log-part-2.md";
                   "raw-log-part-3.md"; "raw-log-part-4.md"; "raw-log-part-5.md";
                   "raw-log-part-6.md"; "raw-log-part-7.md"; "raw-log-part-8.md";
                   "raw-log-part-9.md"; "raw-log-part-10.md"; "raw-log-part-11.md";
                   "raw-log-part-12.md"; "raw-log-part-13.md"; "raw-log-part-14.md";
                   "raw-log-part-15.md"; "raw-log-part-16.md"; "raw-log-part-17.md";
                   "raw-log-part-18.md"; "raw-log-part-19.md"; "raw-log-part-20.md"])
        /\ List.length (snd result) = 22
        /\ Forall (fun c => Engine.callType c = Queue.delete
                            /\ Engine.callContent c = ""%string)
                  (snd result)).
Proof.
  intros tracker newTitle created newSlug oldSlug project inFolder result.
  unfold result, Hooks.handleRenameIfNeeded. fold newSlug.
  split.
  - intro E. destruct (String.eqb_spec newSlug (Engine.slug tracker)) as [_|N];
      [reflexivity | contradiction].
  - intro N. destruct (String.eqb_spec newSlug (Engine.slug tracker)) as [E|_];
      [contradiction|].
    cbn [fst snd]. split; [reflexivity|]. split; [reflexivity|].
    split; [reflexivity|]. split; [reflexivity|].
    constructor; [now split|]. constructor; [now split|].
    apply Forall_forall. intros c Hc. apply in_map_iff in Hc.
    destruct Hc as (i & <- & _). now split.
Qed.

Lemma C6_rename_cascade_witness :
  Hooks.handleRenameIfNeeded Samples.trackerOne "Fix LOGIN bug" "2026-02-14"
  = (false, Samples.trackerOne, [])
  /\ map Engine.callPath
       (snd (Hooks.handleRenameIfNeeded Samples.trackerOne
               "Completely different title" "2026-02-14"))
     = "10-Projects/demo/sessions/2026-02/14-fix-login-bug/summary.md"
       :: map (fun file =>
                 ("10-Projects/demo/sessions/2026-02/14-fix-login-bug/" ++ file)%string)
            ["raw-log.md"; "raw-log-part-1.md"; "raw-log-part-2.md";
             "raw-log-part-3.md"; "raw-log-part-4.md"; "raw-log-part-5.md";
             "raw-log-part-6.md"; "raw-log-part-7.md"; "raw-log-part-8.md";
             "raw-log-part-9.md"; "raw-log-part-10.md"; "raw-log-part-11.md";
             "raw-log-part-12.md"; "raw-log-part-13.md"; "raw-log-part-14.md";
             "raw-log-part-15.md"; "raw-log-part-16.md"; "raw-log-part-17.md";
             "raw-log-part-18.md"; "raw-log-part-19.md"; "raw-log-part-20.md"]
  /\ Engine.summaryPath
       (snd (fst (Hooks.handleRenameIfNeeded Samples.trackerOne
                    "Completely different title" "2026-02-14")))
     = "10-Projects/demo/sessions/2026-02/14-completely-different-title/summary.md".
Proof.
  assert (N : Hooks.sessionSlug
                (Slug.mkSlugSource (Some "Completely different title") None "")
              <> Engine.slug Samples.trackerOne)
    by (vm_compute; discriminate).
  destruct (proj2 (C6_rename_cascade Samples.trackerOne "Completely different title"
                                     "2026-02-14") N)
    as (_ & Htracker & Hcalls & _).
  split.
  - exact (proj1 (C6_rename_cascade Samples.trackerOne "Fix LOGIN bug" "2026-02-14")
                 eq_refl).
  - split.
    + rewrite Hcalls. reflexivity.
    + rewrite Htracker. reflexivity.
Defined.

(** ** The event router *)

(** C8, as stated, fails for [session.compacting]: on a tracked session whose
    conversation can be reconstructed, [handleEvent] does nothing with an
    event of that type, while the compaction handler would have issued the
    raw log and the summary. *)
Lemma C8_compacting_not_routed :
  Hooks.handleEvent (RT := Script.runtime) Samples.compactingEvent Samples.conversing
  = (tt, Samples.conversing)
  /\ Engine.outbox
       (snd (Hooks.onCompacting (RT := Script.runtime) "ses_1" Samples.conversing))
     = Engine.outbox Samples.conversing
         ++ [Engine.mkEnqueue Queue.update
               "10-Projects/demo/sessions/2026-02/14-fix-login-bug/raw-log.md"
               "raw log";
             Engine.mkEnqueue Queue.update
               "10-Projects/demo/sessions/2026-02/14-fix-login-bug/summary.md"
               "summary"].
Proof. vm_compute. split; reflexivity. Qed.

(** C8, amended. [handleEvent] hands an event of type [session.created],
    [session.updated], [session.idle] or [message.updated] to the handler of
    that type, and does nothing at all for an event of any other type,
    [session.compacting] included: the state is returned as it was. The
    compaction handler is reached through the plugin's own compacting hook,
    beside the event hook that calls [handleEvent]. *)
Theorem C8_handleEvent_dispatch :
  forall (W : Type) (RT : Engine.Runtime W) (event : Hooks.Event) (s : Engine.Sys W),
    (Hooks.type event = "session.created"%string ->
     forall info,
       Hooks.propInfo (Hooks.properties event) = Some (Hooks.InfoSession info) ->
       Hooks.handleEvent event s = Hooks.onSessionCreated info s)
    /\ (Hooks.type event = "session.updated"%string ->
        forall info,
          Hooks.propInfo (Hooks.properties event) = Some (Hooks.InfoSession info) ->
          Hooks.handleEvent event s = Hooks.onSessionUpdated info s)
    /\ (Hooks.type event = "session.idle"%string ->
        forall sessionID,
          Hooks.propSessionID (Hooks.properties event) = Some sessionID ->
          Hooks.handleEvent event s = Hooks.onSessionIdle sessionID s)
    /\ (Hooks.type event = "message.updated"%string ->
        forall info,
          Hooks.propInfo (Hooks.properties event) = Some (Hooks.InfoMessage info) ->
          Hooks.handleEvent event s = Hooks.onMessageUpdated info s)
    /\ (~ In (Hooks.type event)
             ["session.created"; "session.updated"; "session.idle";
              "message.updated"]%string ->
        Hooks.handleEvent event s = (tt, s))
    /\ Plugin.event event s = Hooks.handleEvent event s
    /\ (forall sessionID,
          Plugin.sessionCompacting sessionID s = Hooks.onCompacting sessionID s).
Proof.
  intros W RT event s. unfold Hooks.handleEvent.
  repeat split.
  - intros -> info ->. reflexivity.
  - intros -> info ->. reflexivity.
  - intros -> sessionID ->. reflexivity.
  - intros -> info ->. reflexivity.
  - intro H.
    destruct (String.eqb_spec (Hooks.type event) "session.created") as [E|_];
      [exfalso; apply H; rewrite E; simpl; auto 10|].
    destruct (String.eqb_spec (Hooks.type event) "session.updated") as [E|_];
      [exfalso; apply H; rewrite E; simpl; auto 10|].
    destruct (String.eqb_spec (Hooks.type event) "session.idle") as [E|_];
      [exfalso; apply H; rewrite E; simpl; auto 10|].
    destruct (String.eqb_spec (Hooks.type event) "message.updated") as [E|_];
      [exfalso; apply H; rewrite E; simpl; auto 10|].
    reflexivity.
Qed.

Lemma C8_handleEvent_dispatch_witness :
  Hooks.handleEvent (RT := Script.runtime) Samples.createdEvent
    (Script.initial Samples.guardWorld)
  = Hooks.onSessionCreated (RT := Script.runtime)
      (Hooks.mkSessionInfo "ses_1" "proj" "Fix login bug" "/work" 1000 1000)
      (Script.initial Samples.guardWorld)
  /\ Hooks.handleEvent (RT := Script.runtime) Samples.compactingEvent Samples.conversing
     = (tt, Samples.conversing).
Proof.
  split.
  - exact (proj1 (C8_handleEvent_dispatch Script.World Script.runtime
                    Samples.createdEvent (Script.initial Samples.guardWorld))
                 eq_refl _ eq_refl).
  - refine (proj1 (proj2 (proj2 (proj2 (proj2
      (C8_handleEvent_dispatch Script.World Script.runtime
         Samples.compactingEvent Samples.conversing))))) _).
    simpl. intuition discriminate.
Defined.


(** ** Round trips of the queue *)

Module QueueRoundTrips.
Import Queue QueueFacts.

Lemma startsWith_app p x : JsText.startsWith p (p ++ x) = true.
Proof.
  induction p as [|a p IH]; simpl; [reflexivity|].
  now rewrite Ascii.eqb_refl, IH.
Qed.

Lemma isJsonFile_fileName id d : isJsonFile (mkQFile (fileName id) d) = true.
Proof.
  unfold isJsonFile, JsText.endsWith, fileName. cbn [name].
  rewrite ProcessorFacts.ofString_append, rev_app_distr.
  apply startsWith_app.
Qed.

Lemma writeFile_fresh n item dir :
  lookupFile n dir = None -> writeFile n item dir = dir ++ [mkQFile n (Some item)].
Proof.
  unfold lookupFile. induction dir as [|f dir IH]; simpl; [reflexivity|].
  destruct (String.eqb (name f) n); [discriminate|].
  intro H. now rewrite IH.
Qed.

Lemma parsedItems_app a b : parsedItems (a ++ b) = parsedItems a ++ parsedItems b.
Proof.
  induction a as [|f a IH]; simpl; [reflexivity|].
  destruct (data f); simpl; now rewrite IH.
Qed.

Lemma insert_snoc p l x :
  (createdAt p <= createdAt x)%Z ->
  insertByCreatedAt p (l ++ [x]) = insertByCreatedAt p l ++ [x].
Proof.
  intro H. induction l as [|y l IH]; simpl.
  - destruct (Z.leb_spec (createdAt p) (createdAt x)); [reflexivity | lia].
  - destruct (createdAt p <=? createdAt y)%Z; [reflexivity|]. now rewrite IH.
Qed.

Lemma sort_snoc l x :
  Forall (fun p => (createdAt p <= createdAt x)%Z) l ->
  sortByCreatedAt (l ++ [x]) = sortByCreatedAt l ++ [x].
Proof.
  induction 1 as [|p l Hp Hl IH]; simpl; [reflexivity|].
  rewrite IH. now apply insert_snoc.
Qed.

Lemma insert_front x l :
  Forall (olderOrSame x) l -> insertByCreatedAt x l = x :: l.
Proof.
  destruct 1 as [|y l Hy Hl]; simpl; [reflexivity|].
  unfold olderOrSame in Hy.
  destruct (Z.leb_spec (createdAt x) (createdAt y)); [reflexivity | lia].
Qed.

Lemma filter_insert (p : QueueItem -> bool) x l :
  StronglySorted olderOrSame l ->
  filter p (insertByCreatedAt x l)
  = if p x then insertByCreatedAt x (filter p l) else filter p l.
Proof.
  induction 1 as [|y l Hs IH Hy]; simpl.
  - now destruct (p x).
  - destruct (Z.leb_spec (createdAt x) (createdAt y)) as [Hle|Hgt].
    + change (filter p (x :: y :: l)) with (if p x then x :: filter p (y :: l)
                                            else filter p (y :: l)).
      destruct (p x) eqn:Px; [|reflexivity].
      symmetry. apply insert_front.
      assert (Hall : Forall (olderOrSame x) (y :: l)).
      { constructor; [exact Hle|].
        eapply Forall_impl; [|exact Hy]. unfold olderOrSame. intros; lia. }
      apply Forall_forall. intros z Hz. apply filter_In in Hz.
      rewrite Forall_forall in Hall. now apply Hall.
    + cbn [filter]. rewrite IH.
      destruct (p y) eqn:Py, (p x) eqn:Px; try reflexivity.
      simpl. destruct (Z.leb_spec (createdAt x) (createdAt y)); [lia | reflexivity].
Qed.

Lemma sort_filter (p : QueueItem -> bool) l :
  sortByCreatedAt (filter p l) = filter p (sortByCreatedAt l).
Proof.
  induction l as [|x l IH]; simpl; [reflexivity|].
  rewrite filter_insert by apply sort_sorted.
  destruct (p x); simpl; now rewrite IH.
Qed.

Lemma insert_map (f : QueueItem -> QueueItem) x l :
  (forall y, createdAt (f y) = createdAt y) ->
  insertByCreatedAt (f x) (map f l) = map f (insertByCreatedAt x l).
Proof.
  intro H. induction l as [|y l IH]; simpl; [reflexivity|].
  rewrite !H. destruct (createdAt x <=? createdAt y)%Z; simpl; [reflexivity|].
  now rewrite IH.
Qed.

Lemma sort_map (f : QueueItem -> QueueItem) l :
  (forall y, createdAt (f y) = createdAt y) ->
  sortByCreatedAt (map f l) = map f (sortByCreatedAt l).
Proof.
  intro H. induction l as [|x l IH]; simpl; [reflexivity|].
  now rewrite IH, insert_map.
Qed.

(** The items of a well-formed directory that [unlink] leaves. *)
Lemma parsedItems_unlink id files :
  (forall g item, In g files -> data g = Some item -> name g = fileName (Queue.id item)) ->
  parsedItems (unlink (fileName id) files)
  = filter (fun x => negb (String.eqb (Queue.id x) id)) (parsedItems files).
Proof.
  unfold unlink. induction files as [|g files IH]; intro Hwf; simpl; [reflexivity|].
  assert (Hrest : forall g' item, In g' files -> data g' = Some item ->
                                  name g' = fileName (Queue.id item)).
  { intros g' item Hin. apply Hwf. now right. }
  specialize (IH Hrest).
  destruct (data g) as [item|] eqn:Hd.
  - rewrite (Hwf g item (or_introl eq_refl) Hd).
    assert (E : String.eqb (fileName (Queue.id item)) (fileName id)
                = String.eqb (Queue.id item) id).
    { destruct (String.eqb_spec (Queue.id item) id) as [->|Hne].
      - apply String.eqb_refl.
      - apply String.eqb_neq. intro H. apply Hne. now apply ProcessorFacts.fileName_inj. }
    rewrite E. simpl. destruct (String.eqb (Queue.id item) id); simpl.
    + exact IH.
    + now rewrite Hd, IH.
  - destruct (negb _); simpl; [now rewrite Hd|]; exact IH.
Qed.

Lemma filter_comm {A} (p q : A -> bool) l :
  filter p (filter q l) = filter q (filter p l).
Proof.
  induction l as [|x l IH]; simpl; [reflexivity|].
  destruct (p x) eqn:P, (q x) eqn:Q; simpl; rewrite ?P, ?Q, IH; reflexivity.
Qed.

Lemma readQueue_dequeue id dir :
  wellFormed dir ->
  readQueue (dequeue id dir)
  = filter (fun x => negb (String.eqb (Queue.id x) id)) (readQueue dir).
Proof.
  intros [_ Hwf]. unfold readQueue, dequeue. cbv zeta.
  unfold unlink at 1. rewrite filter_comm.
  change (filter (fun f => negb (String.eqb (name f) (fileName id)))
                 (filter isJsonFile dir))
    with (unlink (fileName id) (filter isJsonFile dir)).
  rewrite parsedItems_unlink.
  - apply sort_filter.
  - intros g item Hg. apply filter_In in Hg. apply Hwf. tauto.
Qed.

(** Overwriting the file of an item that is in the directory. *)
Lemma writeFile_present n item dir :
  NoDup (map name dir) ->
  In n (map name dir) ->
  writeFile n item dir
  = map (fun g => if String.eqb (name g) n then mkQFile n (Some item) else g) dir.
Proof.
  induction dir as [|f dir IH]; simpl; [now intros _ []|].
  intros Hnd Hin. inversion Hnd as [|? ? Hf Hrest]; subst.
  destruct (String.eqb_spec (name f) n) as [E|E].
  - f_equal. subst n. symmetry.
    rewrite <- (map_id dir) at 2. apply map_ext_in.
    intros g Hg. destruct (String.eqb_spec (name g) (name f)) as [E'|]; [|reflexivity].
    elim Hf. rewrite <- E'. now apply in_map.
  - f_equal. apply IH; [exact Hrest|]. destruct Hin as [Hin|Hin]; [now elim E | exact Hin].
Qed.

Lemma filter_map_name (h : QFile -> QFile) files :
  (forall g, name (h g) = name g) ->
  filter isJsonFile (map h files) = map h (filter isJsonFile files).
Proof.
  intro H. induction files as [|g files IH]; simpl; [reflexivity|].
  assert (E : isJsonFile (h g) = isJsonFile g) by (unfold isJsonFile; now rewrite H).
  rewrite E. destruct (isJsonFile g); simpl; now rewrite IH.
Qed.

Lemma readQueue_updateRetries item dir :
  wellFormed dir ->
  In item (readQueue dir) ->
  readQueue (updateRetries item dir)
  = map (fun x => if String.eqb (Queue.id x) (Queue.id item) then bumped item else x)
        (readQueue dir).
Proof.
  intros [Hnd Hwf] Hin.
  apply ProcessorFacts.readQueue_in in Hin. destruct Hin as (g0 & Hg0 & Hj0 & Hd0).
  pose proof (Hwf g0 item Hg0 Hd0) as Hn0.
  set (n := fileName (Queue.id item)) in *.
  set (h := fun g => if String.eqb (name g) n then mkQFile n (Some (bumped item)) else g).
  set (f := fun x => if String.eqb (Queue.id x) (Queue.id item) then bumped x else x).
  assert (Hh : forall g, name (h g) = name g).
  { intro g. unfold h. destruct (String.eqb_spec (name g) n) as [->|]; reflexivity. }
  assert (Hf : forall y, createdAt (f y) = createdAt y).
  { intro y. unfold f. now destruct (String.eqb (Queue.id y) (Queue.id item)). }
  unfold updateRetries, readQueue. cbv zeta. fold n.
  rewrite writeFile_present; [|exact Hnd|rewrite <- Hn0; now apply in_map].
  fold h. rewrite filter_map_name by exact Hh.
  assert (Hp : forall files,
             (forall g, In g files -> In g dir) ->
             parsedItems (map h files) = map f (parsedItems files)).
  { induction files as [|g files IH]; intro Hsub; simpl; [reflexivity|].
    assert (Hg : In g dir) by (apply Hsub; now left).
    assert (IH' : parsedItems (map h files) = map f (parsedItems files)).
    { apply IH. intros g' Hg'. apply Hsub. now right. }
    unfold h at 1. destruct (String.eqb_spec (name g) n) as [E|E].
    - assert (g = g0).
      { apply (ProcessorFacts.same_name_same_file g g0 dir); try assumption.
        now rewrite E, Hn0. }
      subst g. rewrite Hd0. simpl. rewrite IH'. unfold f at 2.
      now rewrite String.eqb_refl.
    - destruct (data g) as [x|] eqn:Hd; [|exact IH'].
      simpl. rewrite IH'. unfold f at 2.
      destruct (String.eqb_spec (Queue.id x) (Queue.id item)) as [E'|]; [|reflexivity].
      elim E. rewrite (Hwf g x Hg Hd). unfold n. now rewrite E'. }
  rewrite Hp by (intros g Hg; apply filter_In in Hg; tauto).
  rewrite sort_map by exact Hf.
  apply map_ext_in. intros x Hx. unfold f.
  destruct (String.eqb_spec (Queue.id x) (Queue.id item)) as [E|]; [|reflexivity].
  f_equal.
  assert (Hx' : In x (readQueue dir)) by exact Hx.
  apply ProcessorFacts.readQueue_in in Hx'. destruct Hx' as (g & Hg & _ & Hd).
  assert (g = g0).
  { apply (ProcessorFacts.same_name_same_file g g0 dir); try assumption.
    rewrite (Hwf g x Hg Hd), Hn0. unfold n. now rewrite E. }
  subst g. congruence.
Qed.

End QueueRoundTrips.

(** ** The queue across a tick of the processor *)

Module TickFacts.
Import Engine.

(** The directory with the files of [items] removed, one after the other. *)
Lemma dequeueAll_wellFormed items :
  forall dir,
    Queue.wellFormed dir ->
    Queue.wellFormed (fold_left (fun d x => Queue.dequeue (Queue.id x) d) items dir).
Proof.
  induction items as [|x items IH]; intros dir H; [exact H|].
  simpl. apply IH. now apply GuardFacts.wellFormed_unlink.
Qed.

Lemma readQueue_dequeueAll items :
  forall dir,
    Queue.wellFormed dir ->
    Queue.readQueue (fold_left (fun d x => Queue.dequeue (Queue.id x) d) items dir)
    = filter (fun x => negb (existsb (String.eqb (Queue.id x)) (map Queue.id items)))
             (Queue.readQueue dir).
Proof.
  induction items as [|y items IH]; intros dir H; simpl.
  - symmetry. apply forallb_filter_id. apply forallb_forall. reflexivity.
  - rewrite IH by now apply GuardFacts.wellFormed_unlink.
    rewrite QueueRoundTrips.readQueue_dequeue by exact H.
    induction (Queue.readQueue dir) as [|x l IHl]; simpl; [reflexivity|].
    rewrite (String.eqb_sym (Queue.id x) (Queue.id y)).
    destruct (String.eqb (Queue.id y) (Queue.id x)); simpl; [exact IHl|].
    destruct (existsb _ _); simpl; now rewrite IHl.
Qed.

Lemma filter_none {A} (f : A -> bool) l :
  (forall x, In x l -> f x = false) -> filter f l = [].
Proof.
  induction l as [|x l IH]; intro H; simpl; [reflexivity|].
  rewrite (H x (or_introl eq_refl)). apply IH. intros y Hy. apply H. now right.
Qed.

Lemma filter_all {A} (f : A -> bool) l :
  (forall x, In x l -> f x = true) -> filter f l = l.
Proof.
  induction l as [|x l IH]; intro H; simpl; [reflexivity|].
  rewrite (H x (or_introl eq_refl)). f_equal. apply IH. intros y Hy. apply H. now right.
Qed.

Lemma existsb_id x (l : list Queue.QueueItem) :
  existsb (String.eqb (Queue.id x)) (map Queue.id l) = true
  <-> In (Queue.id x) (map Queue.id l).
Proof.
  rewrite existsb_exists. split.
  - intros (k & Hk & E). apply String.eqb_eq in E. now rewrite E.
  - intro H. exists (Queue.id x). split; [exact H | apply String.eqb_refl].
Qed.

Lemma filter_out_prefix (pre post : list Queue.QueueItem) :
  NoDup (map Queue.id (pre ++ post)) ->
  filter (fun x => negb (existsb (String.eqb (Queue.id x)) (map Queue.id pre)))
         (pre ++ post)
  = post.
Proof.
  intro Hnd. rewrite filter_app, filter_none, filter_all; [reflexivity| |].
  - intros x Hx. apply negb_true_iff.
    destruct (existsb _ _) eqn:E; [|reflexivity].
    apply existsb_id in E. rewrite map_app in Hnd.
    apply NoDup_app_remove_l in Hnd as Hpost.
    exfalso. clear Hpost.
    induction pre as [|p pre IH]; [exact E|].
    simpl in Hnd. inversion Hnd as [|? ? Hp Hrest]; subst.
    destruct E as [E|E]; [|now apply IH].
    apply Hp. rewrite E. apply in_or_app. right. now apply in_map.
  - intros x Hx. apply negb_false_iff. apply existsb_id. now apply in_map.
Qed.

(** While every item is discarded or delivered, the loop only removes
    files: the flag stays as it is and the directory loses the files of the
    items, one after the other. *)
Lemma deliversAll_state {W} {RT : Runtime W} items :
  forall s : Sys W,
    ProcessorSpec.deliversAll items s = true ->
    queueDir (snd (Obsidian.processItems items s))
    = fold_left (fun d x => Queue.dequeue (Queue.id x) d) items (queueDir s)
    /\ available (snd (Obsidian.processItems items s)) = available s.
Proof.
  induction items as [|item rest IH]; intros s H; [now split|].
  simpl in H. destruct (Queue.shouldDiscard item) eqn:D.
  - rewrite ProcessorFacts.processItems_discard by exact D.
    destruct (IH (snd (Obsidian.dequeue (Queue.id item) s)) H) as [E1 E2].
    rewrite E1, E2. now split.
  - destruct (Obsidian.processItem item s) as [ok s'] eqn:Hp.
    apply andb_true_iff in H. destruct H as [-> H].
    rewrite ProcessorFacts.processItems_delivered by (try exact D; now rewrite Hp).
    rewrite Hp. cbn [snd].
    destruct (IH (snd (Obsidian.dequeue (Queue.id item) s')) H) as [E1 E2].
    rewrite E1, E2.
    rewrite ProcessorFacts.processItem_spec in Hp. injection Hp as _ <-.
    now split.
Qed.


Lemma in_dequeueAll f items :
  forall dir,
    In f (fold_left (fun d x => Queue.dequeue (Queue.id x) d) items dir)
    <-> In f dir
        /\ forall x, In x items -> Queue.name f <> Queue.fileName (Queue.id x).
Proof.
  induction items as [|y items IH]; intro dir; simpl.
  - split; [intro H; split; [exact H | now intros x []] | now intros [H _]].
  - rewrite IH. unfold Queue.dequeue, Queue.unlink. rewrite filter_In, negb_true_iff.
    split.
    + intros [[Hin Hy] Hrest]. split; [exact Hin|].
      intros x [<-|Hx]; [now apply String.eqb_neq | now apply Hrest].
    + intros [Hin Hall]. split; [split; [exact Hin|]|].
      * apply String.eqb_neq. apply Hall. now left.
      * intros x Hx. apply Hall. now right.
Qed.

Lemma dirMixed_wellFormed : Queue.wellFormed Samples.dirMixed.
Proof.
  split.
  - simpl. repeat constructor; simpl; intuition discriminate.
  - simpl. intros f item Hf Hd.
    repeat (destruct Hf as [<-|Hf]; [try discriminate Hd; injection Hd as <-;
                                      reflexivity|]).
    contradiction.
Qed.

End TickFacts.

(** *** The pending items under another order of the listing *)

Module ListingFacts.
Import Queue.

Lemma filter_perm {A} (p : A -> bool) l l' :
  Permutation l l' -> Permutation (filter p l) (filter p l').
Proof.
  induction 1 as [|x l l' _ IH|x y l|l l' l'' _ IH1 _ IH2]; cbn [filter].
  - constructor.
  - destruct (p x); [now constructor | exact IH].
  - destruct (p x), (p y); try reflexivity. apply perm_swap.
  - now transitivity (filter p l').
Qed.

Lemma parsedItems_perm l l' :
  Permutation l l' -> Permutation (parsedItems l) (parsedItems l').
Proof.
  induction 1 as [|x l l' _ IH|x y l|l l' l'' _ IH1 _ IH2]; cbn [parsedItems].
  - constructor.
  - destruct (data x); [now constructor | exact IH].
  - destruct (data x), (data y); try reflexivity. apply perm_swap.
  - now transitivity (parsedItems l').
Qed.

(** The pending items are the same whatever the order of the listing. *)
Lemma readQueue_perm l l' :
  Permutation l l' -> Permutation (readQueue l) (readQueue l').
Proof.
  intro H. unfold readQueue. cbv zeta.
  etransitivity; [symmetry; apply QueueFacts.sort_perm|].
  etransitivity; [|apply QueueFacts.sort_perm].
  now apply parsedItems_perm, filter_perm.
Qed.

(** In a sorted list, an item younger than all the others is the last. *)
Lemma youngest_last (item : QueueItem) l old :
  StronglySorted olderOrSame l ->
  Permutation (item :: old) l ->
  (forall x, In x old -> (createdAt x < createdAt item)%Z) ->
  exists front, l = front ++ [item] /\ Permutation front old.
Proof.
  intros Hs Hp Hold.
  assert (Hin : In item l) by (apply (Permutation_in _ Hp); now left).
  apply in_split in Hin. destruct Hin as (front & back & ->).
  assert (Hrest : Permutation old (front ++ back)).
  { apply (Permutation_cons_app_inv front back (a := item)). exact Hp. }
  destruct back as [|y back].
  - exists front. split; [reflexivity|]. rewrite app_nil_r in Hrest. now symmetry.
  - exfalso.
    assert (Hy : In y old).
    { apply (Permutation_in _ (Permutation_sym Hrest)).
      apply in_or_app. right. now left. }
    specialize (Hold y Hy).
    assert (Hle : olderOrSame item y).
    { clear - Hs. induction front as [|f front IH]; simpl in Hs.
      - inversion Hs as [|? ? _ Hall]; subst.
        inversion Hall; subst. assumption.
      - inversion Hs; subst. now apply IH. }
    unfold olderOrSame in Hle. lia.
Qed.

End ListingFacts.

(** X1. [enqueue] with an identifier no file of
    the directory carries adds one pending item, with no retry behind it,
    and changes no other. Wherever the file system lists the new file,
    [readQueue] gives the items it gave before and the new one, sorted by
    their time stamps; and when the clock is ahead of the time stamps of
    all the pending items, the new item is the last of the list. With a
    time stamp equal to that of a pending item its place among them is the
    one the listing gives it. *)
Theorem enqueue_joins_the_queue :
  forall (uuid : string) (now : Z) (type : Queue.OpType) (path content : string)
         (dir listing : Queue.QueueDir),
    Queue.lookupFile (Queue.fileName uuid) dir = None ->
    Permutation listing (Queue.enqueue uuid now type path content dir) ->
    let item := Queue.mkQueueItem uuid type path content 0 now in
    In (Queue.mkQFile (Queue.fileName uuid) (Some item)) listing
    /\ Permutation (item :: Queue.readQueue dir) (Queue.readQueue listing)
    /\ StronglySorted Queue.olderOrSame (Queue.readQueue listing)
    /\ ((forall x, In x (Queue.readQueue dir) -> (Queue.createdAt x < now)%Z) ->
        exists front,
          Queue.readQueue listing = front ++ [item]
          /\ Permutation front (Queue.readQueue dir)).
Proof.
  intros uuid now type path content dir listing Hfresh Hlist item.
  assert (Ew : Queue.enqueue uuid now type path content dir
               = dir ++ [Queue.mkQFile (Queue.fileName uuid) (Some item)]).
  { unfold Queue.enqueue. cbv zeta. cbn [Queue.id].
    now apply QueueRoundTrips.writeFile_fresh. }
  rewrite Ew in Hlist.
  assert (Hperm : Permutation (item :: Queue.readQueue dir) (Queue.readQueue listing)).
  { etransitivity;
      [|apply ListingFacts.readQueue_perm; symmetry; exact Hlist].
    unfold Queue.readQueue. cbv zeta. rewrite filter_app. cbn [filter].
    rewrite QueueRoundTrips.isJsonFile_fileName, QueueRoundTrips.parsedItems_app.
    cbn [Queue.parsedItems Queue.data].
    etransitivity; [|apply QueueFacts.sort_perm].
    etransitivity; [|apply Permutation_cons_append].
    apply perm_skip. symmetry. apply QueueFacts.sort_perm. }
  assert (Hsorted : StronglySorted Queue.olderOrSame (Queue.readQueue listing))
    by apply QueueFacts.sort_sorted.
  split.
  { apply (Permutation_in _ (Permutation_sym Hlist)). apply in_or_app. right. now left. }
  split; [exact Hperm|]. split; [exact Hsorted|].
  intro Hclock. exact (ListingFacts.youngest_last item _ _ Hsorted Hperm Hclock).
Qed.

Lemma enqueue_joins_the_queue_witness :
  Queue.lookupFile (Queue.fileName "d") Samples.dirMixed = None
  /\ exists front,
       Queue.readQueue
         (Queue.mkQFile "d.json"
            (Some (Queue.mkQueueItem "d" Queue.create "notes/d.md" "D" 0 9))
          :: Samples.dirMixed)
       = front ++ [Queue.mkQueueItem "d" Queue.create "notes/d.md" "D" 0 9]
       /\ Permutation front (Queue.readQueue Samples.dirMixed).
Proof.
  split; [reflexivity|].
  refine (proj2 (proj2 (proj2
    (enqueue_joins_the_queue "d" 9%Z Queue.create "notes/d.md" "D" Samples.dirMixed
       (Queue.mkQFile "d.json"
          (Some (Queue.mkQueueItem "d" Queue.create "notes/d.md" "D" 0 9))
        :: Samples.dirMixed)
       eq_refl _))) _).
  - rewrite (QueueRoundTrips.writeFile_fresh
               (Queue.fileName "d")
               (Queue.mkQueueItem "d" Queue.create "notes/d.md" "D" 0 9)
               Samples.dirMixed eq_refl
             : Queue.enqueue "d" 9 Queue.create "notes/d.md" "D" Samples.dirMixed = _).
    apply Permutation_cons_append.
  - simpl. intros x Hx.
    repeat (destruct Hx as [<-|Hx]; [simpl; lia|]). contradiction.
Defined.

(** X2. [dequeue] removes the item with that identifier from the pending
    list and nothing else: the other items stay, in their order. It is
    idempotent, and on an identifier without a file it changes nothing. *)
Theorem dequeue_removes_that_item_only :
  forall (id : string) (dir : Queue.QueueDir),
    Queue.wellFormed dir ->
    Queue.readQueue (Queue.dequeue id dir)
    = filter (fun x => negb (String.eqb (Queue.id x) id)) (Queue.readQueue dir)
    /\ Queue.lookupFile (Queue.fileName id) (Queue.dequeue id dir) = None
    /\ Queue.dequeue id (Queue.dequeue id dir) = Queue.dequeue id dir
    /\ (Queue.lookupFile (Queue.fileName id) dir = None -> Queue.dequeue id dir = dir).
Proof.
  intros id dir Hwf.
  split; [now apply QueueRoundTrips.readQueue_dequeue|].
  split; [apply ProcessorFacts.lookup_unlink_same|].
  unfold Queue.dequeue, Queue.unlink. split.
  - apply TickFacts.filter_all. intros f Hf. apply filter_In in Hf. tauto.
  - intro Hnone. apply TickFacts.filter_all. intros f Hf.
    apply negb_true_iff. destruct (String.eqb (Queue.name f) (Queue.fileName id)) eqn:E;
      [|reflexivity].
    unfold Queue.lookupFile in Hnone.
    now rewrite (find_none _ _ Hnone f Hf) in E.
Qed.

Lemma dequeue_removes_that_item_only_witness :
  Queue.wellFormed Samples.dirMixed
  /\ Queue.readQueue (Queue.dequeue "a" Samples.dirMixed)
     = [Samples.itemOld; Samples.itemB; Samples.itemC].
Proof.
  split; [exact TickFacts.dirMixed_wellFormed|].
  exact (proj1 (dequeue_removes_that_item_only "a" Samples.dirMixed
                  TickFacts.dirMixed_wellFormed)).
Defined.

(** X3. [updateRetries] on a pending item rewrites that item in place: the
    pending list keeps its length and its order, the item has one retry more
    and its time stamp, and every other item is as it was. *)
Theorem updateRetries_keeps_the_order :
  forall (item : Queue.QueueItem) (dir : Queue.QueueDir),
    Queue.wellFormed dir ->
    In item (Queue.readQueue dir) ->
    Queue.readQueue (Queue.updateRetries item dir)
    = map (fun x => if String.eqb (Queue.id x) (Queue.id item)
                    then Queue.bumped item else x)
          (Queue.readQueue dir)
    /\ Queue.retries (Queue.bumped item) = (Queue.retries item + 1)%Z
    /\ Queue.createdAt (Queue.bumped item) = Queue.createdAt item
    /\ Queue.wellFormed (Queue.updateRetries item dir).
Proof.
  intros item dir Hwf Hin.
  split; [now apply QueueRoundTrips.readQueue_updateRetries|].
  split; [reflexivity|]. split; [reflexivity|].
  exact (GuardFacts.wellFormed_writeFile (Queue.bumped item) dir Hwf).
Qed.

Lemma updateRetries_keeps_the_order_witness :
  Queue.wellFormed Samples.dirMixed
  /\ In Samples.itemA (Queue.readQueue Samples.dirMixed)
  /\ Queue.readQueue (Queue.updateRetries Samples.itemA Samples.dirMixed)
     = [Samples.itemOld; Queue.bumped Samples.itemA; Samples.itemB; Samples.itemC].
Proof.
  assert (Hin : In Samples.itemA (Queue.readQueue Samples.dirMixed)).
  { right. left. reflexivity. }
  split; [exact TickFacts.dirMixed_wellFormed|]. split; [exact Hin|].
  exact (proj1 (updateRetries_keeps_the_order Samples.itemA Samples.dirMixed
                  TickFacts.dirMixed_wellFormed Hin)).
Defined.

(** *** A tick that fails on an item *)

Module RetryFacts.
Import Engine Obsidian.

Section WithRuntime.
Context {W : Type} {RT : Runtime W}.

(** The loop of a tick that fails on [item] after the items [pre]. *)
Lemma loop_fails_at (start : Sys W) pre item post :
  Queue.wellFormed (queueDir start) ->
  Queue.readQueue (queueDir start) = pre ++ item :: post ->
  ProcessorSpec.deliversAll pre start = true ->
  Queue.shouldDiscard item = false ->
  fst (processItem item (snd (processItems pre start))) = false ->
  Queue.readQueue (queueDir (snd (processItems (pre ++ item :: post) start)))
  = Queue.bumped item :: post
  /\ available (snd (processItems (pre ++ item :: post) start)) = false.
Proof.
  intros Hwf Hq Hpre Hd Hfail.
  rewrite ProcessorFacts.processItems_app by exact Hpre.
  rewrite ProcessorFacts.processItems_failed by assumption.
  split; [|reflexivity].
  rewrite ProcessorFacts.processItem_spec. cbn [snd].
  destruct (TickFacts.deliversAll_state pre start Hpre) as [Edir _].
  set (s1 := snd (processItems pre start)) in *.
  change (Queue.readQueue (Queue.updateRetries item (queueDir s1))
          = Queue.bumped item :: post).
  pose proof (ProcessorFacts.readQueue_NoDup _ Hwf) as Hnd. rewrite Hq in Hnd.
  assert (Hq1 : Queue.readQueue (queueDir s1) = item :: post).
  { rewrite Edir, TickFacts.readQueue_dequeueAll by exact Hwf.
    rewrite Hq. now apply TickFacts.filter_out_prefix. }
  rewrite QueueRoundTrips.readQueue_updateRetries.
  - rewrite Hq1. cbn [map]. rewrite String.eqb_refl. f_equal.
    rewrite <- (map_id post) at 2. apply map_ext_in. intros x Hx.
    destruct (String.eqb_spec (Queue.id x) (Queue.id item)) as [E|]; [|reflexivity].
    rewrite map_app in Hnd. apply NoDup_app_remove_l in Hnd.
    simpl in Hnd. inversion Hnd as [|? ? Hni _]; subst.
    elim Hni. rewrite <- E. now apply in_map.
  - rewrite Edir. now apply TickFacts.dequeueAll_wellFormed.
  - rewrite Hq1. now left.
Qed.

(** A tick whose loop runs is the loop from the state it starts in: the
    state of the tick when the flag is up, the state after the probe when
    it is down and the probe is answered well. *)
Lemma processQueue_runs (s : Sys W) :
  let start := if available s then s else snd (healthCheck s) in
  available start = true ->
  processQueue s = processItems (Queue.readQueue (queueDir s)) start
  /\ queueDir start = queueDir s.
Proof.
  cbv zeta. destruct (available s) eqn:Ha.
  - intros _. split; [now apply ProcessorFacts.processQueue_available | reflexivity].
  - rewrite ProcessorFacts.healthCheck_spec. cbn [snd]. intro Hp.
    rewrite ProcessorFacts.processQueue_unavailable by exact Ha.
    now rewrite Hp.
Qed.

End WithRuntime.

End RetryFacts.

(** X4. Head-of-line retry. When a tick
    fails on an item, the next read of the queue starts with that item, one
    retry higher, followed by the items that were behind it: the items in
    front of it are gone and nothing has overtaken it; and the flag is down.
    This holds of every tick whose loop runs: one that starts with the flag
    up, and one that starts with the flag down and a probe that is answered
    well, as every retry after a failure does. *)
Theorem failed_item_is_retried_first :
  forall (W : Type) (RT : Engine.Runtime W) (s : Engine.Sys W)
         (pre : list Queue.QueueItem) (item : Queue.QueueItem)
         (post : list Queue.QueueItem),
    Queue.wellFormed (Engine.queueDir s) ->
    let start := if Engine.available s then s else snd (Obsidian.healthCheck s) in
    Engine.available start = true ->
    Queue.readQueue (Engine.queueDir s) = pre ++ item :: post ->
    ProcessorSpec.deliversAll pre start = true ->
    Queue.shouldDiscard item = false ->
    fst (Obsidian.processItem item (snd (Obsidian.processItems pre start))) = false ->
    Queue.readQueue (Engine.queueDir (snd (Obsidian.processQueue s)))
    = Queue.bumped item :: post
    /\ Engine.available (snd (Obsidian.processQueue s)) = false.
Proof.
  intros W RT s pre item post Hwf start Hrun Hq Hpre Hd Hfail.
  destruct (RetryFacts.processQueue_runs s Hrun) as [E Edir]. fold start in E, Edir.
  rewrite E, Hq.
  apply RetryFacts.loop_fails_at; try assumption; now rewrite Edir.
Qed.

Lemma failed_item_is_retried_first_witness :
  Engine.available (snd (Obsidian.processQueue (RT := Script.runtime)
                           Samples.retryState)) = false
  /\ Queue.readQueue
       (Engine.queueDir (snd (Obsidian.processQueue (RT := Script.runtime)
                                Samples.retryState)))
     = [Queue.bumped Samples.itemB; Samples.itemC]
  /\ Queue.readQueue
       (Engine.queueDir
          (snd (Obsidian.processQueue (RT := Script.runtime)
                  (snd (Obsidian.processQueue (RT := Script.runtime)
                          Samples.retryState)))))
     = [Queue.bumped (Queue.bumped Samples.itemB); Samples.itemC].
Proof.
  assert (Hwf : Queue.wellFormed (Engine.queueDir Samples.retryState))
    by exact TickFacts.dirMixed_wellFormed.
  destruct (failed_item_is_retried_first Script.World Script.runtime
              Samples.retryState [Samples.itemOld; Samples.itemA] Samples.itemB
              [Samples.itemC] Hwf eq_refl eq_refl eq_refl eq_refl eq_refl)
    as [Q1 A1].
  split; [exact A1|]. split; [exact Q1|].
  exact (proj1 (failed_item_is_retried_first Script.World Script.runtime
                  (snd (Obsidian.processQueue (RT := Script.runtime)
                          Samples.retryState))
                  [] (Queue.bumped Samples.itemB) [Samples.itemC]
                  (GuardFacts.wellFormed_processQueue _ Hwf)
                  eq_refl eq_refl eq_refl eq_refl eq_refl)).
Defined.

(** X5. A tick against a sink that takes every request drains the queue:
    afterwards no item is pending, the flag is still set, and the files that
    were not pending items (other names, unreadable content) are all still
    there. *)
Theorem healthy_tick_drains_the_queue :
  forall (W : Type) (RT : Engine.Runtime W) (s : Engine.Sys W),
    Queue.wellFormed (Engine.queueDir s) ->
    Engine.available s = true ->
    ProcessorSpec.deliversAll (Queue.readQueue (Engine.queueDir s)) s = true ->
    let s' := snd (Obsidian.processQueue s) in
    Queue.readQueue (Engine.queueDir s') = []
    /\ Engine.available s' = true
    /\ (forall f, In f (Engine.queueDir s') -> In f (Engine.queueDir s))
    /\ (forall f, In f (Engine.queueDir s) ->
                  Queue.isJsonFile f = false \/ Queue.data f = None ->
                  In f (Engine.queueDir s')).
Proof.
  intros W RT s Hwf Ha Hall s'.
  unfold s'. rewrite ProcessorFacts.processQueue_available by exact Ha.
  destruct (TickFacts.deliversAll_state _ s Hall) as [Edir Eav].
  rewrite Edir, Eav. split; [|split; [exact Ha|split]].
  - rewrite TickFacts.readQueue_dequeueAll by exact Hwf.
    apply TickFacts.filter_none. intros x Hx. apply negb_false_iff.
    apply TickFacts.existsb_id. now apply in_map.
  - intros f Hf. now apply TickFacts.in_dequeueAll in Hf.
  - intros f Hf Hnot. apply TickFacts.in_dequeueAll. split; [exact Hf|].
    intros x Hx E. apply ProcessorFacts.readQueue_in in Hx.
    destruct Hx as (g & Hg & Hgj & Hgd).
    destruct Hwf as [Hnd Hname].
    rewrite <- (Hname g x Hg Hgd) in E.
    rewrite (ProcessorFacts.same_name_same_file f g _ Hnd Hf Hg E) in Hnot.
    destruct Hnot; congruence.
Qed.


Lemma healthy_tick_drains_the_queue_witness :
  Queue.wellFormed (Engine.queueDir Samples.drainState)
  /\ Engine.queueDir (snd (Obsidian.processQueue (RT := Script.runtime) Samples.drainState))
     = [Queue.mkQFile "partial.json" None; Queue.mkQFile "README" None]
  /\ Queue.readQueue
       (Engine.queueDir (snd (Obsidian.processQueue (RT := Script.runtime) Samples.drainState)))
     = [].
Proof.
  split; [exact TickFacts.dirMixed_wellFormed|]. split; [reflexivity|].
  exact (proj1 (healthy_tick_drains_the_queue Script.World Script.runtime Samples.drainState
                  TickFacts.dirMixed_wellFormed eq_refl eq_refl)).
Defined.

(** X6. While the flag is down, a tick starts with one health probe; when the
    probe fails the tick ends there: the queue directory, the tracker maps
    and the issued calls are as before, the flag stays down, and the probe
    is the only request sent. *)
Theorem tick_skipped_while_sink_is_down :
  forall (W : Type) (RT : Engine.Runtime W) (s : Engine.Sys W),
    Engine.available s = false ->
    (forall status text,
        fst (Engine.fetch (Engine.world s) Engine.HealthProbe)
        = Engine.Response status text ->
        Engine.ok status = false) ->
    let s' := snd (Obsidian.processQueue s) in
    Engine.queueDir s' = Engine.queueDir s
    /\ Engine.available s' = false
    /\ Engine.trace s'
       = Engine.trace s
           ++ [Engine.EFetch Engine.HealthProbe
                 (fst (Engine.fetch (Engine.world s) Engine.HealthProbe))]
    /\ Engine.sessions s' = Engine.sessions s
    /\ Engine.deletionFailures s' = Engine.deletionFailures s
    /\ Engine.outbox s' = Engine.outbox s.
Proof.
  intros W RT s Ha Hprobe s'. unfold s'.
  rewrite ProcessorFacts.processQueue_unavailable by exact Ha.
  assert (E : Engine.available (ProcessorSpec.probed s) = false).
  { unfold ProcessorSpec.probed.
    destruct (fst (Engine.fetch (Engine.world s) Engine.HealthProbe))
      as [status text|] eqn:R; simpl; [|reflexivity].
    exact (Hprobe status text eq_refl). }
  rewrite E. cbn [snd]. unfold ProcessorSpec.probed. simpl.
  repeat split.
  destruct (fst (Engine.fetch (Engine.world s) Engine.HealthProbe)); [|reflexivity].
  now apply (Hprobe status text).
Qed.

Lemma tick_skipped_while_sink_is_down_witness :
  Engine.available Samples.downState = false
  /\ Engine.trace (snd (Obsidian.processQueue (RT := Script.runtime) Samples.downState))
     = [Engine.EFetch Engine.HealthProbe Script.errorResponse].
Proof.
  split; [reflexivity|].
  refine (proj1 (proj2 (proj2
    (tick_skipped_while_sink_is_down Script.World Script.runtime Samples.downState
       eq_refl _)))).
  simpl. intros status text E. injection E as <- _. reflexivity.
Defined.

(** X7. The sink answering 404 to a delete counts as delivered: the item is
    removed and the loop goes on with the next one. The same answer to a
    create or an update is a failure: the flag is cleared, the item stays
    with one retry more, and the tick ends. *)
Theorem delete_answered_404_is_delivered :
  forall (W : Type) (RT : Engine.Runtime W) (item : Queue.QueueItem)
         (rest : list Queue.QueueItem) (s : Engine.Sys W) (text : option string),
    Queue.shouldDiscard item = false ->
    fst (Engine.fetch (Engine.world s) (ProcessorSpec.requestOf item))
    = Engine.Response 404 text ->
    let s1 := snd (Obsidian.processItem item s) in
    let final := snd (Obsidian.processItems (item :: rest) s) in
    match Queue.type item with
    | Queue.delete =>
        Obsidian.processItems (item :: rest) s
        = Obsidian.processItems rest (snd (Obsidian.dequeue (Queue.id item) s1))
        /\ Engine.available s1 = Engine.available s
    | _ =>
        Engine.available final = false
        /\ Engine.queueDir final = Queue.updateRetries item (Engine.queueDir s)
        /\ Engine.trace final
           = Engine.trace s
               ++ [Engine.EFetch (ProcessorSpec.requestOf item) (Engine.Response 404 text);
                   Engine.EWriteFile (Queue.fileName (Queue.id item))
                                     (Queue.bumped item)]
    end.
Proof.
  intros W RT item rest s text Hd Hres s1 final.
  assert (Hok : fst (Obsidian.processItem item s)
                = ProcessorSpec.delivered (Queue.type item) (Engine.Response 404 text)).
  { rewrite ProcessorFacts.processItem_spec. cbn [fst]. now rewrite Hres. }
  assert (Hs1 : s1 = Engine.logEffect
                       (Engine.EFetch (ProcessorSpec.requestOf item)
                                      (Engine.Response 404 text))
                       (Engine.setWorld
                          (snd (Engine.fetch (Engine.world s)
                                             (ProcessorSpec.requestOf item))) s)).
  { unfold s1. rewrite ProcessorFacts.processItem_spec. cbn [snd]. now rewrite Hres. }
  destruct (Queue.type item) eqn:T; simpl in Hok.
  - unfold final. rewrite ProcessorFacts.processItems_failed by assumption.
    fold s1. rewrite Hs1. simpl. rewrite <- app_assoc. auto.
  - unfold final. rewrite ProcessorFacts.processItems_failed by assumption.
    fold s1. rewrite Hs1. simpl. rewrite <- app_assoc. auto.
  - split; [now apply ProcessorFacts.processItems_delivered|].
    now rewrite Hs1.
Qed.

Lemma delete_answered_404_is_delivered_witness :
  Queue.shouldDiscard Samples.itemB = false
  /\ Engine.queueDir
       (snd (Obsidian.processItems (RT := Script.runtime) [Samples.itemB]
               Samples.goneState))
     = [Samples.fileOf Samples.itemA].
Proof.
  split; [reflexivity|].
  pose proof (delete_answered_404_is_delivered Script.World Script.runtime
                Samples.itemB [] Samples.goneState None eq_refl eq_refl) as H.
  cbv zeta in H. change (Queue.type Samples.itemB) with Queue.delete in H.
  cbv iota in H. rewrite (proj1 H). reflexivity.
Defined.

(** ** Texts: where a pattern starts *)

Module TextFacts.
Import JsText TextSpec.

Lemma startsWith_step a p b s :
  startsWith (a :: p) (b :: s) = Ascii.eqb a b && startsWith p s.
Proof. reflexivity. Qed.

Lemma startsWith_true p s : startsWith p s = true -> s = p ++ skipn (List.length p) s.
Proof.
  revert s. induction p as [|a p IH]; intros s H; [reflexivity|].
  destruct s as [|b s]; [discriminate|]. simpl in H.
  apply andb_true_iff in H. destruct H as [E H].
  apply Ascii.eqb_eq in E. subst b. simpl. f_equal. now apply IH.
Qed.

Lemma noStart_app pat t1 t2 x :
  NoStart pat t1 (t2 ++ x) -> NoStart pat t2 x -> NoStart pat (t1 ++ t2) x.
Proof.
  intros H1 H2 a b E Hb. apply app_eq_app in E.
  destruct E as (l & [[E1 E2]|[E1 E2]]).
  - destruct l as [|c l].
    + rewrite app_nil_l in E2. subst b. apply (H2 [] t2 eq_refl Hb).
    + subst b. rewrite <- app_assoc. apply (H1 a (c :: l) E1). discriminate.
  - apply (H2 l b E2 Hb).
Qed.

(** A text without the first character of the pattern holds no start of
    it. *)
Lemma noStart_plain c pat t x :
  Forall (fun d => Ascii.eqb c d = false) t -> NoStart (c :: pat) t x.
Proof.
  intros Hall a b E Hb. subst t. apply Forall_app in Hall. destruct Hall as [_ Hall].
  destruct b as [|d b]; [now elim Hb|].
  inversion Hall as [|? ? Hd _]; subst.
  cbn [app]. rewrite startsWith_step, Hd. reflexivity.
Qed.

Lemma noStart_one c pat x :
  startsWith pat x = false -> NoStart (c :: pat) [c] x.
Proof.
  intros H a b E Hb. destruct a as [|a0 a].
  - cbn [app] in E. subst b. cbn [app]. rewrite startsWith_step, H.
    apply andb_false_r.
  - destruct a; destruct b; try discriminate E. now elim Hb.
Qed.

Lemma startsWith_length p s : startsWith p s = true -> List.length p <= List.length s.
Proof.
  revert s. induction p as [|a p IH]; intros s H; [simpl; lia|].
  destruct s as [|b s]; [discriminate|].
  rewrite startsWith_step in H. apply andb_true_iff in H. destruct H as [_ H].
  simpl. apply IH in H. lia.
Qed.

(** A pattern free of [c] that starts a text cut by [c] starts the part
    in front of the cut. *)
Lemma startsWith_before c q :
  Forall (fun d => Ascii.eqb d c = false) q ->
  forall p r, startsWith q (p ++ c :: r) = true -> startsWith q p = true.
Proof.
  induction 1 as [|a q Ha Hq IH]; intros p r H; [reflexivity|].
  destruct p as [|b p].
  - cbn [app] in H. rewrite startsWith_step, Ha in H. discriminate.
  - change ((b :: p) ++ c :: r) with (b :: (p ++ c :: r)) in H.
    rewrite startsWith_step in *. apply andb_true_iff in H. destruct H as [E H].
    rewrite E. simpl. now apply (IH p r).
Qed.

(** A pattern that ends with its only [c] and starts a text cut at its
    first [c] is the part in front of the cut, followed by [c]. *)
Lemma startsWith_upto c q :
  Forall (fun d => Ascii.eqb d c = false) q ->
  forall p r,
    Forall (fun d => Ascii.eqb c d = false) p ->
    startsWith (q ++ [c]) (p ++ c :: r) = true -> p = q.
Proof.
  induction 1 as [|a q Ha Hq IH]; intros p r Hp H.
  - destruct p as [|b p]; [reflexivity|].
    change (([] ++ [c])) with [c] in H.
    change ((b :: p) ++ c :: r) with (b :: (p ++ c :: r)) in H.
    rewrite startsWith_step in H. inversion Hp as [|? ? Hb _]; subst.
    rewrite Hb in H. discriminate.
  - destruct p as [|b p].
    + change (((a :: q) ++ [c])) with (a :: (q ++ [c])) in H.
      cbn [app] in H. rewrite startsWith_step, Ha in H. discriminate.
    + change (((a :: q) ++ [c])) with (a :: (q ++ [c])) in H.
      change ((b :: p) ++ c :: r) with (b :: (p ++ c :: r)) in H.
      rewrite startsWith_step in H. apply andb_true_iff in H. destruct H as [E H].
      apply Ascii.eqb_eq in E. subst b. inversion Hp; subst.
      f_equal. now apply (IH p r).
Qed.

Lemma indexOf_unfold p s :
  indexOf p s
  = if startsWith p s then Some 0
    else match s with
         | [] => None
         | _ :: s' => option_map S (indexOf p s')
         end.
Proof. destruct s; reflexivity. Qed.

Lemma indexOf_at pat pre post :
  NoStart pat pre (pat ++ post) ->
  indexOf pat (pre ++ pat ++ post) = Some (List.length pre).
Proof.
  induction pre as [|c pre IH]; intro Hno.
  - cbn [app List.length]. rewrite indexOf_unfold.
    now rewrite QueueRoundTrips.startsWith_app.
  - rewrite indexOf_unfold.
    rewrite (Hno [] (c :: pre) eq_refl) by discriminate.
    change ((c :: pre) ++ pat ++ post) with (c :: (pre ++ pat ++ post)).
    cbv iota. rewrite IH; [reflexivity|].
    intros a b E Hb. apply (Hno (c :: a) b); [now rewrite E | exact Hb].
Qed.

(** [replace] changes the first occurrence of the pattern. *)
Lemma replaceFirst_at pat r pre post :
  NoStart pat pre (pat ++ post) ->
  replaceFirst pat r (pre ++ pat ++ post) = pre ++ r ++ post.
Proof.
  intro Hno. unfold replaceFirst. rewrite (indexOf_at pat pre post Hno).
  assert (E1 : firstn (List.length pre) (pre ++ pat ++ post) = pre).
  { rewrite firstn_app, Nat.sub_diag, firstn_all. cbn [firstn]. apply app_nil_r. }
  assert (E2 : skipn (List.length pre + List.length pat) (pre ++ pat ++ post) = post).
  { rewrite app_assoc, <- length_app, skipn_app, Nat.sub_diag, skipn_all.
    reflexivity. }
  now rewrite E1, E2.
Qed.

Lemma toString_ofString s : toString (ofString s) = s.
Proof. apply string_of_list_ascii_of_string. Qed.

Lemma substring_chars (P : ascii -> Prop) s :
  Forall P (ofString s) -> forall n m, Forall P (ofString (substring n m s)).
Proof.
  induction s as [|c s IH]; intros H n m.
  - destruct n, m; constructor.
  - inversion H as [|? ? Hc Hs]; subst.
    destruct n as [|n].
    + destruct m as [|m]; [constructor|].
      cbn [substring]. constructor; [exact Hc | now apply IH].
    + cbn [substring]. now apply IH.
Qed.

Lemma substring_length s : forall n m, String.length (substring n m s) <= m.
Proof.
  induction s as [|c s IH]; intros n m.
  - destruct n, m; simpl; lia.
  - destruct n as [|n].
    + destruct m as [|m]; [simpl; lia|].
      cbn [substring String.length]. specialize (IH 0 m). lia.
    + cbn [substring]. apply IH.
Qed.

Lemma noSlash_plain s :
  noSlash s = true -> Forall (fun d => Ascii.eqb slash d = false) (ofString s).
Proof.
  unfold noSlash. intro H. apply negb_true_iff in H.
  apply Forall_forall. intros d Hd.
  destruct (Ascii.eqb_spec slash d) as [<-|]; [|reflexivity].
  assert (E : existsb (isChar 47) (ofString s) = true).
  { apply existsb_exists. exists slash. split; [exact Hd | reflexivity]. }
  congruence.
Qed.

End TextFacts.

(** ** The front matter and the sections of a transcript *)

Module FrontmatterFacts.
Import JsText TextSpec TextFacts Splitter SplitterSpec.

Lemma findClose_sound s :
  forall fm rest,
    findClose s = Some (fm, rest) ->
    s = fm ++ closeFence ++ rest /\ NoFence fm (closeFence ++ rest).
Proof.
  induction s as [|c s IH]; intros fm rest H.
  - discriminate H.
  - cbn [findClose] in H.
    destruct (startsWith closeFence (c :: s)) eqn:Hs.
    + injection H as <- <-. split.
      * exact (startsWith_true closeFence (c :: s) Hs).
      * intros a b E Hb. symmetry in E. apply app_eq_nil in E. now destruct E.
    + destruct (findClose s) as [[fm' rest']|] eqn:Hf; [|discriminate].
      injection H as <- <-.
      destruct (IH fm' rest' eq_refl) as [E Hno]. split.
      * change ((c :: fm') ++ closeFence ++ rest')
          with (c :: (fm' ++ closeFence ++ rest')).
        now rewrite <- E.
      * intros a b Eab Hb. destruct a as [|a0 a].
        -- cbn [app] in Eab. subst b.
           change ((c :: fm') ++ closeFence ++ rest')
             with (c :: (fm' ++ closeFence ++ rest')).
           rewrite <- E. exact Hs.
        -- injection Eab as _ Eab. now apply (Hno a b).
Qed.

Lemma findClose_complete fm :
  forall rest,
    NoFence fm (closeFence ++ rest) ->
    findClose (fm ++ closeFence ++ rest) = Some (fm, rest).
Proof.
  induction fm as [|c fm IH]; intros rest Hno.
  - change ([] ++ closeFence ++ rest) with (nl :: ofString "---" ++ [nl] ++ rest).
    reflexivity.
  - change ((c :: fm) ++ closeFence ++ rest) with (c :: (fm ++ closeFence ++ rest)).
    cbn [findClose].
    change (c :: (fm ++ closeFence ++ rest)) with ((c :: fm) ++ closeFence ++ rest).
    rewrite (Hno [] (c :: fm) eq_refl) by discriminate.
    rewrite IH; [reflexivity|].
    intros a b E Hb. apply (Hno (c :: a) b); [now rewrite E | exact Hb].
Qed.

Lemma matchFrontmatter_iff md fm body :
  matchFrontmatter md = Some (fm, body)
  <-> md = openFence ++ fm ++ closeFence ++ body /\ NoFence fm (closeFence ++ body).
Proof.
  unfold matchFrontmatter. split.
  - destruct (startsWith openFence md) eqn:Hs; [|discriminate].
    intro H. apply findClose_sound in H. destruct H as [E Hno].
    split; [|exact Hno].
    rewrite (startsWith_true _ _ Hs). now rewrite <- E.
  - intros [-> Hno]. rewrite QueueRoundTrips.startsWith_app.
    change (skipn 4 (openFence ++ fm ++ closeFence ++ body))
      with (fm ++ closeFence ++ body).
    now apply findClose_complete.
Qed.

Lemma hd_startsWith p :
  Forall (fun c => isLineTerminator c = false) p ->
  forall s, startsWith p s = true -> startsWith p (hd [] (splitSections s)) = true.
Proof.
  induction 1 as [|a p Ha Hp IH]; intros s H; [reflexivity|].
  destruct s as [|b s]; [discriminate|]. simpl in H.
  apply andb_true_iff in H. destruct H as [E H].
  pose proof E as E'. apply Ascii.eqb_eq in E'. subst b.
  cbn [splitSections]. specialize (IH s H).
  pose proof (SplitterFacts.splitSections_nonempty s) as Hne.
  destruct (splitSections s) as [|h t]; [now elim Hne|].
  rewrite Ha. simpl. now rewrite Ascii.eqb_refl.
Qed.

Lemma hd_isMessageHeader s :
  isMessageHeader s = true -> isMessageHeader (hd [] (splitSections s)) = true.
Proof.
  unfold isMessageHeader. intro H. apply orb_true_iff in H. apply orb_true_iff.
  destruct H as [H|H]; [left|right]; (apply hd_startsWith; [|exact H]);
    repeat constructor.
Qed.

Lemma splitSections_headings s :
  Forall (fun sec => isMessageHeader sec = true) (tl (splitSections s))
  /\ List.length (tl (splitSections s)) = headingStarts s.
Proof.
  induction s as [|c s [IH1 IH2]]; [split; [constructor | reflexivity]|].
  cbn [splitSections headingStarts].
  pose proof (hd_isMessageHeader s) as Hh.
  destruct (splitSections s) as [|h t] eqn:Hs.
  - now elim (SplitterFacts.splitSections_nonempty s).
  - simpl in IH1, IH2, Hh.
    destruct (isLineTerminator c && isMessageHeader s) eqn:Hcut.
    + cbn [tl List.length]. split; [|now rewrite IH2].
      constructor; [|exact IH1].
      apply andb_true_iff in Hcut. now apply Hh.
    + cbn [tl]. split; [exact IH1 | now rewrite IH2].
Qed.

(** *** The front matter of a part *)

Lemma closeFence_eq : closeFence = [nl; dash; dash; dash; nl].
Proof. reflexivity. Qed.

Lemma noFence_plain t x : Forall (fun c => Ascii.eqb nl c = false) t -> NoFence t x.
Proof.
  intro H. unfold NoFence. rewrite closeFence_eq. now apply noStart_plain.
Qed.

Lemma noFence_newline c x : Ascii.eqb dash c = false -> NoFence [nl] (c :: x).
Proof.
  intro Hc. unfold NoFence. rewrite closeFence_eq. apply noStart_one.
  now rewrite startsWith_step, Hc.
Qed.

(** A front matter that holds no closing fence when the fence follows it
    holds none when another line follows it. *)
Lemma noFence_next_line fm c x y :
  Ascii.eqb dash c = false ->
  NoFence fm (closeFence ++ y) -> NoFence fm (nl :: c :: x).
Proof.
  intros Hc Hno a b E Hb. specialize (Hno a b E Hb).
  rewrite closeFence_eq in *.
  assert (Hnl : Ascii.eqb dash nl = false) by reflexivity.
  destruct b as [|b1 [|b2 [|b3 [|b4 [|b5 b]]]]]; [now elim Hb| | | | |];
    cbn [app] in *; rewrite ?startsWith_step in *.
  - rewrite Hnl. now rewrite andb_false_r.
  - rewrite Hnl. now rewrite !andb_false_r.
  - rewrite Hnl. now rewrite !andb_false_r.
  - rewrite Ascii.eqb_refl in *.
    destruct (Ascii.eqb nl b1), (Ascii.eqb dash b2), (Ascii.eqb dash b3),
      (Ascii.eqb dash b4); try reflexivity. exact Hno.
  - destruct x; exact Hno.
Qed.

Lemma digits_plain (d : Decimal.uint) :
  Forall (fun c => Ascii.eqb nl c = false) (ofString (NilEmpty.string_of_uint d)).
Proof.
  induction d; simpl; constructor; try assumption; reflexivity.
Qed.

Lemma partFrontmatter_noFence fm part total y body :
  NoFence fm (closeFence ++ y) ->
  NoFence (partFrontmatter fm part total) (closeFence ++ body).
Proof.
  intro Hno. unfold partFrontmatter.
  unfold NoFence. apply noStart_app.
  - change ((nl :: ofString "part: " ++ decimal part
               ++ nl :: ofString "total_parts: " ++ decimal total)
            ++ closeFence ++ body)
      with (nl :: ascii_of_N 112
               :: (ofString "art: " ++ decimal part
                     ++ nl :: ofString "total_parts: " ++ decimal total)
                  ++ closeFence ++ body).
    now apply (noFence_next_line fm _ _ y).
  - change (nl :: ofString "part: " ++ decimal part
               ++ nl :: ofString "total_parts: " ++ decimal total)
      with ([nl] ++ (ofString "part: " ++ decimal part)
                 ++ [nl] ++ (ofString "total_parts: " ++ decimal total)).
    apply noStart_app; [|apply noStart_app; [|apply noStart_app]].
    + now apply noFence_newline.
    + apply noFence_plain. apply Forall_app. split.
      * repeat constructor.
      * apply digits_plain.
    + now apply noFence_newline.
    + apply noFence_plain. apply Forall_app. split.
      * repeat constructor.
      * apply digits_plain.
Qed.

Lemma part_reparse md fm body part total b :
  matchFrontmatter md = Some (fm, body) ->
  matchFrontmatter (partMarkdown fm part total b)
  = Some (partFrontmatter fm part total, b).
Proof.
  intro H. apply matchFrontmatter_iff in H. destruct H as [_ Hno].
  apply matchFrontmatter_iff. split; [reflexivity|].
  now apply (partFrontmatter_noFence fm part total body).
Qed.

End FrontmatterFacts.

(** X14. The front matter the splitter
    finds is the text between the opening fence at the start of the document
    and the first closing fence after it, and the body is all that follows
    that fence: fence, front matter, fence and body make up the document
    again, and no closing fence starts inside the front matter. A document
    is matched exactly when it can be cut that way. *)
Theorem frontmatter_is_cut_at_first_fence :
  forall (md : string) (fm body : JsText.chars),
    Splitter.matchFrontmatter (JsText.ofString md) = Some (fm, body)
    <-> JsText.ofString md = Splitter.openFence ++ fm ++ Splitter.closeFence ++ body
        /\ SplitterSpec.NoFence fm (Splitter.closeFence ++ body).
Proof. intros md fm body. apply FrontmatterFacts.matchFrontmatter_iff. Qed.

(** X15. The split of a body into sections loses
    nothing and cuts exactly in front of the message headings that begin a
    line: the sections make up the body again, every section after the first
    begins with a user or assistant heading, and there are as many of them as
    line starts with such a heading. *)
Theorem sections_start_with_headings :
  forall body : JsText.chars,
    List.concat (Splitter.splitSections body) = body
    /\ Forall (fun section => Splitter.isMessageHeader section = true)
              (tl (Splitter.splitSections body))
    /\ List.length (tl (Splitter.splitSections body)) = SplitterSpec.headingStarts body.
Proof.
  intro body. split; [apply SplitterFacts.splitSections_concat|].
  apply FrontmatterFacts.splitSections_headings.
Qed.

(** X16. Every part [splitIfNeeded] makes of a long
    transcript is a document of the same kind: matched against the front
    matter pattern again, it gives the front matter of the original followed
    by its [part] and [total_parts] lines, and as body the sections of that
    part. *)
Theorem parts_parse_back :
  forall (md : string) (maxMessages : nat) (fm body : JsText.chars),
    0 < maxMessages ->
    Splitter.matchFrontmatter (JsText.ofString md) = Some (fm, body) ->
    maxMessages < List.length (tl (Splitter.splitSections body)) ->
    Forall
      (fun p =>
         Splitter.matchFrontmatter (JsText.ofString (Splitter.markdown p))
         = Some (Splitter.partFrontmatter fm (Splitter.partNumber p)
                                          (Splitter.totalParts p),
                 Splitter.partBody (hd [] (Splitter.splitSections body))
                                   (tl (Splitter.splitSections body))
                                   maxMessages (Splitter.partNumber p - 1)))
      (Splitter.splitIfNeeded md maxMessages).
Proof.
  intros md maxMessages fm body Hpos Hm Hlong.
  unfold Splitter.splitIfNeeded. rewrite Hm.
  apply Nat.leb_gt in Hlong. rewrite Hlong.
  apply Forall_forall. intros p Hp. apply in_map_iff in Hp.
  destruct Hp as (i & <- & _). cbn [Splitter.markdown Splitter.partNumber
                                     Splitter.totalParts].
  rewrite JsTextFacts.ofString_toString.
  replace (i + 1 - 1) with i by lia.
  now apply (FrontmatterFacts.part_reparse (JsText.ofString md) fm body).
Qed.

Lemma parts_parse_back_witness :
  0 < 1
  /\ Splitter.matchFrontmatter (JsText.ofString Samples.sampleDocument)
     = Some (JsText.ofString "title: demo", JsText.ofString Samples.sampleBody)
  /\ 1 < List.length (tl (Splitter.splitSections (JsText.ofString Samples.sampleBody)))
  /\ Forall
       (fun p =>
          Splitter.matchFrontmatter (JsText.ofString (Splitter.markdown p))
          = Some (Splitter.partFrontmatter (JsText.ofString "title: demo")
                    (Splitter.partNumber p) (Splitter.totalParts p),
                  Splitter.partBody
                    (hd [] (Splitter.splitSections (JsText.ofString Samples.sampleBody)))
                    (tl (Splitter.splitSections (JsText.ofString Samples.sampleBody)))
                    1 (Splitter.partNumber p - 1)))
       (Splitter.splitIfNeeded Samples.sampleDocument 1).
Proof.
  assert (H0 : 0 < 1) by lia.
  assert (Hlong : 1 < List.length
                        (tl (Splitter.splitSections
                               (JsText.ofString Samples.sampleBody))))
    by (vm_compute; lia).
  split; [exact H0|]. split; [reflexivity|]. split; [exact Hlong|].
  exact (parts_parse_back Samples.sampleDocument 1 (JsText.ofString "title: demo")
           (JsText.ofString Samples.sampleBody) H0 eq_refl Hlong).
Defined.

(** ** The slug of a slug *)

Module SlugAgainFacts.
Import JsText JsTextFacts Slug SlugFacts.

Lemma join_cons sep c h t : join sep ((c :: h) :: t) = c :: join sep (h :: t).
Proof. destruct t; reflexivity. Qed.

(** Splitting at the dashes and joining with dashes gives the text back. *)
Lemma join_splitOn r : join [dash] (splitOn isDash r) = r.
Proof.
  induction r as [|c r IH]; [reflexivity|].
  cbn [splitOn]. pose proof (splitOn_nonempty isDash r) as Hne.
  destruct (splitOn isDash r) as [|h t]; [now elim Hne|].
  destruct (isDash c) eqn:D.
  - apply isDash_eq in D. subst c.
    change (dash :: join [dash] (h :: t) = dash :: r). f_equal. exact IH.
  - rewrite join_cons. f_equal. exact IH.
Qed.

Lemma splitOn_pieces sep s :
  Forall (Forall (fun c => sep c = false /\ In c s)) (splitOn sep s).
Proof.
  induction s as [|c s IH]; [repeat constructor|].
  cbn [splitOn]. pose proof (splitOn_nonempty sep s) as Hne.
  assert (IH' : Forall (Forall (fun x => sep x = false /\ In x (c :: s))) (splitOn sep s)).
  { eapply Forall_impl; [|exact IH]. intros w Hw.
    eapply Forall_impl; [|exact Hw]. intros x [? ?]. split; [assumption | now right]. }
  destruct (splitOn sep s) as [|h t]; [now elim Hne|].
  inversion IH' as [|? ? Hh Ht]; subst.
  destruct (sep c) eqn:D.
  - constructor; [constructor | now constructor].
  - constructor; [|exact Ht]. constructor; [|exact Hh]. split; [exact D | now left].
Qed.

Lemma toLowerCase_lower s :
  Forall (fun c => isUpper c = false) s -> toLowerCase s = s.
Proof.
  induction 1 as [|c s Hc Hs IH]; [reflexivity|].
  change (toLowerChar c :: toLowerCase s = c :: s).
  unfold toLowerChar. rewrite Hc. f_equal. exact IH.
Qed.

Lemma removeUnsafe_safe s :
  Forall (fun c => isUnsafe c = false) s -> removeUnsafe s = s.
Proof.
  induction 1 as [|c s Hc Hs IH]; [reflexivity|].
  unfold removeUnsafe in *. cbn [filter]. rewrite Hc. cbn [negb]. f_equal. exact IH.
Qed.

Lemma splitRuns_free sep w :
  Forall (fun c => sep c = false) w -> splitRuns sep w = [w].
Proof.
  induction 1 as [|c w Hc Hw IH]; [reflexivity|].
  cbn [splitRuns]. now rewrite IH, Hc.
Qed.

Lemma splitRuns_word sep w d c rest :
  Forall (fun x => sep x = false) w -> sep d = true -> sep c = false ->
  splitRuns sep (w ++ d :: c :: rest) = w :: splitRuns sep (c :: rest).
Proof.
  intros Hw Hd Hc. induction Hw as [|a w Ha Hw IH].
  - cbn [app]. cbn [splitRuns].
    pose proof (splitRuns_nonempty sep rest) as Hne.
    destruct (splitRuns sep rest) as [|h t]; [now elim Hne|].
    rewrite Hc, Hd. reflexivity.
  - change ((a :: w) ++ d :: c :: rest) with (a :: (w ++ d :: c :: rest)).
    cbn [splitRuns]. rewrite IH, Ha. reflexivity.
Qed.

Lemma splitRuns_join ws :
  ws <> [] ->
  Forall (fun w => w <> [] /\ Forall (fun c => isSeparator c = false) w) ws ->
  splitRuns isSeparator (join [dash] ws) = ws.
Proof.
  intros Hne Hall. induction Hall as [|w ws [Hw Hc] Hrest IH]; [now elim Hne|].
  destruct ws as [|w' ws'].
  - now apply splitRuns_free.
  - change (join [dash] (w :: w' :: ws')) with (w ++ dash :: join [dash] (w' :: ws')).
    inversion Hrest as [|? ? [Hw' Hc'] _]; subst.
    destruct w' as [|c w']; [now elim Hw'|].
    rewrite join_cons. inversion Hc' as [|? ? Hcc _]; subst.
    rewrite splitRuns_word; [|exact Hc|reflexivity|exact Hcc].
    rewrite <- join_cons. rewrite IH by discriminate. reflexivity.
Qed.

(** The words of a text that is already a join of kept words. *)
Lemma slugWords_join stop ws :
  Forall (GoodWord stop) ws -> slugWords stop (join [dash] ws) = ws.
Proof.
  intro Hg. unfold slugWords.
  pose proof (join_chars stop ws Hg) as Hch.
  rewrite toLowerCase_lower
    by (eapply Forall_impl; [|exact Hch]; now intros c [? _]).
  rewrite removeUnsafe_safe
    by (eapply Forall_impl; [|exact Hch]; now intros c [_ ?]).
  destruct ws as [|w ws]; [reflexivity|].
  rewrite splitRuns_join; [|discriminate|].
  - apply forallb_filter_id. apply forallb_forall. intros x Hx.
    rewrite Forall_forall in Hg. destruct (Hg x Hx) as (Hne & Hstop & _).
    unfold keepWord. rewrite Hstop. destruct x; [now elim Hne | reflexivity].
  - eapply Forall_impl; [|exact Hg]. intros x (Hne & _ & Hc). split; [exact Hne|].
    eapply Forall_impl; [|exact Hc]. now intros c (? & _).
Qed.

(** A slug is its own slug. *)
Lemma slugify_idempotent stop raw :
  forallb (fun s => String.length s <=? 28) stop = true ->
  slugify stop (slugify stop raw) = slugify stop raw.
Proof.
  intro Hb.
  pose proof (slugWords_good stop raw) as Hg.
  assert (Hr : slugify stop raw = capSlug (join [dash] (slugWords stop raw))).
  { unfold slugify. now rewrite (joinWords_good stop). }
  set (ws := slugWords stop raw) in *.
  set (r := slugify stop raw) in *.
  assert (Hgood : Forall (GoodWord stop) (splitOn isDash r) \/ r = []).
  { destruct (capSlug_pieces stop ws Hb Hg) as [E|Hp]; [right; now rewrite Hr|].
    left. rewrite <- Hr in Hp.
    assert (Hch : Forall (fun c => isDash c = true \/ GoodChar c) r).
    { rewrite Hr. apply capSlug_chars. apply Forall_forall. intros c Hc.
      apply in_join in Hc. destruct Hc as [[<-|[]]|(w & Hw & Hc)]; [now left|].
      right. rewrite Forall_forall in Hg. destruct (Hg w Hw) as (_ & _ & Hgc).
      rewrite Forall_forall in Hgc. now apply Hgc. }
    pose proof (splitOn_pieces isDash r) as Hpc.
    rewrite Forall_forall in *. intros w Hw.
    destruct (Hp w Hw) as [Hne Hstop]. repeat split; try assumption.
    specialize (Hpc w Hw). rewrite Forall_forall in *. intros c Hc.
    destruct (Hpc c Hc) as [Hd Hin].
    destruct (Hch c Hin) as [E|G]; [congruence | exact G]. }
  destruct Hgood as [Hgood|E].
  - unfold slugify at 1. rewrite <- (join_splitOn r) at 1.
    rewrite (slugWords_join stop _ Hgood).
    rewrite (joinWords_good stop _ Hgood), join_splitOn.
    apply capSlug_short. rewrite Hr. apply capSlug_length.
  - rewrite E. unfold slugify, slugWords. cbn. reflexivity.
Qed.

End SlugAgainFacts.

(** X17. A slug is its own slug: given back as a
    title, what [sessionSlug] returned comes out unchanged, in the plugin and
    in the two scripts that carry a copy of the function. So a slug can be
    recomputed from a stored slug without drifting. *)
Theorem sessionSlug_is_idempotent :
  forall session : Slug.SlugSource,
    HooksSlug.sessionSlug
      (Slug.mkSlugSource (Some (HooksSlug.sessionSlug session)) None "")
    = HooksSlug.sessionSlug session
    /\ SyncAll.sessionSlug
         (Slug.mkSlugSource (Some (SyncAll.sessionSlug session)) None "")
       = SyncAll.sessionSlug session
    /\ DailyNotes.sessionSlug
         (Slug.mkSlugSource (Some (DailyNotes.sessionSlug session)) None "")
       = DailyNotes.sessionSlug session.
Proof.
  intro session.
  assert (H : forall stop,
             forallb (fun s => String.length s <=? 28) stop = true ->
             JsText.toString
               (Slug.slugify stop
                  (JsText.ofString
                     (Slug.rawName
                        (Slug.mkSlugSource
                           (Some (JsText.toString
                                    (Slug.slugify stop
                                       (JsText.ofString (Slug.rawName session)))))
                           None ""))))
             = JsText.toString
                 (Slug.slugify stop (JsText.ofString (Slug.rawName session)))).
  { intros stop Hb.
    set (r := Slug.slugify stop (JsText.ofString (Slug.rawName session))).
    assert (E : Slug.rawName (Slug.mkSlugSource (Some (JsText.toString r)) None "")
                = JsText.toString r).
    { unfold Slug.rawName. cbn [Slug.title Slug.slug Slug.id Slug.truthy].
      destruct (String.eqb_spec (JsText.toString r) "") as [E|_]; [|reflexivity].
      now rewrite E. }
    rewrite E, JsTextFacts.ofString_toString. unfold r.
    now rewrite SlugAgainFacts.slugify_idempotent. }
  split; [|split]; apply H; reflexivity.
Qed.

(** ** Paths of the notes of a session *)

Module PathFacts.
Import JsText TextSpec TextFacts PathSpec.

Lemma notePath_folder p d s x :
  ofString (Slug.notePath p d s x)
  = noteFolder p d s ++ ofString ("/" ++ x ++ ".md")%string.
Proof.
  unfold Slug.notePath, noteFolder. cbv zeta.
  rewrite !ProcessorFacts.ofString_append.
  change (ofString "10-Projects/") with (ofString "10-Projects" ++ [slash]).
  change (ofString "/sessions/") with ([slash] ++ ofString "sessions" ++ [slash]).
  change (ofString "/") with [slash].
  change (ofString "-") with [dash].
  rewrite <- !app_assoc. reflexivity.
Qed.

Lemma summary_pattern :
  ofString "/summary.md" = slash :: ofString "summary.md".
Proof. reflexivity. Qed.

(** The pattern of the summary starts nowhere in the folder of a session
    whose project name, date and slug hold no slash, unless the project name
    itself starts with the name of the summary file. *)
Lemma folder_noStart p d s post :
  noSlash p = true -> noSlash d = true -> noSlash s = true ->
  startsWith (ofString "summary.md") (ofString p) = false ->
  NoStart (ofString "/summary.md") (noteFolder p d s) (ofString "/summary.md" ++ post).
Proof.
  intros Hp Hd Hs Hstart. rewrite summary_pattern.
  apply noSlash_plain in Hp, Hs.
  pose proof (substring_chars _ d (noSlash_plain d Hd)) as Hsub.
  assert (Qslash : Forall (fun c => Ascii.eqb c slash = false) (ofString "summary.md"))
    by (repeat constructor).
  assert (Qdash : Forall (fun c => Ascii.eqb c dash = false) (ofString "summary.md"))
    by (repeat constructor).
  unfold noteFolder.
  repeat apply noStart_app.
  - apply noStart_plain. repeat constructor.
  - apply noStart_one.
    match goal with |- ?t = false => destruct t eqn:E; [|reflexivity] end.
    rewrite <- app_assoc in E. cbn [app] in E.
    apply (startsWith_before slash _ Qslash) in E. congruence.
  - apply noStart_plain. exact Hp.
  - apply noStart_one. reflexivity.
  - apply noStart_plain. repeat constructor.
  - apply noStart_one.
    match goal with |- ?t = false => destruct t eqn:E; [|reflexivity] end.
    rewrite <- app_assoc in E. cbn [app] in E.
    apply (startsWith_before slash _ Qslash) in E.
    apply startsWith_length in E. rewrite !JsTextFacts.ofString_length in E.
    pose proof (substring_length d 0 7).
    change (String.length "summary.md") with 10 in E. lia.
  - apply noStart_plain. apply Hsub.
  - apply noStart_one.
    match goal with |- ?t = false => destruct t eqn:E; [|reflexivity] end.
    rewrite <- !app_assoc in E. cbn [app] in E.
    apply (startsWith_before dash _ Qdash) in E.
    apply startsWith_length in E. rewrite !JsTextFacts.ofString_length in E.
    pose proof (substring_length d 8 2).
    change (String.length "summary.md") with 10 in E. lia.
  - apply noStart_plain. apply Hsub.
  - apply noStart_plain. repeat constructor.
  - apply noStart_plain. exact Hs.
Qed.

Lemma ofString_inj a b : ofString a = ofString b -> a = b.
Proof.
  intro H. rewrite <- (toString_ofString a), <- (toString_ofString b). now f_equal.
Qed.

Lemma replace_summary p d s x :
  noSlash p = true -> noSlash d = true -> noSlash s = true ->
  startsWith (ofString "summary.md") (ofString p) = false ->
  Hooks.replace "/summary.md" ("/" ++ x ++ ".md") (Slug.notePath p d s "summary")
  = Slug.notePath p d s x.
Proof.
  intros Hp Hd Hs Hstart. apply ofString_inj.
  unfold Hooks.replace. rewrite JsTextFacts.ofString_toString.
  rewrite !notePath_folder.
  change (ofString ("/" ++ "summary" ++ ".md")) with (ofString "/summary.md" ++ []).
  rewrite replaceFirst_at by now apply folder_noStart.
  now rewrite app_nil_r.
Qed.

Lemma sessions_noStart p post :
  noSlash p = true -> p <> "sessions" ->
  NoStart (ofString "/sessions/")
          (ofString "10-Projects" ++ [slash] ++ ofString p)
          (ofString "/sessions/" ++ post).
Proof.
  intros Hp Hne. apply noSlash_plain in Hp.
  change (ofString "/sessions/") with (slash :: ofString "sessions" ++ [slash]).
  repeat apply noStart_app.
  - apply noStart_plain. repeat constructor.
  - apply noStart_one.
    match goal with |- ?t = false => destruct t eqn:E; [|reflexivity] end.
    change ((slash :: ofString "sessions" ++ [slash]) ++ post)
      with (slash :: ((ofString "sessions" ++ [slash]) ++ post)) in E.
    apply startsWith_upto in E; [|repeat constructor | exact Hp].
    elim Hne. now apply ofString_inj.
  - apply noStart_plain. exact Hp.
Qed.

Lemma replace_sessions p d s x :
  noSlash p = true -> p <> "sessions" ->
  Hooks.replace "/sessions/" "/trash/" (Slug.notePath p d s x) = trashPath p d s x.
Proof.
  intros Hp Hne. apply ofString_inj.
  unfold Hooks.replace. rewrite JsTextFacts.ofString_toString.
  unfold Slug.notePath, trashPath. cbv zeta.
  rewrite !ProcessorFacts.ofString_append.
  change (ofString "10-Projects/") with (ofString "10-Projects" ++ [slash]).
  rewrite <- !app_assoc.
  rewrite (app_assoc (ofString "10-Projects")), (app_assoc _ (ofString p)).
  rewrite replaceFirst_at by now apply sessions_noStart.
  rewrite <- !app_assoc. reflexivity.
Qed.

Lemma sessionSlug_noSlash session : noSlash (HooksSlug.sessionSlug session) = true.
Proof.
  destruct (SlugFacts.slugify_spec HooksSlug.STOP_WORDS eq_refl session)
    as (_ & _ & _ & _ & _ & _ & _ & Hc & _).
  unfold noSlash. apply negb_true_iff.
  destruct (existsb _ _) eqn:E; [|reflexivity].
  apply existsb_exists in E. destruct E as (c & Hin & Hc47).
  rewrite Forall_forall in Hc. destruct (Hc c Hin) as [_ Hu].
  assert (c = slash).
  { unfold isChar, code in Hc47. apply N.eqb_eq in Hc47.
    rewrite <- (ascii_N_embedding c), Hc47. reflexivity. }
  subst c. discriminate Hu.
Qed.

End PathFacts.

(** X20. The quarantine looks
    for the notes where they were written. [moveToTrash] derives the paths it
    reads from the summary path by textual replacement, while [syncRawLog]
    and the rename cascade build theirs with [notePath]. For a project name,
    date and slug without a slash, a project name that does not start with
    the file name of the summary and is not the name of the sessions folder,
    the two agree: replacing the summary file name gives the [notePath] of
    the other note, the notes [moveToTrash] reads are the summary, the raw
    log and the parts 1 to 20 of the session, and the quarantined copy goes
    to the same place under the trash folder of the project. The slugs
    [sessionSlug] makes never hold a slash. *)
Theorem quarantine_reads_the_notes_that_were_written :
  forall projectName date slug : string,
    TextSpec.noSlash projectName = true ->
    TextSpec.noSlash date = true ->
    TextSpec.noSlash slug = true ->
    JsText.startsWith (JsText.ofString "summary.md") (JsText.ofString projectName)
    = false ->
    projectName <> "sessions" ->
    let summary := Hooks.notePath projectName date slug "summary" in
    (forall suffix,
        Hooks.replace "/summary.md" ("/" ++ suffix ++ ".md") summary
        = Hooks.notePath projectName date slug suffix)
    /\ (forall suffix,
          Hooks.replace "/sessions/" "/trash/"
                        (Hooks.notePath projectName date slug suffix)
          = PathSpec.trashPath projectName date slug suffix)
    /\ (forall tracker,
          Engine.summaryPath tracker = summary ->
          GuardSpec.notePaths tracker
          = summary
            :: Hooks.notePath projectName date slug "raw-log"
            :: map (fun i =>
                      Hooks.notePath projectName date slug
                                     ("raw-log-part-" ++ Hooks.show i))
                   (seq 1 20))
    /\ (forall session, TextSpec.noSlash (Hooks.sessionSlug session) = true).
Proof.
  intros projectName date slug Hp Hd Hs Hstart Hne summary.
  assert (H1 : forall suffix,
             Hooks.replace "/summary.md" ("/" ++ suffix ++ ".md") summary
             = Hooks.notePath projectName date slug suffix).
  { intro suffix. now apply PathFacts.replace_summary. }
  split; [exact H1|]. split; [|split].
  - intro suffix. now apply PathFacts.replace_sessions.
  - intros tracker E. unfold GuardSpec.notePaths. rewrite E.
    f_equal. f_equal; [exact (H1 "raw-log")|].
    apply map_ext. intro i. exact (H1 ("raw-log-part-" ++ Hooks.show i)%string).
  - apply PathFacts.sessionSlug_noSlash.
Qed.

Lemma quarantine_reads_the_notes_that_were_written_witness :
  TextSpec.noSlash "demo" = true
  /\ TextSpec.noSlash "2026-02-14" = true
  /\ TextSpec.noSlash "fix-login-bug" = true
  /\ "demo" <> "sessions"
  /\ Hooks.replace "/sessions/" "/trash/"
       (Hooks.replace "/summary.md" "/raw-log-part-3.md"
          (Engine.summaryPath Samples.trackerOne))
     = "10-Projects/demo/trash/2026-02/14-fix-login-bug/raw-log-part-3.md".
Proof.
  assert (Hne : "demo" <> "sessions") by discriminate.
  split; [reflexivity|]. split; [reflexivity|]. split; [reflexivity|].
  split; [exact Hne|].
  destruct (quarantine_reads_the_notes_that_were_written
              "demo" "2026-02-14" "fix-login-bug" eq_refl eq_refl eq_refl eq_refl Hne)
    as (H1 & H2 & _).
  change (Hooks.replace "/sessions/" "/trash/"
            (Hooks.replace "/summary.md" ("/" ++ "raw-log-part-3" ++ ".md")
               (Hooks.notePath "demo" "2026-02-14" "fix-login-bug" "summary"))
          = "10-Projects/demo/trash/2026-02/14-fix-login-bug/raw-log-part-3.md").
  rewrite (H1 "raw-log-part-3"). rewrite H2. reflexivity.
Defined.

(** The two side conditions on the project name are needed: a project
    called [sessions] has its notes quarantined under a project called
    [trash]. *)
Example project_called_sessions :
  Hooks.replace "/sessions/" "/trash/"
    (Hooks.notePath "sessions" "2026-02-14" "fix-login-bug" "summary")
  = "10-Projects/trash/sessions/2026-02/14-fix-login-bug/summary.md".
Proof. reflexivity. Qed.

(** ** The parts of a long transcript *)

Module PartFacts.
Import JsText TextSpec TextFacts Splitter SplitterSpec.

(** A document that goes on with a closing fence somewhere after its
    opening fence is matched. *)
Lemma findClose_some fm :
  forall rest, findClose (fm ++ closeFence ++ rest) <> None.
Proof.
  induction fm as [|c fm IH]; intro rest.
  - change ([] ++ closeFence ++ rest) with (nl :: ofString "---" ++ [nl] ++ rest).
    discriminate.
  - change ((c :: fm) ++ closeFence ++ rest) with (c :: (fm ++ closeFence ++ rest)).
    cbn [findClose].
    destruct (startsWith closeFence (c :: fm ++ closeFence ++ rest)); [discriminate|].
    specialize (IH rest).
    destruct (findClose (fm ++ closeFence ++ rest)) as [[a b]|];
      [discriminate | now elim IH].
Qed.

Lemma matchFrontmatter_none md :
  matchFrontmatter md = None ->
  forall fm rest, md <> openFence ++ fm ++ closeFence ++ rest.
Proof.
  intros H fm rest E. subst md. unfold matchFrontmatter in H.
  rewrite QueueRoundTrips.startsWith_app in H.
  change (skipn 4 (openFence ++ fm ++ closeFence ++ rest))
    with (fm ++ closeFence ++ rest) in H.
  now apply (findClose_some fm rest).
Qed.

(** The body the front-matter pattern finds in a text, the empty text when
    it finds none. *)
Lemma part_body md fm body part total b :
  matchFrontmatter md = Some (fm, body) ->
  match matchFrontmatter (partMarkdown fm part total b) with
  | Some (_, found) => found
  | None => []
  end = b.
Proof.
  intro H. now rewrite (FrontmatterFacts.part_reparse md fm body part total b H).
Qed.

End PartFacts.

(** C10. For a positive bound, [splitIfNeeded] returns the document as the
    single part 1 of 1 when it has no front matter (it is not an opening
    fence, a text, a closing fence and a rest) or no more than [maxMessages]
    message sections. The front matter is the text between the opening fence
    and the first closing fence, the body is the rest, and the message
    sections are the pieces of the body that start at its headings of user
    and assistant messages. Otherwise it returns the ceiling of
    [n / maxMessages] parts, numbered 1, 2, ... in order, each carrying the
    number of parts as [totalParts]. The text of a part is the opening
    fence, the front matter, a line with its part number, a line with the
    number of parts, the closing fence and its body; the body of the first
    part starts with the header section, and the bodies of the parts, in
    order, make up the body of the document. *)
Theorem C10_splitIfNeeded_parts :
  forall (md : string) (maxMessages : nat),
    0 < maxMessages ->
    let nl := "010"%char in
    let digits (k : nat) := JsText.ofString (NilEmpty.string_of_uint (Nat.to_uint k)) in
    let bodyOf (p : Splitter.SplitResult) :=
      match Splitter.matchFrontmatter (JsText.ofString (Splitter.markdown p)) with
      | Some (_, found) => found
      | None => []
      end in
    match Splitter.matchFrontmatter (JsText.ofString md) with
    | None =>
        Splitter.splitIfNeeded md maxMessages = [Splitter.mkSplitResult md 1 1]
        /\ forall text rest,
             JsText.ofString md
             <> JsText.ofString "---" ++ nl :: text
                  ++ nl :: JsText.ofString "---" ++ nl :: rest
    | Some (frontmatter, body) =>
        let header := hd [] (Splitter.splitSections body) in
        let sections := tl (Splitter.splitSections body) in
        let n := List.length sections in
        let parts := Splitter.splitIfNeeded md maxMessages in
        JsText.ofString md
        = JsText.ofString "---" ++ nl :: frontmatter
            ++ nl :: JsText.ofString "---" ++ nl :: body
        /\ SplitterSpec.NoFence frontmatter (nl :: JsText.ofString "---" ++ nl :: body)
        /\ header ++ List.concat sections = body
        /\ Forall (fun section => Splitter.isMessageHeader section = true) sections
        /\ n = SplitterSpec.headingStarts body
        /\ if n <=? maxMessages then parts = [Splitter.mkSplitResult md 1 1]
           else
             List.length parts = Splitter.ceilDiv n maxMessages
             /\ (Splitter.ceilDiv n maxMessages - 1) * maxMessages < n
                  <= Splitter.ceilDiv n maxMessages * maxMessages
             /\ map Splitter.partNumber parts = seq 1 (List.length parts)
             /\ Forall (fun p => Splitter.totalParts p = List.length parts) parts
             /\ Forall
                  (fun p =>
                     JsText.ofString (Splitter.markdown p)
                     = JsText.ofString "---" ++ nl :: frontmatter
                         ++ nl :: JsText.ofString "part: "
                         ++ digits (Splitter.partNumber p)
                         ++ nl :: JsText.ofString "total_parts: "
                         ++ digits (Splitter.totalParts p)
                         ++ nl :: JsText.ofString "---" ++ nl :: bodyOf p)
                  parts
             /\ List.concat (map bodyOf parts) = body
             /\ exists rest, bodyOf (hd (Splitter.mkSplitResult "" 0 0) parts)
                             = header ++ rest
    end.
Proof.
  intros md m Hm nl digits bodyOf.
  destruct (Splitter.matchFrontmatter (JsText.ofString md)) as [[fm body]|] eqn:Hmatch.
  2:{ split.
      - unfold Splitter.splitIfNeeded. now rewrite Hmatch.
      - intros text rest.
        exact (PartFacts.matchFrontmatter_none _ Hmatch text rest). }
  cbv zeta.
  set (header := hd [] (Splitter.splitSections body)).
  set (msgs := tl (Splitter.splitSections body)).
  destruct (proj1 (FrontmatterFacts.matchFrontmatter_iff _ _ _) Hmatch) as [Edoc Hno].
  destruct (FrontmatterFacts.splitSections_headings body) as [Hhead Hcount].
  fold msgs in Hhead, Hcount.
  split; [exact Edoc|]. split; [exact Hno|].
  split; [apply SplitterFacts.header_and_messages|].
  split; [exact Hhead|]. split; [exact Hcount|].
  unfold Splitter.splitIfNeeded. rewrite Hmatch. cbv zeta.
  fold header. fold msgs.
  destruct (List.length msgs <=? m) eqn:E; [reflexivity|].
  apply Nat.leb_gt in E.
  set (k := Splitter.ceilDiv (List.length msgs) m).
  assert (Hn : 0 < List.length msgs) by lia.
  assert (Hbody : forall i,
             bodyOf (Splitter.mkSplitResult
                       (JsText.toString
                          (Splitter.partMarkdown fm (i + 1) k
                             (Splitter.partBody header msgs m i)))
                       (i + 1) k)
             = Splitter.partBody header msgs m i).
  { intro i. unfold bodyOf. cbn [Splitter.markdown].
    rewrite JsTextFacts.ofString_toString.
    exact (PartFacts.part_body (JsText.ofString md) fm body (i + 1) k _ Hmatch). }
  rewrite length_map, length_seq.
  split; [reflexivity|].
  split; [apply SplitterFacts.ceilDiv_bounds; assumption|].
  split.
  { rewrite map_map. simpl. rewrite <- seq_shift.
    apply map_ext. intro i. lia. }
  split.
  { apply Forall_forall. intros p Hp. apply in_map_iff in Hp.
    destruct Hp as (i & <- & _). reflexivity. }
  split.
  { apply Forall_forall. intros p Hp. apply in_map_iff in Hp.
    destruct Hp as (i & <- & _). rewrite Hbody.
    cbn [Splitter.markdown Splitter.partNumber Splitter.totalParts].
    rewrite JsTextFacts.ofString_toString.
    unfold Splitter.partMarkdown, Splitter.partFrontmatter, Splitter.openFence,
      Splitter.closeFence, JsText.decimal, digits.
    change Splitter.nl with nl.
    rewrite <- !app_assoc. cbn [app]. rewrite <- !app_assoc. reflexivity. }
  split.
  { rewrite map_map.
    rewrite (map_ext _ (Splitter.partBody header msgs m) Hbody).
    unfold k. rewrite SplitterFacts.partBodies_concat by assumption.
    apply SplitterFacts.header_and_messages. }
  assert (Hk : 0 < k).
  { pose proof (SplitterFacts.ceilDiv_bounds _ _ Hm Hn) as B. fold k in B.
    destruct k; simpl in *; lia. }
  destruct k as [|k']; [lia|]. cbn [seq map hd]. rewrite (Hbody 0).
  unfold Splitter.partBody. cbv zeta. cbn [Nat.eqb]. eexists. reflexivity.
Qed.

Lemma C10_splitIfNeeded_parts_witness :
  0 < 1
  /\ map Splitter.markdown (Splitter.splitIfNeeded Samples.sampleDocument 1)
     = ["---
title: demo
part: 1
total_parts: 2
---
# Session
### User (10:00)
hello
";
        "---
title: demo
part: 2
total_parts: 2
---
### Assistant (10:01)
hi
"]
  /\ List.length (Splitter.splitIfNeeded Samples.sampleDocument 1) = 2.
Proof.
  split; [lia|]. split; [reflexivity|].
  pose proof (C10_splitIfNeeded_parts Samples.sampleDocument 1 ltac:(lia)) as H.
  cbv zeta in H.
  change (Splitter.matchFrontmatter (JsText.ofString Samples.sampleDocument))
    with (Some (JsText.ofString "title: demo", JsText.ofString Samples.sampleBody))
    in H.
  cbv iota beta in H.
  destruct H as (_ & _ & _ & _ & _ & H).
  change (List.length
            (tl (Splitter.splitSections (JsText.ofString Samples.sampleBody))) <=? 1)
    with false in H.
  cbv iota in H. exact (proj1 H).
Defined.

(** ** Facts about the handlers *)

Module HandlerFacts.
Import Engine Hooks HandlerSpec.

Section WithRuntime.
Context {W : Type} {RT : Runtime W}.

Section Stepping.
Variable R : Sys W -> Sys W -> Prop.
Hypothesis closed : HandlerClosed R.

Let stepRefl := proj1 closed.
Let stepTrans := proj1 (proj2 closed).
Let stepWorld := proj1 (proj2 (proj2 closed)).
Let stepSessions := proj1 (proj2 (proj2 (proj2 closed))).
Let stepOutbox := proj2 (proj2 (proj2 (proj2 closed))).

Lemma steps_ret {A} (a : A) : Steps R (ret a).
Proof. intro s. apply stepRefl. Qed.

Lemma steps_bind {A B} (m : St A) (k : A -> St B) :
  Steps R m -> (forall a, Steps R (k a)) -> Steps R (bind m k).
Proof.
  intros Hm Hk s. unfold bind. specialize (Hm s).
  destruct (m s) as [a s1]. simpl in Hm.
  eapply stepTrans; [exact Hm | apply Hk].
Qed.

Lemma steps_gets {A} (f : Sys W -> A) : Steps R (gets f).
Proof. intro s. apply stepRefl. Qed.

Lemma steps_bindE {A B} (m : Exc A) (k : A -> Exc B) :
  Steps R m -> (forall a, Steps R (k a)) -> Steps R (bindE m k).
Proof.
  intros Hm Hk s. unfold bindE. specialize (Hm s).
  destruct (m s) as [[a|] s1]; simpl in Hm; [|exact Hm].
  eapply stepTrans; [exact Hm | apply Hk].
Qed.

Lemma steps_lift {A} (m : St A) : Steps R m -> Steps R (lift m).
Proof.
  intros Hm s. unfold lift. specialize (Hm s). now destruct (m s).
Qed.

Lemma steps_io {A} (f : W -> IOResult A * W) : Steps R (io f).
Proof. intro s. unfold io. destruct (f (world s)). apply stepWorld. Qed.

Lemma steps_tryCatch (body : Exc unit) : Steps R body -> Steps R (tryCatch body).
Proof. intros H s. exact (H s). Qed.

Lemma steps_enqueue t p c : Steps R (enqueue t p c).
Proof. intro s. apply stepOutbox. Qed.

Lemma steps_enqueueAll calls : Steps R (enqueueAll calls).
Proof.
  induction calls as [|c calls IH]; simpl; [apply steps_ret|].
  apply steps_bind; [apply steps_enqueue | intros _; exact IH].
Qed.

Lemma steps_writeTracker k t : Steps R (writeTracker k t).
Proof. intro s. apply stepSessions. Qed.

Lemma steps_clockNow : Steps R clockNow.
Proof. intro s. unfold clockNow. destruct (dateNow (world s)). apply stepWorld. Qed.

Create HintDb steps.
#[local] Hint Resolve steps_ret steps_gets steps_io steps_enqueue steps_enqueueAll
  steps_writeTracker steps_clockNow : steps.

(** Splits a handler along its binds and case distinctions, and closes the
    leaves with the [steps] hints. *)
Ltac steps_step :=
  lazymatch goal with
  | |- forall _, _ => intro
  | |- Steps _ (tryCatch _) => apply steps_tryCatch
  | |- Steps _ (lift _) => apply steps_lift
  | |- Steps _ (bindE _ _) => apply steps_bindE
  | |- Steps _ (bind _ _) => apply steps_bind
  | |- Steps _ (match ?x with _ => _ end) => destruct x
  | |- Steps _ (let _ := _ in _) => cbv zeta
  | |- _ => solve [auto with steps]
  end.

Ltac steps := repeat steps_step.

Lemma steps_renameTracked k t title created :
  Steps R (renameTracked k t title created).
Proof. unfold renameTracked. steps. Qed.

Lemma steps_computeTotalTokens k : Steps R (computeTotalTokens k).
Proof. unfold computeTotalTokens, retE. steps. Qed.

Lemma steps_refreshSummary k t conv : Steps R (refreshSummary k t conv).
Proof.
  unfold refreshSummary. pose proof (steps_computeTotalTokens k). steps.
Qed.

Lemma steps_onSessionCreated info : Steps R (onSessionCreated info).
Proof. unfold onSessionCreated. steps. Qed.

Lemma steps_onSessionUpdated info : Steps R (onSessionUpdated info).
Proof.
  unfold onSessionUpdated, retE.
  pose proof steps_renameTracked. pose proof steps_refreshSummary. steps.
Qed.

Lemma steps_onSessionIdle k : Steps R (onSessionIdle k).
Proof.
  unfold onSessionIdle, retE.
  pose proof steps_renameTracked. pose proof steps_refreshSummary. steps.
Qed.

Lemma steps_onCompacting k : Steps R (onCompacting k).
Proof.
  unfold onCompacting, retE. pose proof steps_computeTotalTokens. steps.
Qed.

Lemma steps_onMessageUpdated info : Steps R (onMessageUpdated info).
Proof. unfold onMessageUpdated, retE. steps. Qed.

Lemma steps_handleEvent e : Steps R (handleEvent e).
Proof.
  unfold handleEvent.
  pose proof steps_onSessionCreated. pose proof steps_onSessionUpdated.
  pose proof steps_onSessionIdle. pose proof steps_onMessageUpdated.
  steps.
Qed.

End Stepping.

Lemma onlyEnqueued_closed : HandlerClosed (OnlyEnqueued (W := W)).
Proof.
  split; [|split; [|split; [|split]]].
  - intro s. repeat split. exists []. now rewrite app_nil_r.
  - intros s1 s2 s3 (A1 & A2 & A3 & A4 & c1 & A5) (B1 & B2 & B3 & B4 & c2 & B5).
    repeat split; try congruence.
    exists (c1 ++ c2). now rewrite B5, A5, app_assoc.
  - intros w s. repeat split. exists []. simpl. now rewrite app_nil_r.
  - intros k t s. repeat split. exists []. simpl. now rewrite app_nil_r.
  - intros c s. repeat split. now exists [c].
Qed.

(** *** The flag and the entry of a session across the idle handler *)

Lemma flagged_write k b t (s : Sys W) :
  foundInStorage t = b -> Flagged k b (snd (writeTracker k t s)).
Proof.
  intro H. exists t. split; [apply MapFacts.mapGet_set_same | exact H].
Qed.

Lemma enqueueAll_sessions calls :
  forall s : Sys W, sessions (snd (enqueueAll calls s)) = sessions s.
Proof.
  induction calls as [|c calls IH]; intro s; [reflexivity|].
  simpl. unfold bind. simpl. now rewrite IH.
Qed.

Lemma renameTracked_flag k t title created (s : Sys W) :
  foundInStorage (fst (renameTracked k t title created s)) = foundInStorage t
  /\ mapGet k (sessions (snd (renameTracked k t title created s)))
     = Some (fst (renameTracked k t title created s)).
Proof.
  unfold renameTracked, handleRenameIfNeeded.
  destruct (String.eqb _ (slug t)); cbv zeta; unfold bind.
  - cbn [enqueueAll writeTracker modify snd fst ret setSessions sessions].
    split; [reflexivity | apply MapFacts.mapGet_set_same].
  - cbn [writeTracker modify snd fst].
    match goal with
    | |- context [enqueueAll ?c ?st] =>
        pose proof (enqueueAll_sessions c st) as E;
        destruct (enqueueAll c st) as [u s1]
    end.
    cbn [fst snd sessions setSessions] in *.
    unfold ret. cbn [fst snd]. rewrite E.
    split; [reflexivity | apply MapFacts.mapGet_set_same].
Qed.

Lemma refreshSummary_flag k t conv (s : Sys W) :
  mapGet k (sessions s) = Some t ->
  Flagged k (foundInStorage t) (snd (refreshSummary k t conv s))
  /\ forall t', fst (refreshSummary k t conv s) = Returned t' ->
                mapGet k (sessions (snd (refreshSummary k t conv s))) = Some t'
                /\ foundInStorage t' = foundInStorage t.
Proof.
  intro Hentry.
  unfold refreshSummary, computeTotalTokens, bindE, io, retE, ret, lift, bind.
  destruct (readMessages (world s) k) as [[messages|] w1]; cbn [fst snd].
  2:{ split; [now exists t | discriminate]. }
  cbn [world setWorld].
  destruct (buildUpdatedSummary w1 conv _) as [[content|] w2]; cbn [fst snd].
  2:{ split; [now exists t | discriminate]. }
  unfold writeTracker, enqueue, modify.
  cbn [fst snd sessions setSessions pushOutbox]. split.
  - eexists. split; [apply MapFacts.mapGet_set_same | reflexivity].
  - intros t' E. injection E as <-.
    split; [apply MapFacts.mapGet_set_same | reflexivity].
Qed.

(** The second half of the idle handler, from the reconstruction of the
    conversation on. *)
Lemma idle_tail k t (s : Sys W) :
  mapGet k (sessions s) = Some t ->
  Flagged k (foundInStorage t)
    (snd (bindE (io (fun w => reconstructConversation w k (projectId t)))
            (fun conv =>
               match conv with
               | Some conv0 =>
                   bindE (refreshSummary k t conv0)
                     (fun tracker1 =>
                        lift (enqueueAll
                                (syncRawLog conv0 (projectName tracker1)
                                   (formatDate (Lib.created (Lib.session conv0)))
                                   (slug tracker1))))
               | None => retE tt
               end) s)).
Proof.
  intro Hentry. unfold bindE at 1. unfold io.
  destruct (reconstructConversation (world s) k (projectId t)) as [[[conv|]|] w1];
    cbn [fst snd]; try (now exists t).
  unfold bindE.
  destruct (refreshSummary_flag k t conv (setWorld w1 s) Hentry) as [F R].
  destruct (refreshSummary k t conv (setWorld w1 s)) as [[t1|] s1]; cbn [fst snd] in *;
    [|exact F].
  destruct (R t1 eq_refl) as [E1 E2].
  unfold lift.
  match goal with
  | |- context [enqueueAll ?c s1] =>
      pose proof (enqueueAll_sessions c s1) as E; destruct (enqueueAll c s1) as [u s2]
  end.
  cbn [fst snd] in *. exists t1. now rewrite E.
Qed.

End WithRuntime.

Lemma mapSet_set {V} k (v1 v2 : V) m : mapSet k v2 (mapSet k v1 m) = mapSet k v2 m.
Proof.
  induction m as [|[k' v'] m IH]; simpl.
  - now rewrite String.eqb_refl.
  - destruct (String.eqb k' k) eqn:E; simpl.
    + now rewrite String.eqb_refl.
    + now rewrite E, IH.
Qed.

End HandlerFacts.

(** X8. The handlers and the compaction hook only issue [enqueue] calls: they
    send no request to the sink, and leave the [available] flag, the queue
    directory and the failure counters as they are; the calls issued before
    stay in front of the ones they add. Every write to the vault goes
    through the queue. *)
Theorem handlers_only_enqueue :
  forall (W : Type) (RT : Engine.Runtime W) (s : Engine.Sys W),
    (forall event, HandlerSpec.OnlyEnqueued s (snd (Hooks.handleEvent event s)))
    /\ (forall sessionId,
          HandlerSpec.OnlyEnqueued s (snd (Hooks.onCompacting sessionId s))).
Proof.
  intros W RT s. split.
  - intro event.
    exact (HandlerFacts.steps_handleEvent _ HandlerFacts.onlyEnqueued_closed event s).
  - intro sessionId.
    exact (HandlerFacts.steps_onCompacting _ HandlerFacts.onlyEnqueued_closed
             sessionId s).
Qed.

(** X9. Events for a session the tracker map does not hold are ignored: the
    update, idle, compaction and message handlers return with the state
    untouched, without a call into the session store or the clock. *)
Theorem untracked_session_is_ignored :
  forall (W : Type) (RT : Engine.Runtime W) (s : Engine.Sys W) (sessionId : string),
    Engine.mapGet sessionId (Engine.sessions s) = None ->
    (forall info, Hooks.id info = sessionId -> Hooks.onSessionUpdated info s = (tt, s))
    /\ Hooks.onSessionIdle sessionId s = (tt, s)
    /\ Hooks.onCompacting sessionId s = (tt, s)
    /\ (forall info, Hooks.sessionID info = sessionId ->
                     Hooks.onMessageUpdated info s = (tt, s)).
Proof.
  intros W RT s sessionId Hnone. repeat split.
  - intros info <-.
    unfold Hooks.onSessionUpdated, Engine.tryCatch, Engine.bindE, Engine.lift,
      Engine.gets.
    now rewrite Hnone.
  - unfold Hooks.onSessionIdle, Engine.tryCatch, Engine.bindE, Engine.lift, Engine.gets.
    now rewrite Hnone.
  - unfold Hooks.onCompacting, Engine.tryCatch, Engine.bindE, Engine.lift, Engine.gets.
    now rewrite Hnone.
  - intros info <-.
    unfold Hooks.onMessageUpdated, Engine.tryCatch, Engine.bindE, Engine.lift,
      Engine.gets.
    now rewrite Hnone.
Qed.

Lemma untracked_session_is_ignored_witness :
  Engine.mapGet "ses_2" (Engine.sessions Samples.conversing) = None
  /\ Hooks.onSessionIdle (RT := Script.runtime) "ses_2" Samples.conversing
     = (tt, Samples.conversing).
Proof.
  split; [reflexivity|].
  exact (proj1 (proj2 (untracked_session_is_ignored Script.World Script.runtime
                         Samples.conversing "ses_2" eq_refl))).
Defined.


(** X10. [onMessageUpdated] is debounced per session: a message event less
    than 30 seconds after the last one that was let through only reads the
    clock. One that is let through stamps the tracker with the time read
    and then stores the number of messages of the session; when the read of
    the messages throws, the stamp stays. The handler never issues an
    [enqueue]. *)
Theorem message_updates_are_debounced :
  forall (W : Type) (RT : Engine.Runtime W) (s : Engine.Sys W)
         (info : Hooks.MessageInfo) (tracker : Engine.SessionTracker),
    Engine.mapGet (Hooks.sessionID info) (Engine.sessions s) = Some tracker ->
    let k := Hooks.sessionID info in
    let now := fst (Engine.dateNow (Engine.world s)) in
    let w1 := snd (Engine.dateNow (Engine.world s)) in
    let s' := snd (Hooks.onMessageUpdated info s) in
    ((now - Engine.lastMessageSync tracker < 30000)%Z -> s' = Engine.setWorld w1 s)
    /\ ((30000 <= now - Engine.lastMessageSync tracker)%Z ->
        Engine.sessions s'
        = Engine.mapSet k
            match fst (Engine.readMessages w1 k) with
            | Engine.Returned messages =>
                Hooks.setMessageCount (Z.of_nat (List.length messages))
                                      (Hooks.setLastMessageSync now tracker)
            | Engine.Threw => Hooks.setLastMessageSync now tracker
            end
            (Engine.sessions s)
        /\ Engine.outbox s' = Engine.outbox s).
Proof.
  intros W RT s info tracker Hentry k now w1 s'.
  unfold s', Hooks.onMessageUpdated, Engine.tryCatch, Engine.bindE, Engine.lift,
    Engine.gets, Hooks.clockNow.
  rewrite Hentry. fold k.
  unfold now, w1. destruct (Engine.dateNow (Engine.world s)) as [t w'] eqn:Hclock.
  cbn [fst snd]. unfold Hooks.MESSAGE_DEBOUNCE_MS.
  destruct (Z.ltb_spec (t - Engine.lastMessageSync tracker) 30000) as [Hlt|Hge].
  - split; [reflexivity | intro; lia].
  - split; [intro; lia|]. intros _.
    unfold Engine.io, Hooks.writeTracker, Engine.modify. cbn [fst snd Engine.world
      Engine.setWorld Engine.setSessions Engine.sessions].
    destruct (Engine.readMessages w' k) as [[messages|] w2]; cbn [fst snd];
      simpl; [|now split].
    now rewrite HandlerFacts.mapSet_set.
Qed.

Lemma message_updates_are_debounced_witness :
  Engine.mapGet "ses_1" (Engine.sessions Samples.conversing)
  = Some (Hooks.setFoundInStorage false Samples.trackerOne)
  /\ snd (Hooks.onMessageUpdated (RT := Script.runtime) (Hooks.mkMessageInfo "ses_1")
            Samples.conversing)
     = Samples.conversing.
Proof.
  split; [reflexivity|].
  refine (proj1 (message_updates_are_debounced Script.World Script.runtime
                   Samples.conversing (Hooks.mkMessageInfo "ses_1")
                   (Hooks.setFoundInStorage false Samples.trackerOne) eq_refl) _).
  simpl. lia.
Defined.

(** X11. What [syncRawLog] writes, the rename cascade deletes, up to 20 parts:
    [syncRawLog] issues one update per part of the transcript (none for a
    conversation without entries), and when the transcript has at most 20
    parts, every path it writes for a tracker is among the paths
    [handleRenameIfNeeded] deletes when the slug of that tracker
    changes. *)
Theorem rename_cascade_covers_raw_log :
  forall (W : Type) (RT : Engine.Runtime W) (conv : Lib.ReconstructedConversation)
         (tracker : Engine.SessionTracker) (newTitle created : string),
    let written :=
      Hooks.syncRawLog conv (Engine.projectName tracker) created (Engine.slug tracker) in
    let parts :=
      List.length (Splitter.splitIfNeeded (Engine.formatForObsidian conv) 300) in
    Hooks.sessionSlug (Slug.mkSlugSource (Some newTitle) None "") <> Engine.slug tracker ->
    parts <= 20 ->
    (Lib.entries conv = [] -> written = [])
    /\ (Lib.entries conv <> [] -> List.length written = Nat.max parts 1)
    /\ Forall (fun c => Engine.callType c = Queue.update) written
    /\ incl (map Engine.callPath written)
            (map Engine.callPath
                 (snd (Hooks.handleRenameIfNeeded tracker newTitle created))).
Proof.
  intros W RT conv tracker newTitle created written parts Hslug Hparts.
  unfold written, Hooks.syncRawLog. fold parts.
  destruct (Lib.entries conv) as [|e es] eqn:He.
  - split; [reflexivity|]. split; [intro H; now elim H|].
    split; [constructor | intros p []].
  - split; [discriminate|].
    unfold Hooks.handleRenameIfNeeded.
    destruct (String.eqb_spec
                (Hooks.sessionSlug (Slug.mkSlugSource (Some newTitle) None ""))
                (Engine.slug tracker)) as [E|_]; [contradiction|].
    cbv zeta. cbn [snd].
    destruct (Nat.leb_spec (Nat.max parts 1) 1) as [Hone|Hmany].
    + split; [intros _; simpl; lia|]. split; [now repeat constructor|].
      intros p [<-|[]]. right. now left.
    + split; [intros _; now rewrite length_map, length_seq|]. split.
      * apply Forall_forall. intros c Hc. apply in_map_iff in Hc.
        now destruct Hc as (i & <- & _).
      * intros p Hp. rewrite map_map in Hp. apply in_map_iff in Hp.
        destruct Hp as (i & <- & Hi). apply in_seq in Hi.
        right. right. rewrite map_map. apply in_map_iff.
        exists i. split; [reflexivity|]. apply in_seq. lia.
Qed.

Lemma rename_cascade_covers_raw_log_witness :
  Hooks.sessionSlug (Slug.mkSlugSource (Some "Another title") None "")
  <> Engine.slug Samples.trackerOne
  /\ List.length (Splitter.splitIfNeeded
                    (Engine.formatForObsidian (Runtime := Script.runtime)
                                              Samples.conversationOne) 300) <= 20
  /\ incl
       (map Engine.callPath
            (Hooks.syncRawLog (RT := Script.runtime) Samples.conversationOne
               (Engine.projectName Samples.trackerOne) "2026-02-14"
               (Engine.slug Samples.trackerOne)))
       (map Engine.callPath
            (snd (Hooks.handleRenameIfNeeded Samples.trackerOne "Another title"
                    "2026-02-14"))).
Proof.
  assert (H1 : Hooks.sessionSlug (Slug.mkSlugSource (Some "Another title") None "")
               <> Engine.slug Samples.trackerOne) by discriminate.
  assert (H2 : List.length (Splitter.splitIfNeeded
                              (Engine.formatForObsidian (Runtime := Script.runtime)
                                                        Samples.conversationOne) 300)
               <= 20) by (simpl; lia).
  split; [exact H1|]. split; [exact H2|].
  exact (proj2 (proj2 (proj2
    (rename_cascade_covers_raw_log Script.World Script.runtime Samples.conversationOne
       Samples.trackerOne "Another title" "2026-02-14" H1 H2)))).
Defined.

(** X12. The idle handler arms the deletion
    guard and never disarms it: when its read of the session store finds the
    session, the entry of the session has [foundInStorage] set when the
    handler ends, whatever throws later in the handler; when the read finds
    nothing or throws, the flag is as it was. The entry stays in the map, and
    the failure counters are not touched. *)
Theorem idle_marks_the_session_found :
  forall (W : Type) (RT : Engine.Runtime W) (s : Engine.Sys W)
         (sessionId : string) (tracker : Engine.SessionTracker),
    Engine.mapGet sessionId (Engine.sessions s) = Some tracker ->
    let read :=
      fst (Engine.readSession (Engine.world s) sessionId (Engine.projectId tracker)) in
    let s' := snd (Hooks.onSessionIdle sessionId s) in
    (exists t',
        Engine.mapGet sessionId (Engine.sessions s') = Some t'
        /\ Engine.foundInStorage t'
           = match read with
             | Engine.Returned (Some _) => true
             | _ => Engine.foundInStorage tracker
             end)
    /\ Engine.deletionFailures s' = Engine.deletionFailures s.
Proof.
  intros W RT s sessionId tracker Hentry read s'.
  split; [|apply (GuardFacts.keeps_onSessionIdle _ _ GuardFacts.counters_framed)].
  unfold s', Hooks.onSessionIdle, Engine.tryCatch.
  unfold Engine.bindE at 1. unfold Engine.lift at 1, Engine.gets.
  rewrite Hentry.
  unfold Engine.bindE at 1. unfold Engine.io at 1. unfold read.
  destruct (Engine.readSession (Engine.world s) sessionId (Engine.projectId tracker))
    as [[fresh|] w1]; cbn [fst snd].
  2:{ now exists tracker. }
  unfold Engine.bindE at 1. unfold Engine.lift at 1.
  destruct fresh as [fresh|].
  - unfold Engine.bind at 1. cbn [Hooks.writeTracker Engine.modify snd].
    match goal with
    | |- context [Hooks.renameTracked ?k ?t ?a ?b ?st] =>
        destruct (HandlerFacts.renameTracked_flag k t a b st) as (F & E);
        destruct (Hooks.renameTracked k t a b st) as [t1 s1]
    end.
    cbn [fst snd] in *.
    destruct (HandlerFacts.idle_tail sessionId t1 s1 E) as (t' & G1 & G2).
    exists t'. split; [exact G1 | now rewrite G2, F].
  - unfold Engine.ret at 1.
    exact (HandlerFacts.idle_tail sessionId tracker (Engine.setWorld w1 s) Hentry).
Qed.

Lemma idle_marks_the_session_found_witness :
  Engine.mapGet "ses_1" (Engine.sessions Samples.tracked)
  = Some (Hooks.setFoundInStorage false Samples.trackerOne)
  /\ exists t',
       Engine.mapGet "ses_1"
         (Engine.sessions
            (snd (Hooks.onSessionIdle (RT := Script.runtime) "ses_1" Samples.tracked)))
       = Some t'
       /\ Engine.foundInStorage t' = true.
Proof.
  split; [reflexivity|].
  exact (proj1 (idle_marks_the_session_found Script.World Script.runtime
                  Samples.tracked "ses_1"
                  (Hooks.setFoundInStorage false Samples.trackerOne) eq_refl)).
Defined.

(** ** The quarantine, read by read *)

Module TrashFacts.
Import Engine Hooks TrashSpec.

Section WithRuntime.
Context {W : Type} {RT : Runtime W}.

Lemma obsidianGet_spec path (s : Sys W) :
  Obsidian.obsidianGet path s
  = (noteOf (fst (fetch (world s) (VaultGet path))),
     logEffect (EFetch (VaultGet path) (fst (fetch (world s) (VaultGet path))))
               (setWorld (snd (fetch (world s) (VaultGet path))) s)).
Proof.
  unfold Obsidian.obsidianGet, bind, Obsidian.doFetch.
  destruct (fetch (world s) (VaultGet path)) as [[status text|] w']; simpl;
    [destruct (ok status)|]; reflexivity.
Qed.

Lemma afterProbe_spec path (s : Sys W) :
  trace (afterProbe path s)
  = trace s ++ [probe (path, fst (fetch (world s) (VaultGet path)))]
  /\ outbox (afterProbe path s)
     = outbox s ++ quarantineIfRead (path, fst (fetch (world s) (VaultGet path))).
Proof.
  unfold afterProbe, quarantineIfRead. cbv zeta. cbn [fst snd].
  destruct (noteOf (fst (fetch (world s) (VaultGet path)))); simpl.
  - now rewrite <- app_assoc.
  - now rewrite app_nil_r.
Qed.

Lemma trashParts_cons summary i rest (s : Sys W) :
  let p := replace "/summary.md" ("/raw-log-part-" ++ show i ++ ".md")%string summary in
  trashParts summary (i :: rest) s
  = match noteOf (fst (fetch (world s) (VaultGet p))) with
    | Some _ => trashParts summary rest (afterProbe p s)
    | None => (tt, afterProbe p s)
    end.
Proof.
  cbv zeta. cbn [trashParts]. unfold bind at 1. rewrite obsidianGet_spec.
  unfold afterProbe. cbv zeta.
  destruct (noteOf _); reflexivity.
Qed.

(** The loop over the parts: it reads the parts in order, quarantines each
    one it gets, and stops after the first one it does not get. *)
Lemma trashParts_probes summary indices :
  forall s : Sys W,
    exists results : list FetchResult,
      let paths :=
        map (fun i => replace "/summary.md" ("/raw-log-part-" ++ show i ++ ".md")%string
                              summary) indices in
      let s' := snd (trashParts summary indices s) in
      List.length results <= List.length indices
      /\ (indices <> [] -> results <> [])
      /\ trace s' = trace s ++ map probe (combine paths results)
      /\ outbox s' = outbox s ++ flat_map quarantineIfRead (combine paths results)
      /\ Forall (fun r => noteOf r <> None) (removelast results)
      /\ (List.length results < List.length indices ->
          noteOf (last results FetchFailed) = None).
Proof.
  induction indices as [|i rest IH]; intro s.
  - exists []. simpl. rewrite !app_nil_r.
    split; [lia|]. split; [intro H; now elim H|]. repeat split; auto; lia.
  - rewrite trashParts_cons. cbv zeta.
    set (p := replace "/summary.md" ("/raw-log-part-" ++ show i ++ ".md") summary).
    destruct (afterProbe_spec p s) as [Ptr Pout].
    set (r := fst (fetch (world s) (VaultGet p))) in *.
    destruct (noteOf r) as [text|] eqn:Hr.
    + destruct (IH (afterProbe p s)) as (results & Hlen & Hne & Htr & Hout & Hall & Hlast).
      exists (r :: results). cbv zeta in *.
      cbn [map combine flat_map List.length].
      split; [lia|]. split; [discriminate|].
      split; [rewrite Htr, Ptr; now rewrite <- app_assoc|].
      split; [rewrite Hout, Pout; now rewrite <- app_assoc|].
      split.
      { destruct results as [|r' results']; [constructor|].
        change (removelast (r :: r' :: results')) with (r :: removelast (r' :: results')).
        constructor; [now rewrite Hr | exact Hall]. }
      intro Hlt. destruct results as [|r' results'].
      * destruct rest as [|j rest']; [simpl in Hlt; lia|].
        now elim Hne.
      * change (last (r :: r' :: results') FetchFailed)
          with (last (r' :: results') FetchFailed).
        apply Hlast. simpl in *. lia.
    + exists [r]. cbv zeta. cbn [map combine flat_map List.length removelast last snd].
      rewrite combine_nil. cbn [map flat_map].
      split; [lia|]. split; [discriminate|].
      split; [exact Ptr|]. split; [now rewrite Pout, app_nil_r|].
      split; [constructor | intros _; exact Hr].
Qed.

(** The two reads in front of the loop. *)
Lemma moveToTrash_steps sessionId tracker (s : Sys W) :
  moveToTrash sessionId tracker s
  = trashParts (summaryPath tracker) (seq 1 20)
      (afterProbe (replace "/summary.md" "/raw-log.md" (summaryPath tracker))
              (afterProbe (summaryPath tracker) s)).
Proof.
  unfold moveToTrash. cbv zeta. unfold bind at 1. rewrite obsidianGet_spec.
  assert (E1 : forall k : St (W := W) unit,
             bind match noteOf (fst (fetch (world s) (VaultGet (summaryPath tracker)))) with
                  | Some text =>
                      bind (enqueue Queue.create
                              (replace "/sessions/" "/trash/" (summaryPath tracker)) text)
                           (fun _ => enqueue Queue.delete (summaryPath tracker) "")
                  | None => ret tt
                  end (fun _ => k)
                  (logEffect
                     (EFetch (VaultGet (summaryPath tracker))
                             (fst (fetch (world s) (VaultGet (summaryPath tracker)))))
                     (setWorld (snd (fetch (world s) (VaultGet (summaryPath tracker)))) s))
             = k (afterProbe (summaryPath tracker) s)).
  { intro k. unfold afterProbe. cbv zeta. destruct (noteOf _); reflexivity. }
  rewrite E1. clear E1.
  set (s1 := afterProbe (summaryPath tracker) s).
  set (p2 := replace "/summary.md" "/raw-log.md" (summaryPath tracker)).
  unfold bind at 1. rewrite obsidianGet_spec.
  unfold afterProbe at 1. cbv zeta. fold p2.
  destruct (noteOf _); reflexivity.
Qed.

End WithRuntime.

End TrashFacts.

(** X13. [moveToTrash] reads the notes of the session in a fixed order: the
    summary, the raw log, then the raw-log parts from 1 on. Every note it
    gets is quarantined (copied under the trash folder, then deleted), and
    nothing else is issued. The loop over the parts ends after the first
    part the sink does not give, and at part 20 at the latest: between 3
    and 22 requests are sent. *)
Theorem moveToTrash_probes_in_order :
  forall (W : Type) (RT : Engine.Runtime W) (sessionId : string)
         (tracker : Engine.SessionTracker) (s : Engine.Sys W),
    let s' := snd (Hooks.moveToTrash sessionId tracker s) in
    exists results : list Engine.FetchResult,
      3 <= List.length results <= 22
      /\ Engine.trace s'
         = Engine.trace s
             ++ map TrashSpec.probe (combine (GuardSpec.notePaths tracker) results)
      /\ Engine.outbox s'
         = Engine.outbox s
             ++ flat_map TrashSpec.quarantineIfRead
                         (combine (GuardSpec.notePaths tracker) results)
      /\ Forall (fun r => TrashSpec.noteOf r <> None) (removelast (skipn 2 results))
      /\ (List.length results < 22 ->
          TrashSpec.noteOf (last results Engine.FetchFailed) = None).
Proof.
  intros W RT sessionId tracker s s'. unfold s'.
  rewrite TrashFacts.moveToTrash_steps.
  set (p1 := Engine.summaryPath tracker).
  set (p2 := Hooks.replace "/summary.md" "/raw-log.md" p1).
  destruct (TrashFacts.afterProbe_spec p1 s) as [T1 O1].
  destruct (TrashFacts.afterProbe_spec p2 (TrashSpec.afterProbe p1 s)) as [T2 O2].
  destruct (TrashFacts.trashParts_probes p1 (seq 1 20)
              (TrashSpec.afterProbe p2 (TrashSpec.afterProbe p1 s)))
    as (results & Hlen & Hne & Htr & Hout & Hall & Hlast).
  cbv zeta in *. rewrite length_seq in *.
  set (r1 := fst (Engine.fetch (Engine.world s) (Engine.VaultGet p1))) in *.
  set (r2 := fst (Engine.fetch (Engine.world (TrashSpec.afterProbe p1 s))
                               (Engine.VaultGet p2))) in *.
  exists (r1 :: r2 :: results).
  assert (Hpos : 1 <= List.length results).
  { destruct results; [now elim Hne | simpl; lia]. }
  split; [simpl; lia|].
  unfold GuardSpec.notePaths. fold p1. fold p2.
  cbn [combine map flat_map skipn].
  split; [rewrite Htr, T2, T1; now rewrite <- !app_assoc|].
  split; [rewrite Hout, O2, O1; now rewrite <- !app_assoc|].
  split; [exact Hall|].
  intro Hlt. destruct results as [|r3 results']; [simpl in Hpos; lia|].
  change (last (r1 :: r2 :: r3 :: results') Engine.FetchFailed)
    with (last (r3 :: results') Engine.FetchFailed).
  apply Hlast. simpl in *. lia.
Qed.

(** ** The deletion guard *)

Module StrikeFacts.
Import Engine Hooks GuardSpec TrashSpec.

Section WithRuntime.
Context {W : Type} {RT : Runtime W}.


End WithRuntime.

End StrikeFacts.




(** ** Soundness of the maps across a run *)

Module SoundFacts.
Import Engine Hooks GuardSpec HandlerSpec.

Section WithRuntime.
Context {W : Type} {RT : Runtime W}.

Lemma keepsTracked_closed : HandlerClosed (KeepsTracked (W := W)).
Proof.
  split; [|split; [|split; [|split]]].
  - intro s. split; [reflexivity | auto].
  - intros s1 s2 s3 [A1 A2] [B1 B2]. split; [congruence | auto].
  - intros w s. split; [reflexivity | auto].
  - intros k t s. split; [reflexivity|]. intros k' Hk'. simpl.
    destruct (String.eqb_spec k' k) as [->|Hne].
    + rewrite MapFacts.mapGet_set_same. discriminate.
    + now rewrite MapFacts.mapGet_set_other.
  - intros c s. split; [reflexivity | auto].
Qed.

Lemma sound_keepsTracked (s s' : Sys W) :
  KeepsTracked s s' -> queueDir s' = queueDir s -> Sound s -> Sound s'.
Proof.
  intros [Ec Et] Eq (Hwf & Hc & Htr). unfold Sound. rewrite Ec, Eq.
  split; [exact Hwf|]. split; [exact Hc|].
  intros k Hk. apply Et. now apply Htr.
Qed.

(** The processor leaves the two maps alone. *)
Lemma processItems_maps items :
  forall s : Sys W,
    sessions (snd (Obsidian.processItems items s)) = sessions s
    /\ deletionFailures (snd (Obsidian.processItems items s)) = deletionFailures s.
Proof.
  induction items as [|item rest IH]; intro s; [now split|].
  destruct (Queue.shouldDiscard item) eqn:D.
  - rewrite ProcessorFacts.processItems_discard by exact D.
    destruct (IH (snd (Obsidian.dequeue (Queue.id item) s))) as [E1 E2].
    now rewrite E1, E2.
  - destruct (fst (Obsidian.processItem item s)) eqn:Hok.
    + rewrite ProcessorFacts.processItems_delivered by assumption.
      destruct (IH (snd (Obsidian.dequeue (Queue.id item)
                           (snd (Obsidian.processItem item s))))) as [E1 E2].
      rewrite E1, E2, ProcessorFacts.processItem_spec. now split.
    + rewrite ProcessorFacts.processItems_failed by assumption.
      rewrite ProcessorFacts.processItem_spec. now split.
Qed.

Lemma processQueue_maps (s : Sys W) :
  sessions (snd (Obsidian.processQueue s)) = sessions s
  /\ deletionFailures (snd (Obsidian.processQueue s)) = deletionFailures s.
Proof.
  destruct (available s) eqn:Ha.
  - rewrite ProcessorFacts.processQueue_available by exact Ha.
    apply processItems_maps.
  - rewrite ProcessorFacts.processQueue_unavailable by exact Ha.
    destruct (available (ProcessorSpec.probed s)); [|now split].
    destruct (processItems_maps (Queue.readQueue (queueDir s)) (ProcessorSpec.probed s))
      as [E1 E2].
    now rewrite E1, E2.
Qed.

(** One visit of the poll keeps the maps sound. *)
Lemma afterPoll_sound k tracker (s : Sys W) :
  mapGet k (sessions s) = Some tracker ->
  Sound s -> Sound (afterPoll k tracker s).
Proof.
  intros Hk (Hwf & Hc & Htr).
  assert (Hq : queueDir (afterPoll k tracker s) = queueDir s).
  { pose proof (GuardFacts.keeps_pollSession _ _ GuardFacts.queueDir_framed
                  (fun _ _ => eq_refl) k tracker s) as E.
    now rewrite GuardFacts.pollSession_spec in E. }
  split; [now rewrite Hq|].
  assert (Hbelow : countersBelowThreshold (afterPoll k tracker s)).
  { apply GuardFacts.afterPoll_below. intro k'. apply Hc. }
  unfold afterPoll in *.
  destruct (fst (readSession (world s) k (projectId tracker))) as [[session|]|];
    cbv zeta in *; cbn [deletionFailures sessions setDeletionFailures setSessions
                        setWorld] in *.
  - split.
    + intro k'. split; [|apply Hbelow].
      destruct (String.eqb_spec k' k) as [->|Hne].
      * rewrite GuardFacts.failuresOf_delete_same. lia.
      * unfold failuresOf. rewrite MapFacts.mapGet_delete_other by exact Hne.
        apply Hc.
    + intros k' Hk'. destruct (String.eqb_spec k' k) as [->|Hne].
      * rewrite MapFacts.mapGet_set_same. discriminate.
      * rewrite MapFacts.mapGet_set_other by exact Hne. apply Htr.
        now rewrite MapFacts.mapGet_delete_other in Hk'.
  - destruct (foundInStorage tracker).
    + destruct (DELETION_THRESHOLD <=? _)%Z.
      * match goal with
        | |- context [moveToTrash k tracker ?st] =>
            destruct (GuardFacts.moveToTrash_issued k tracker st)
              as (notes & (E1 & E2 & _) & _)
        end.
        cbn [deletionFailures sessions setDeletionFailures setSessions] in *.
        rewrite E1, E2 in *. cbn [deletionFailures sessions setDeletionFailures] in *.
        split.
        -- intro k'. split; [|apply Hbelow].
           destruct (String.eqb_spec k' k) as [->|Hne].
           ++ rewrite GuardFacts.failuresOf_delete_same. lia.
           ++ unfold failuresOf.
              rewrite MapFacts.mapGet_delete_other, MapFacts.mapGet_set_other
                by exact Hne.
              apply Hc.
        -- intros k' Hk'. destruct (String.eqb_spec k' k) as [->|Hne].
           ++ now rewrite MapFacts.mapGet_delete_same in Hk'.
           ++ rewrite MapFacts.mapGet_delete_other by exact Hne. apply Htr.
              now rewrite MapFacts.mapGet_delete_other, MapFacts.mapGet_set_other
                in Hk' by exact Hne.
      * cbn [deletionFailures sessions setDeletionFailures] in *. split.
        -- intro k'. split; [|apply Hbelow].
           destruct (String.eqb_spec k' k) as [->|Hne].
           ++ rewrite GuardFacts.failuresOf_set_same. destruct (Hc k). lia.
           ++ unfold failuresOf. rewrite MapFacts.mapGet_set_other by exact Hne.
              apply Hc.
        -- intros k' Hk'. destruct (String.eqb_spec k' k) as [->|Hne].
           ++ change (mapGet k (sessions s) <> None). rewrite Hk. discriminate.
           ++ apply Htr. now rewrite MapFacts.mapGet_set_other in Hk' by exact Hne.
    + split; [exact Hc | exact Htr].
  - split; [exact Hc | exact Htr].
Qed.

Lemma pollAll_sound keys :
  forall s : Sys W, Sound s -> Sound (snd (pollAll keys s)).
Proof.
  induction keys as [|k keys IH]; intros s H; [exact H|].
  rewrite GuardFacts.pollAll_cons. apply IH.
  destruct (mapGet k (sessions s)) as [t|] eqn:Hk; [|exact H].
  now apply afterPoll_sound.
Qed.

(** Each entry point of the plugin, run from a sound state to its end,
    leaves a sound state. *)
Lemma sound_handleEvent e (s : Sys W) : Sound s -> Sound (snd (handleEvent e s)).
Proof.
  intro H. apply (sound_keepsTracked s); [| |exact H].
  - apply (HandlerFacts.steps_handleEvent _ keepsTracked_closed).
  - apply (GuardFacts.keeps_handleEvent _ _ GuardFacts.queueDir_framed).
Qed.

Lemma sound_onCompacting k (s : Sys W) : Sound s -> Sound (snd (onCompacting k s)).
Proof.
  intro H. apply (sound_keepsTracked s); [| |exact H].
  - apply (HandlerFacts.steps_onCompacting _ keepsTracked_closed).
  - apply (GuardFacts.keeps_onCompacting _ _ GuardFacts.queueDir_framed).
Qed.

Lemma sound_processQueue (s : Sys W) : Sound s -> Sound (snd (Obsidian.processQueue s)).
Proof.
  intros (Hwf & Hc & Htr).
  destruct (processQueue_maps s) as [E1 E2]. unfold Sound. rewrite E1, E2.
  split; [now apply GuardFacts.wellFormed_processQueue | now split].
Qed.

Lemma sound_settleEnqueue u n (s : Sys W) : Sound s -> Sound (Plugin.settleEnqueue u n s).
Proof.
  intros (Hwf & Hc & Htr).
  unfold Plugin.settleEnqueue. destruct (outbox s) as [|c rest];
    [exact (conj Hwf (conj Hc Htr))|].
  split; [|now split].
  exact (GuardFacts.wellFormed_writeFile
           (Queue.mkQueueItem u (callType c) (callPath c) (callContent c) 0 n)
           _ Hwf).
Qed.

End WithRuntime.

End SoundFacts.

(** X21. Soundness of the two maps
    and the queue directory is kept by every entry point of the plugin that
    runs from its start to its end with nothing else running in between.
    A state is sound when the queue directory is well formed (no two files
    share a name, and a file that parses is named after the identifier of
    its item), every failure counter is at least 0 and below 3, and only
    tracked sessions have a failure counter. From a sound state, an event
    handler, the compaction hook, a whole poll, a single visit of the poll,
    a health check, a tick of the processor, a reset and a completed
    enqueue call each end in a sound state. Nothing is said of the states
    inside a run, between two of its awaits: there a counter can be 3. *)
Theorem uninterrupted_runs_keep_the_maps_sound :
  forall (W : Type) (RT : Engine.Runtime W) (s : Engine.Sys W),
    HandlerSpec.Sound s ->
    (forall event, HandlerSpec.Sound (snd (Hooks.handleEvent event s)))
    /\ (forall sessionId, HandlerSpec.Sound (snd (Hooks.onCompacting sessionId s)))
    /\ HandlerSpec.Sound (snd (Hooks.pollForDeletions s))
    /\ (forall sessionId tracker,
          Engine.mapGet sessionId (Engine.sessions s) = Some tracker ->
          HandlerSpec.Sound (snd (Hooks.pollSession sessionId tracker s)))
    /\ HandlerSpec.Sound (snd (Obsidian.healthCheck s))
    /\ HandlerSpec.Sound (snd (Obsidian.processQueue s))
    /\ HandlerSpec.Sound (snd (Hooks._resetForTesting s))
    /\ (forall uuid now, HandlerSpec.Sound (Plugin.settleEnqueue uuid now s)).
Proof.
  intros W RT s H.
  split; [intro e; now apply SoundFacts.sound_handleEvent|].
  split; [intro k; now apply SoundFacts.sound_onCompacting|].
  split.
  { unfold Hooks.pollForDeletions, Engine.bind, Engine.gets.
    now apply SoundFacts.pollAll_sound. }
  split.
  { intros k t Hk. rewrite GuardFacts.pollSession_spec.
    now apply SoundFacts.afterPoll_sound. }
  split.
  { rewrite ProcessorFacts.healthCheck_spec. exact H. }
  split; [now apply SoundFacts.sound_processQueue|].
  split.
  { destruct H as (Hwf & _ & _). split; [exact Hwf|].
    split; [intro k; unfold Hooks.failuresOf, Hooks.DELETION_THRESHOLD; cbn; lia|].
    intros k Hk. now elim Hk. }
  intros u n. now apply SoundFacts.sound_settleEnqueue.
Qed.

Lemma uninterrupted_runs_keep_the_maps_sound_witness :
  HandlerSpec.Sound (Samples.poll (Samples.poll (Samples.poll Samples.tracked)))
  /\ Hooks.failuresOf "ses_1"
       (Engine.deletionFailures
          (Samples.poll (Samples.poll (Samples.poll Samples.tracked))))
     = 2%Z
  /\ HandlerSpec.Sound
       (Samples.poll (Samples.poll (Samples.poll (Samples.poll Samples.tracked)))).
Proof.
  assert (S0 : HandlerSpec.Sound (W := Script.World)
                 (Engine.mkSys Samples.guardWorld false [] [] [] [] [])).
  { split; [split; [constructor | intros f item []]|].
    split; [intro k; unfold Hooks.failuresOf, Hooks.DELETION_THRESHOLD; cbn; lia|].
    intros k Hk. now elim Hk. }
  assert (S1 : HandlerSpec.Sound Samples.tracked).
  { exact (proj1 (uninterrupted_runs_keep_the_maps_sound
                    Script.World Script.runtime _ S0) Samples.createdEvent). }
  assert (P : forall s : Engine.Sys Script.World,
            HandlerSpec.Sound s -> HandlerSpec.Sound (Samples.poll s)).
  { intros s Hs.
    exact (proj1 (proj2 (proj2 (uninterrupted_runs_keep_the_maps_sound
                                  Script.World Script.runtime s Hs)))). }
  split; [now apply P, P, P|]. split; [reflexivity|]. now apply P, P, P, P.
Defined.

(** ** The entries of the tracker map *)

Module TrackerFacts.
Import Engine Hooks GuardSpec TrackerSpec.

Section WithRuntime.
Context {W : Type} {RT : Runtime W}.

Section Carrying.
Variable P : SessionTracker -> Prop.

Lemma tracks_same (s s' : Sys W) :
  sessions s' = sessions s -> Tracks P s -> Tracks P s'.
Proof. intros E H k t Hk. rewrite E in Hk. exact (H k t Hk). Qed.

Lemma tracks_set k t (s : Sys W) :
  P t -> Tracks P s -> Tracks P (setSessions (mapSet k t (sessions s)) s).
Proof.
  intros Ht H k' t' E. cbn [sessions setSessions] in E.
  destruct (String.eqb_spec k' k) as [->|Hne].
  - rewrite MapFacts.mapGet_set_same in E. injection E as <-. exact Ht.
  - rewrite MapFacts.mapGet_set_other in E by exact Hne. exact (H k' t' E).
Qed.

Lemma tracks_delete k (s : Sys W) :
  Tracks P s -> Tracks P (setSessions (mapDelete k (sessions s)) s).
Proof.
  intros H k' t' E. cbn [sessions setSessions] in E.
  destruct (String.eqb_spec k' k) as [->|Hne].
  - now rewrite MapFacts.mapGet_delete_same in E.
  - rewrite MapFacts.mapGet_delete_other in E by exact Hne. exact (H k' t' E).
Qed.

Lemma carries_ret {A} (a : A) (Q : A -> Prop) : Q a -> Carries (W := W) P (ret a) Q.
Proof. intros H s Hs. now split. Qed.

Lemma carries_bind {A B} (m : St A) (k : A -> St B) (Q1 : A -> Prop)
    (Q : B -> Prop) :
  Carries (W := W) P m Q1 ->
  (forall a, Q1 a -> Carries (W := W) P (k a) Q) ->
  Carries (W := W) P (bind m k) Q.
Proof.
  intros Hm Hk s Hs. unfold bind. destruct (Hm s Hs) as [H1 H2].
  destruct (m s) as [a s1]. cbn [fst snd] in *. exact (Hk a H2 s1 H1).
Qed.

Lemma carries_bindE {A B} (m : Exc A) (k : A -> Exc B) (Q1 : A -> Prop)
    (Q : B -> Prop) :
  Carries (W := W) P m (Throws Q1) ->
  (forall a, Q1 a -> Carries (W := W) P (k a) (Throws Q)) ->
  Carries (W := W) P (bindE m k) (Throws Q).
Proof.
  intros Hm Hk s Hs. unfold bindE. destruct (Hm s Hs) as [H1 H2].
  destruct (m s) as [[a|] s1]; cbn [fst snd Throws] in *.
  - exact (Hk a H2 s1 H1).
  - now split.
Qed.

Lemma carries_lift {A} (m : St A) (Q : A -> Prop) :
  Carries (W := W) P m Q -> Carries (W := W) P (lift m) (Throws Q).
Proof.
  intros Hm s Hs. unfold lift. destruct (Hm s Hs) as [H1 H2].
  destruct (m s) as [a s1]. now split.
Qed.

Lemma carries_io {A} (f : W -> IOResult A * W) :
  Carries (W := W) P (io f) (Throws (fun _ => True)).
Proof.
  intros s Hs. unfold io. destruct (f (world s)) as [[a|] w]; now split.
Qed.

Lemma carries_retE {A} (a : A) (Q : A -> Prop) :
  Q a -> Carries (W := W) P (retE a) (Throws Q).
Proof. intros H s Hs. now split. Qed.

Lemma carries_tryCatch (body : Exc unit) (Q : IOResult unit -> Prop) :
  Carries (W := W) P body Q -> Carries (W := W) P (tryCatch body) (fun _ => True).
Proof. intros H s Hs. split; [exact (proj1 (H s Hs)) | exact I]. Qed.

Lemma carries_entry k :
  Carries (W := W) P (gets (fun s : Sys W => mapGet k (sessions s)))
          (fun entry => forall t, entry = Some t -> P t).
Proof. intros s Hs. split; [exact Hs|]. intros t E. exact (Hs k t E). Qed.

Lemma carries_enqueue t p c : Carries (W := W) P (enqueue t p c) (fun _ => True).
Proof. intros s Hs. now split. Qed.

Lemma carries_enqueueAll calls :
  Carries (W := W) P (enqueueAll calls) (fun _ => True).
Proof.
  intros s Hs. split; [|exact I].
  apply (tracks_same s); [apply HandlerFacts.enqueueAll_sessions | exact Hs].
Qed.

Lemma carries_writeTracker k t :
  P t -> Carries (W := W) P (writeTracker k t) (fun _ => True).
Proof. intros Ht s Hs. split; [now apply tracks_set | exact I]. Qed.

Lemma carries_clockNow : Carries (W := W) P clockNow (fun _ => True).
Proof.
  intros s Hs. unfold clockNow. destruct (dateNow (world s)). now split.
Qed.

Lemma carries_computeTotalTokens k :
  Carries (W := W) P (computeTotalTokens k) (Throws (fun _ => True)).
Proof.
  unfold computeTotalTokens.
  eapply carries_bindE; [apply carries_io|]. intros messages _.
  now apply carries_retE.
Qed.

End Carrying.

(** *** The entries the handlers write are filed under their slug *)

Lemma filed_created info projectName :
  let slug := sessionSlug (Slug.mkSlugSource (Some (title info)) None (id info)) in
  Filed (mkTracker (projectID info) projectName slug
           (notePath projectName (formatDate (created info)) slug "summary")
           0 0 false).
Proof.
  cbv zeta. eexists. eexists. split; reflexivity.
Qed.

Lemma filed_rename t newTitle created :
  Filed t -> Filed (snd (fst (handleRenameIfNeeded t newTitle created))).
Proof.
  intro H. unfold handleRenameIfNeeded.
  destruct (String.eqb _ (slug t)); [exact H|].
  cbn [fst snd]. eexists. eexists. split; reflexivity.
Qed.

Lemma filed_found b t : Filed t -> Filed (setFoundInStorage b t).
Proof. intro H. exact H. Qed.

Lemma filed_count n t : Filed t -> Filed (setMessageCount n t).
Proof. intro H. exact H. Qed.

Lemma filed_sync n t : Filed t -> Filed (setLastMessageSync n t).
Proof. intro H. exact H. Qed.

Lemma carries_renameTracked k t newTitle created :
  Filed t -> Carries (W := W) Filed (renameTracked k t newTitle created) Filed.
Proof.
  intro Ht. unfold renameTracked.
  pose proof (filed_rename t newTitle created Ht) as H.
  destruct (handleRenameIfNeeded t newTitle created) as [[b t'] calls].
  cbn [fst snd] in H.
  eapply carries_bind; [now apply carries_writeTracker|]. intros _ _.
  eapply carries_bind; [apply carries_enqueueAll|]. intros _ _.
  now apply carries_ret.
Qed.

Lemma carries_refreshSummary k t conv :
  Filed t -> Carries (W := W) Filed (refreshSummary k t conv) (Throws Filed).
Proof.
  intro Ht. unfold refreshSummary.
  eapply carries_bindE; [apply carries_computeTotalTokens|]. intros totalTokens _.
  eapply carries_bindE; [apply carries_io|]. intros content _.
  cbv zeta. apply carries_lift.
  eapply carries_bind; [apply carries_writeTracker; now apply filed_count|].
  intros _ _.
  eapply carries_bind; [apply carries_enqueue|]. intros _ _.
  apply carries_ret. now apply filed_count.
Qed.

Lemma carries_onSessionCreated info :
  Carries (W := W) Filed (onSessionCreated info) (fun _ => True).
Proof.
  unfold onSessionCreated. apply (carries_tryCatch _ _ (Throws (fun _ => True))).
  eapply carries_bindE; [apply carries_io|]. intros projectName _.
  cbv zeta. apply carries_lift.
  eapply carries_bind; [apply carries_writeTracker; apply filed_created|].
  intros _ _. apply carries_enqueue.
Qed.

Lemma carries_onSessionUpdated info :
  Carries (W := W) Filed (onSessionUpdated info) (fun _ => True).
Proof.
  unfold onSessionUpdated. apply (carries_tryCatch _ _ (Throws (fun _ => True))).
  eapply carries_bindE; [apply carries_lift, carries_entry|].
  intros [t|] Ht; [|now apply carries_retE].
  specialize (Ht t eq_refl). cbv zeta.
  apply (carries_bindE _ _ _ Filed).
  - apply carries_lift. destruct (String.eqb (title info) "").
    + now apply carries_ret.
    + now apply carries_renameTracked.
  - intros t1 Ht1.
    eapply carries_bindE; [apply carries_io|].
    intros [conv|] _; [|now apply carries_retE].
    eapply carries_bindE; [now apply carries_refreshSummary|].
    intros _ _. now apply carries_retE.
Qed.

Lemma carries_onSessionIdle k :
  Carries (W := W) Filed (onSessionIdle k) (fun _ => True).
Proof.
  unfold onSessionIdle. apply (carries_tryCatch _ _ (Throws (fun _ => True))).
  eapply carries_bindE; [apply carries_lift, carries_entry|].
  intros [t|] Ht; [|now apply carries_retE].
  specialize (Ht t eq_refl).
  eapply carries_bindE; [apply carries_io|]. intros fresh _.
  apply (carries_bindE _ _ _ Filed).
  - apply carries_lift. destruct fresh as [fresh|].
    + cbv zeta.
      eapply carries_bind;
        [apply carries_writeTracker; now apply filed_found|].
      intros _ _. apply carries_renameTracked. now apply filed_found.
    + now apply carries_ret.
  - intros t1 Ht1.
    eapply carries_bindE; [apply carries_io|].
    intros [conv|] _; [|now apply carries_retE].
    eapply carries_bindE; [now apply carries_refreshSummary|].
    intros t2 Ht2. cbv zeta. apply carries_lift. apply carries_enqueueAll.
Qed.

Lemma carries_onCompacting k :
  Carries (W := W) Filed (onCompacting k) (fun _ => True).
Proof.
  unfold onCompacting. apply (carries_tryCatch _ _ (Throws (fun _ => True))).
  eapply carries_bindE; [apply carries_lift, carries_entry|].
  intros [t|] Ht; [|now apply carries_retE].
  specialize (Ht t eq_refl).
  eapply carries_bindE; [apply carries_io|].
  intros [conv|] _; [|now apply carries_retE].
  cbv zeta.
  eapply carries_bindE; [apply carries_lift, carries_enqueueAll|]. intros _ _.
  eapply carries_bindE; [apply carries_computeTotalTokens|]. intros totalTokens _.
  eapply carries_bindE; [apply carries_io|]. intros content _.
  apply carries_lift.
  eapply carries_bind; [apply carries_enqueue|]. intros _ _.
  apply carries_writeTracker. now apply filed_count.
Qed.

Lemma carries_onMessageUpdated info :
  Carries (W := W) Filed (onMessageUpdated info) (fun _ => True).
Proof.
  unfold onMessageUpdated. apply (carries_tryCatch _ _ (Throws (fun _ => True))).
  eapply carries_bindE; [apply carries_lift, carries_entry|].
  intros [t|] Ht; [|now apply carries_retE].
  specialize (Ht t eq_refl).
  eapply carries_bindE; [apply carries_lift, carries_clockNow|]. intros now _.
  destruct (now - lastMessageSync t <? MESSAGE_DEBOUNCE_MS)%Z;
    [now apply carries_retE|].
  cbv zeta.
  eapply carries_bindE;
    [apply carries_lift, carries_writeTracker; now apply filed_sync|].
  intros _ _.
  eapply carries_bindE; [apply carries_io|]. intros messages _.
  apply carries_lift, carries_writeTracker. apply filed_count. now apply filed_sync.
Qed.

Lemma carries_handleEvent e :
  Carries (W := W) Filed (handleEvent e) (fun _ => True).
Proof.
  unfold handleEvent.
  repeat match goal with
         | |- Carries _ (if ?b then _ else _) _ => destruct b
         | |- Carries _ (match ?x with _ => _ end) _ => destruct x
         end;
    first [ apply carries_onSessionCreated | apply carries_onSessionUpdated
          | apply carries_onSessionIdle | apply carries_onMessageUpdated
          | now apply carries_ret ].
Qed.

(** One visit of the poll. *)
Lemma afterPoll_tracks k t (s : Sys W) :
  Filed t -> Tracks Filed s -> Tracks Filed (afterPoll k t s).
Proof.
  intros Ht Hs. unfold afterPoll.
  destruct (fst (readSession (world s) k (projectId t))) as [[session|]|];
    cbv zeta.
  - apply (tracks_same _
             (setSessions (mapSet k (setFoundInStorage true t) (sessions s)) s));
      [reflexivity|].
    apply tracks_set; [now apply filed_found | exact Hs].
  - destruct (foundInStorage t); [|exact Hs].
    destruct (DELETION_THRESHOLD <=? _)%Z; [|exact Hs].
    match goal with
    | |- context [moveToTrash k t ?st] =>
        destruct (GuardFacts.moveToTrash_issued k t st) as (notes & (E1 & _) & _);
        set (s2 := snd (moveToTrash k t st)) in *
    end.
    apply (tracks_same _ (setSessions (mapDelete k (sessions s2)) s2));
      [reflexivity|].
    apply tracks_delete. apply (tracks_same _ s); [exact E1 | exact Hs].
  - exact Hs.
Qed.

Lemma pollAll_tracks keys :
  forall s : Sys W, Tracks Filed s -> Tracks Filed (snd (pollAll keys s)).
Proof.
  induction keys as [|k keys IH]; intros s H; [exact H|].
  rewrite GuardFacts.pollAll_cons. apply IH.
  destruct (mapGet k (sessions s)) as [t|] eqn:Hk; [|exact H].
  apply afterPoll_tracks; [exact (H k t Hk) | exact H].
Qed.

Lemma reachable_tracks (s : Sys W) : Reachable s -> Tracks Filed s.
Proof.
  induction 1
    as [w dir H|e s _ IH|k s _ IH|s _ IH|k t s _ IH Hk|s _ IH|s _ IH|s _ IH|u n s _ IH].
  - intros k t E. discriminate E.
  - exact (proj1 (carries_handleEvent e s IH)).
  - exact (proj1 (carries_onCompacting k s IH)).
  - unfold pollForDeletions, bind, gets. now apply pollAll_tracks.
  - rewrite GuardFacts.pollSession_spec.
    apply afterPoll_tracks; [exact (IH k t Hk) | exact IH].
  - rewrite ProcessorFacts.healthCheck_spec. exact IH.
  - apply (tracks_same _ s); [apply SoundFacts.processQueue_maps | exact IH].
  - intros k t E. discriminate E.
  - unfold Plugin.settleEnqueue. destruct (outbox s); exact IH.
Qed.

End WithRuntime.

End TrackerFacts.

(** X22. In every state the
    plugin reaches, the entry of every tracked session is filed under its
    slug: the slug is one [sessionSlug] makes, and the summary path is the
    note path of the summary for the project name and the slug of the entry,
    under some date. Creation, the rename cascade, the update and idle
    handlers, the compaction hook and the poll all keep the path and the
    slug in step. *)
Theorem tracked_sessions_are_filed_under_their_slug :
  forall (W : Type) (RT : Engine.Runtime W) (s : Engine.Sys W)
         (sessionId : string) (tracker : Engine.SessionTracker),
    GuardSpec.Reachable s ->
    Engine.mapGet sessionId (Engine.sessions s) = Some tracker ->
    exists date source,
      Engine.slug tracker = Hooks.sessionSlug source
      /\ Engine.summaryPath tracker
         = Hooks.notePath (Engine.projectName tracker) date
                          (Hooks.sessionSlug source) "summary".
Proof.
  intros W RT s k t H E.
  destruct (TrackerFacts.reachable_tracks s H k t E) as (date & source & E1 & E2).
  exists date, source. split; [exact E1 | now rewrite <- E1].
Qed.

Lemma tracked_sessions_are_filed_under_their_slug_witness :
  GuardSpec.Reachable (RT := Script.runtime) (Samples.poll Samples.tracked)
  /\ Engine.mapGet "ses_1" (Engine.sessions (Samples.poll Samples.tracked))
     = Some Samples.trackerOne
  /\ exists date source,
       Engine.slug Samples.trackerOne = Hooks.sessionSlug source
       /\ Engine.summaryPath Samples.trackerOne
          = Hooks.notePath (Engine.projectName Samples.trackerOne) date
                           (Hooks.sessionSlug source) "summary".
Proof.
  assert (R : GuardSpec.Reachable (RT := Script.runtime)
                (Samples.poll Samples.tracked)).
  { unfold Samples.poll, Samples.tracked. repeat constructor.
    intros f item []. }
  assert (E : Engine.mapGet "ses_1" (Engine.sessions (Samples.poll Samples.tracked))
              = Some Samples.trackerOne) by reflexivity.
  split; [exact R|]. split; [exact E|].
  exact (tracked_sessions_are_filed_under_their_slug
           Script.World Script.runtime _ "ses_1" Samples.trackerOne R E).
Defined.

(** ** Note paths taken apart *)

Module NotePieces.
Import JsText TextSpec TextFacts PathSpec.

Lemma isSlash_plain s :
  noSlash s = true -> Forall (fun c => isChar 47 c = false) (ofString s).
Proof.
  unfold noSlash. intro H. apply negb_true_iff in H.
  apply Forall_forall. intros c Hc.
  destruct (isChar 47 c) eqn:E; [|reflexivity].
  assert (existsb (isChar 47) (ofString s) = true)
    by (apply existsb_exists; exists c; now split).
  congruence.
Qed.

(** The pieces of a note path between its slashes: those of the project
    folder and its sessions folder, then the month, the folder of the
    session and the file. *)
Lemma notePath_pieces p d s x :
  noSlash d = true -> noSlash s = true -> noSlash x = true ->
  splitOn (isChar 47) (ofString (Slug.notePath p d s x))
  = splitOn (isChar 47) (ofString ("10-Projects/" ++ p ++ "/sessions")%string)
    ++ [ofString (substring 0 7 d);
        ofString (substring 8 2 d ++ "-" ++ s)%string;
        ofString (x ++ ".md")%string].
Proof.
  intros Hd Hs Hx.
  assert (Sd : forall n m, Forall (fun c => isChar 47 c = false)
                                  (ofString (substring n m d))).
  { intros n m. apply substring_chars. now apply isSlash_plain. }
  assert (Sf : Forall (fun c => isChar 47 c = false)
                      (ofString (substring 8 2 d ++ "-" ++ s)%string)).
  { rewrite !ProcessorFacts.ofString_append. apply Forall_app. split; [apply Sd|].
    apply Forall_app. split; [repeat constructor | now apply isSlash_plain]. }
  assert (Sx : Forall (fun c => isChar 47 c = false) (ofString (x ++ ".md")%string)).
  { rewrite ProcessorFacts.ofString_append. apply Forall_app.
    split; [now apply isSlash_plain | repeat constructor]. }
  assert (E : ofString (Slug.notePath p d s x)
              = ofString ("10-Projects/" ++ p ++ "/sessions")%string
                ++ slash :: ofString (substring 0 7 d)
                ++ slash :: ofString (substring 8 2 d ++ "-" ++ s)%string
                ++ slash :: ofString (x ++ ".md")%string).
  { unfold Slug.notePath. cbv zeta. rewrite !ProcessorFacts.ofString_append.
    change (ofString "/sessions/") with (ofString "/sessions" ++ [slash]).
    change (ofString "/") with [slash].
    rewrite <- !app_assoc. reflexivity. }
  rewrite E.
  rewrite JsTextFacts.splitOn_app by reflexivity.
  rewrite JsTextFacts.splitOn_app by reflexivity.
  rewrite JsTextFacts.splitOn_app by reflexivity.
  rewrite (JsTextFacts.splitOn_free _ _ (Sd 0 7)).
  rewrite (JsTextFacts.splitOn_free _ _ Sf).
  rewrite (JsTextFacts.splitOn_free _ _ Sx).
  reflexivity.
Qed.

Lemma last_piece {A} (front : list A) a b c d : last (front ++ [a; b; c]) d = c.
Proof.
  change [a; b; c] with ([a; b] ++ [c]). rewrite (app_assoc front). apply last_last.
Qed.

Lemma folder_piece {A} (front : list A) a b c d :
  last (removelast (front ++ [a; b; c])) d = b.
Proof.
  change [a; b; c] with ([a; b] ++ [c]).
  rewrite (app_assoc front), removelast_last.
  change [a; b] with ([a] ++ [b]). rewrite (app_assoc front). apply last_last.
Qed.

Lemma dropMdExtension_md x :
  Backlinks.dropMdExtension (ofString (x ++ ".md")%string) = ofString x.
Proof.
  unfold Backlinks.dropMdExtension. rewrite ProcessorFacts.ofString_append.
  unfold endsWith. rewrite rev_app_distr.
  rewrite QueueRoundTrips.startsWith_app.
  rewrite length_app. change (List.length (ofString ".md")) with 3.
  rewrite Nat.add_sub. rewrite firstn_app, Nat.sub_diag, firstn_all.
  cbn [firstn]. apply app_nil_r.
Qed.

Lemma replace_md x :
  TextSpec.noDot x = true ->
  replaceFirst (ofString ".md") [] (ofString (x ++ ".md")%string) = ofString x.
Proof.
  intro H. rewrite ProcessorFacts.ofString_append.
  rewrite <- (app_nil_r (ofString ".md")).
  rewrite replaceFirst_at.
  - cbn [app]. apply app_nil_r.
  - change (ofString ".md") with (ascii_of_N 46 :: ofString "md").
    apply noStart_plain. unfold TextSpec.noDot in H. apply negb_true_iff in H.
    apply Forall_forall. intros c Hc.
    destruct (Ascii.eqb_spec (ascii_of_N 46) c) as [<-|]; [|reflexivity].
    assert (existsb (isChar 46) (ofString x) = true)
      by (apply existsb_exists; exists (ascii_of_N 46); now split).
    congruence.
Qed.

Lemma orUnknown_text s : s <> "" -> SearchTool.orUnknown (Some (ofString s)) = s.
Proof.
  destruct s as [|c s]; [congruence|]. intros _.
  change (ofString (String c s)) with (c :: ofString s).
  cbn [SearchTool.orUnknown]. apply (toString_ofString (String c s)).
Qed.

Lemma substring_some d : d <> "" -> substring 0 7 d <> "".
Proof. destruct d; [congruence|]. discriminate. Qed.

End NotePieces.

(** X23. The wikilink name the backlinks
    script gives a note written at a note path is the folder of the session,
    a slash, and the name of the file without its extension, for a date, a
    slug and a suffix without a slash. The project and the month are no
    part of it: two sessions of the same day of the month and the same slug
    get the same name. *)
Theorem wikilink_names_the_session_folder :
  forall projectName date slug suffix : string,
    TextSpec.noSlash date = true ->
    TextSpec.noSlash slug = true ->
    TextSpec.noSlash suffix = true ->
    Backlinks.extractWikilinkName (Hooks.notePath projectName date slug suffix)
    = (substring 8 2 date ++ "-" ++ slug ++ "/" ++ suffix)%string.
Proof.
  intros p d s x Hd Hs Hx. unfold Backlinks.extractWikilinkName, Hooks.notePath.
  cbv zeta. rewrite (NotePieces.notePath_pieces p d s x Hd Hs Hx).
  rewrite NotePieces.last_piece, NotePieces.folder_piece.
  rewrite NotePieces.dropMdExtension_md.
  rewrite <- (TextFacts.toString_ofString
                (substring 8 2 d ++ "-" ++ s ++ "/" ++ x)%string).
  f_equal. rewrite !ProcessorFacts.ofString_append, <- !app_assoc. reflexivity.
Qed.

Lemma wikilink_names_the_session_folder_witness :
  Backlinks.extractWikilinkName
    "10-Projects/demo/sessions/2026-02/14-fix-login-bug/summary.md"
  = "14-fix-login-bug/summary"
  /\ Backlinks.extractWikilinkName
       "10-Projects/other/sessions/2026-03/14-fix-login-bug/summary.md"
     = "14-fix-login-bug/summary".
Proof.
  split.
  - exact (wikilink_names_the_session_folder
             "demo" "2026-02-14" "fix-login-bug" "summary" eq_refl eq_refl eq_refl).
  - exact (wikilink_names_the_session_folder
             "other" "2026-03-14" "fix-login-bug" "summary" eq_refl eq_refl eq_refl).
Defined.

(** X24. The search tool answers with
    at most ten hits. For a hit on a note written at a note path (date, slug
    and suffix without a slash, a date that is not empty, and a suffix that
    is not empty and holds no dot) the [project] of the hit is the month
    folder of the note, the first seven characters of the date, and not the
    project name; its [date] is the suffix of the note. *)
Theorem search_reports_the_month_as_project :
  forall (Score : Type) (project : option string)
         (results : list (SearchTool.SearchResult Score)),
    List.length (SearchTool.searchHits project results) <= 10
    /\ forall hit projectName date slug suffix,
         In hit (SearchTool.searchHits project results) ->
         SearchTool.hitPath hit = Hooks.notePath projectName date slug suffix ->
         TextSpec.noSlash date = true ->
         TextSpec.noSlash slug = true ->
         TextSpec.noSlash suffix = true ->
         TextSpec.noDot suffix = true ->
         date <> "" ->
         suffix <> "" ->
         SearchTool.hitProject hit = substring 0 7 date
         /\ SearchTool.hitDate hit = suffix.
Proof.
  intros Score project results. split.
  - unfold SearchTool.searchHits. rewrite length_map. apply firstn_le_length.
  - intros hit p d s x Hin Hpath Hd Hs Hx Hdot Hne Hxne.
    unfold SearchTool.searchHits in Hin. apply in_map_iff in Hin.
    destruct Hin as (r & <- & _).
    cbn [SearchTool.toHit SearchTool.hitPath] in Hpath.
    unfold SearchTool.toHit. cbn [SearchTool.hitProject SearchTool.hitDate].
    rewrite Hpath. unfold Hooks.notePath.
    rewrite (NotePieces.notePath_pieces p d s x Hd Hs Hx).
    set (front := JsText.splitOn _
                   (JsText.ofString ("10-Projects/" ++ p ++ "/sessions")%string)).
    unfold SearchTool.fromEnd. rewrite !length_app. cbn [List.length].
    replace (List.length front + 3 <? 3) with false
      by (symmetry; apply Nat.ltb_ge; lia).
    replace (List.length front + 3 <? 1) with false
      by (symmetry; apply Nat.ltb_ge; lia).
    replace (List.length front + 3 - 3) with (List.length front + 0) by lia.
    replace (List.length front + 3 - 1) with (List.length front + 2) by lia.
    rewrite !nth_error_app2 by lia.
    replace (List.length front + 0 - List.length front) with 0 by lia.
    replace (List.length front + 2 - List.length front) with 2 by lia.
    cbn [nth_error option_map].
    rewrite (NotePieces.replace_md x Hdot).
    split; apply NotePieces.orUnknown_text;
      [now apply NotePieces.substring_some | exact Hxne].
Qed.

Lemma search_reports_the_month_as_project_witness :
  In (SearchTool.toHit Samples.summaryResult)
     (SearchTool.searchHits (Some "demo") Samples.searchResults)
  /\ SearchTool.hitProject (SearchTool.toHit Samples.summaryResult) = "2026-02"
  /\ SearchTool.hitDate (SearchTool.toHit Samples.summaryResult) = "summary".
Proof.
  assert (Hin : In (SearchTool.toHit Samples.summaryResult)
                   (SearchTool.searchHits (Some "demo") Samples.searchResults))
    by (left; reflexivity).
  assert (Hd : "2026-02-14" <> "") by discriminate.
  assert (Hx : "summary" <> "") by discriminate.
  split; [exact Hin|].
  exact (proj2 (search_reports_the_month_as_project Z (Some "demo")
                  Samples.searchResults)
               (SearchTool.toHit Samples.summaryResult)
               "demo" "2026-02-14" "fix-login-bug" "summary"
               Hin eq_refl eq_refl eq_refl eq_refl eq_refl Hd Hx).
Defined.

(** ** Escaped values and folder names *)

Module YamlFacts.
Import JsText Yaml YamlSpec.

Lemma escapeQuotes_app a b : escapeQuotes (a ++ b) = escapeQuotes a ++ escapeQuotes b.
Proof. apply flat_map_app. Qed.

Lemma unescape_escape v : unescape (escapeQuotes (doubleBackslashes v)) = v.
Proof.
  induction v as [|c v IH]; [reflexivity|].
  change (doubleBackslashes (c :: v))
    with ((if isChar 92 c then [backslash; backslash] else [c]) ++ doubleBackslashes v).
  rewrite escapeQuotes_app.
  destruct (isChar 92 c) eqn:B.
  - assert (c = backslash).
    { unfold isChar, code in B. apply N.eqb_eq in B.
      rewrite <- (ascii_N_embedding c), B. reflexivity. }
    subst c.
    change (escapeQuotes [backslash; backslash]) with [backslash; backslash].
    change (unescape ([backslash; backslash] ++ escapeQuotes (doubleBackslashes v)))
      with (backslash :: unescape (escapeQuotes (doubleBackslashes v))).
    f_equal. exact IH.
  - change (escapeQuotes [c]) with ((if isChar 34 c then [backslash; quote] else [c]) ++ []).
    destruct (isChar 34 c) eqn:Q.
    + assert (c = quote).
      { unfold isChar, code in Q. apply N.eqb_eq in Q.
        rewrite <- (ascii_N_embedding c), Q. reflexivity. }
      subst c.
      change (unescape (([backslash; quote] ++ []) ++ escapeQuotes (doubleBackslashes v)))
        with (quote :: unescape (escapeQuotes (doubleBackslashes v))).
      f_equal. exact IH.
    + change (unescape (([c] ++ []) ++ escapeQuotes (doubleBackslashes v)))
        with (if isChar 92 c
              then match escapeQuotes (doubleBackslashes v) with
                   | d :: s'' => d :: unescape s''
                   | [] => [c]
                   end
              else c :: unescape (escapeQuotes (doubleBackslashes v))).
      rewrite B. f_equal. exact IH.
Qed.

Lemma readScalar_escapeYaml v : readScalar (escapeYaml v) = v.
Proof.
  unfold escapeYaml.
  destruct (existsb needsQuotes (ofString v)) eqn:E.
  - unfold readScalar. rewrite JsTextFacts.ofString_toString.
    change (isChar 34 quote) with true. cbv iota.
    rewrite removelast_last, unescape_escape. apply TextFacts.toString_ofString.
  - unfold readScalar. destruct (ofString v) as [|c rest] eqn:Hv; [reflexivity|].
    simpl in E. apply orb_false_iff in E. destruct E as [E _].
    unfold needsQuotes in E. cbn [existsb] in E. apply orb_false_iff in E.
    destruct E as [E _]. unfold isChar. now rewrite E.
Qed.

End YamlFacts.

(** X18. [escapeYaml] loses nothing of a value. A
    value without a double quote, colon, hash, line feed or square bracket
    is returned as it is. Any other value is returned between double quotes,
    with its backslashes doubled and a backslash in front of each of its
    double quotes, so that reading the inside with a backslash making the
    next character literal gives the value back. Two different values are
    never written the same way. *)
Theorem escapeYaml_loses_nothing :
  forall value : string,
    (existsb Yaml.needsQuotes (JsText.ofString value) = false ->
     Yaml.escapeYaml value = value)
    /\ (existsb Yaml.needsQuotes (JsText.ofString value) = true ->
        exists inside,
          JsText.ofString (Yaml.escapeYaml value)
          = Yaml.quote :: inside ++ [Yaml.quote]
          /\ YamlSpec.unescape inside = JsText.ofString value)
    /\ YamlSpec.readScalar (Yaml.escapeYaml value) = value
    /\ (forall other, Yaml.escapeYaml value = Yaml.escapeYaml other -> value = other).
Proof.
  intro value. split; [|split; [|split]].
  - intro E. unfold Yaml.escapeYaml. now rewrite E.
  - intro E. unfold Yaml.escapeYaml. rewrite E.
    exists (Yaml.escapeQuotes (Yaml.doubleBackslashes (JsText.ofString value))).
    split; [apply JsTextFacts.ofString_toString | apply YamlFacts.unescape_escape].
  - apply YamlFacts.readScalar_escapeYaml.
  - intros other E.
    rewrite <- (YamlFacts.readScalar_escapeYaml value), E.
    apply YamlFacts.readScalar_escapeYaml.
Qed.

Module FolderNameFacts.
Import JsText FolderName FolderNameSpec.

Lemma replaceForbidden_safe s :
  Forall (fun c => isForbidden c = false) (replaceForbidden s).
Proof.
  induction s as [|c s IH]; [constructor|].
  change (replaceForbidden (c :: s))
    with ((if isForbidden c then dash else c) :: replaceForbidden s).
  constructor; [|exact IH].
  destruct (isForbidden c) eqn:E; [reflexivity | exact E].
Qed.

Lemma replaceForbidden_id s :
  Forall (fun c => isForbidden c = false) s -> replaceForbidden s = s.
Proof.
  induction 1 as [|c s Hc Hs IH]; [reflexivity|].
  change (replaceForbidden (c :: s))
    with ((if isForbidden c then dash else c) :: replaceForbidden s).
  rewrite Hc. f_equal. exact IH.
Qed.

Lemma collapseWhitespace_chars (P : ascii -> Prop) s :
  P space -> Forall P s -> Forall P (collapseWhitespace s).
Proof.
  intros Hsp H. induction H as [|c s Hc Hs IH]; [constructor|].
  cbn [collapseWhitespace].
  destruct (isWhitespace c).
  - destruct s as [|d s']; [now repeat constructor|].
    destruct (isWhitespace d); [exact IH | now constructor].
  - now constructor.
Qed.

Lemma trimStart_suffix s : exists a, s = a ++ trimStart s.
Proof.
  induction s as [|c s [a IH]]; [now exists []|].
  cbn [trimStart]. destruct (isWhitespace c).
  - exists (c :: a). simpl. now f_equal.
  - now exists [].
Qed.

Lemma trimStart_clean s : startsClean (trimStart s).
Proof.
  induction s as [|c s IH]; [exact I|].
  cbn [trimStart]. destruct (isWhitespace c) eqn:E; [exact IH | exact E].
Qed.

Lemma trimStart_id s : startsClean s -> trimStart s = s.
Proof.
  destruct s as [|c s]; [reflexivity|]. simpl. now intros ->.
Qed.

Lemma trimEnd_prefix s : exists a, s = trimEnd s ++ a.
Proof.
  destruct (trimStart_suffix (List.rev s)) as [a E].
  exists (List.rev a). unfold trimEnd. rewrite <- rev_app_distr, <- E.
  now rewrite rev_involutive.
Qed.

Lemma startsClean_prefix a b : a <> [] -> startsClean (a ++ b) -> startsClean a.
Proof. destruct a; [now intros H; elim H | now intros _ H]. Qed.

(** Trimming one end leaves the other end as it is. *)
Lemma trimStart_end s :
  startsClean (List.rev s) -> startsClean (List.rev (trimStart s)).
Proof.
  intro H. destruct (trimStart_suffix s) as [a E].
  destruct (trimStart s) as [|c t] eqn:Ht; [exact I|].
  rewrite E, rev_app_distr in H.
  apply (startsClean_prefix _ (List.rev a)); [|exact H].
  intro Hnil. apply (f_equal (@List.length ascii)) in Hnil.
  rewrite length_rev in Hnil. discriminate.
Qed.

Lemma trim_clean s : startsClean (trim s) /\ startsClean (List.rev (trim s)).
Proof.
  unfold trim, trimEnd. split.
  - apply trimStart_end. rewrite rev_involutive. apply trimStart_clean.
  - rewrite rev_involutive. apply trimStart_clean.
Qed.

Lemma trim_id s : startsClean s -> startsClean (List.rev s) -> trim s = s.
Proof.
  intros H1 H2. unfold trim, trimEnd.
  rewrite (trimStart_id s H1), (trimStart_id _ H2). apply rev_involutive.
Qed.

Lemma collapseWhitespace_tidy s : tidy (collapseWhitespace s) = true.
Proof.
  induction s as [|c s IH]; [reflexivity|].
  cbn [collapseWhitespace]. destruct (isWhitespace c) eqn:Wc.
  - destruct s as [|d s']; [reflexivity|].
    destruct (isWhitespace d) eqn:Wd; [exact IH|].
    cbn [collapseWhitespace] in *. rewrite Wd in *.
    cbn [tidy] in *. rewrite Wd in *. exact IH.
  - cbn [tidy]. now rewrite Wc.
Qed.

Lemma tidy_id s : tidy s = true -> collapseWhitespace s = s.
Proof.
  induction s as [|c s IH]; [reflexivity|].
  cbn [tidy collapseWhitespace]. intro H. apply andb_true_iff in H.
  destruct H as [Hc Hs]. specialize (IH Hs).
  destruct (isWhitespace c) eqn:Wc; [|now f_equal].
  apply andb_true_iff in Hc. destruct Hc as [Hsp Hnext].
  assert (c = space).
  { unfold isChar, code in Hsp. apply N.eqb_eq in Hsp.
    rewrite <- (ascii_N_embedding c), Hsp. reflexivity. }
  subst c. destruct s as [|d s']; [reflexivity|].
  apply negb_true_iff in Hnext. rewrite Hnext. f_equal. exact IH.
Qed.

Lemma tidy_suffix a b : tidy (a ++ b) = true -> tidy b = true.
Proof.
  induction a as [|c a IH]; [easy|].
  change ((c :: a) ++ b) with (c :: (a ++ b)). cbn [tidy].
  intro H. apply andb_true_iff in H. now apply IH.
Qed.

Lemma tidy_prefix a b : tidy (a ++ b) = true -> tidy a = true.
Proof.
  induction a as [|c a IH]; [easy|].
  change ((c :: a) ++ b) with (c :: (a ++ b)). cbn [tidy].
  intro H. apply andb_true_iff in H. destruct H as [Hc Hs].
  rewrite (IH Hs), andb_true_r.
  destruct (isWhitespace c); [|reflexivity].
  apply andb_true_iff in Hc. destruct Hc as [-> Hn].
  destruct a as [|d a']; [reflexivity | exact Hn].
Qed.

Lemma trim_tidy s : tidy s = true -> tidy (trim s) = true.
Proof.
  intro H. unfold trim.
  destruct (trimStart_suffix s) as [a Ea].
  destruct (trimEnd_prefix (trimStart s)) as [b Eb].
  rewrite Ea in H. apply tidy_suffix in H. rewrite Eb in H. now apply tidy_prefix in H.
Qed.

Lemma trim_chars (P : ascii -> Prop) s : Forall P s -> Forall P (trim s).
Proof.
  intro H. unfold trim.
  destruct (trimStart_suffix s) as [a Ea].
  destruct (trimEnd_prefix (trimStart s)) as [b Eb].
  rewrite Ea in H. apply Forall_app in H. destruct H as [_ H].
  rewrite Eb in H. apply Forall_app in H. tauto.
Qed.

(** The text [sanitizeFolderName] is left with, before the fallback. *)
Lemma cleaned_spec name :
  let r := trim (collapseWhitespace (replaceForbidden (ofString name))) in
  Forall (fun c => isForbidden c = false) r
  /\ tidy r = true /\ startsClean r /\ startsClean (List.rev r).
Proof.
  cbv zeta. split; [|split].
  - apply trim_chars. apply collapseWhitespace_chars; [reflexivity|].
    apply replaceForbidden_safe.
  - apply trim_tidy, collapseWhitespace_tidy.
  - apply trim_clean.
Qed.

End FolderNameFacts.

(** X19. What [sanitizeFolderName]
    returns can be used as one folder name: it is not empty, holds none of
    the characters replaced by a dash (so no slash and no backslash), its
    white space is single spaces only, and it neither starts nor ends with
    white space. Sanitizing it again changes nothing. *)
Theorem sanitizeFolderName_is_a_folder_name :
  forall name : string,
    let r := FolderName.sanitizeFolderName name in
    r <> ""
    /\ Forall (fun c => FolderName.isForbidden c = false) (JsText.ofString r)
    /\ FolderNameSpec.tidy (JsText.ofString r) = true
    /\ FolderNameSpec.startsClean (JsText.ofString r)
    /\ FolderNameSpec.startsClean (List.rev (JsText.ofString r))
    /\ FolderName.sanitizeFolderName r = r.
Proof.
  intros name r.
  destruct (FolderNameFacts.cleaned_spec name) as (Hf & Ht & Hs & He).
  cbv zeta in *. unfold r, FolderName.sanitizeFolderName.
  destruct (FolderName.trim _) as [|c t] eqn:Hr.
  - repeat split; try reflexivity; try discriminate. repeat constructor.
  - rewrite JsTextFacts.ofString_toString.
    split; [discriminate|]. split; [exact Hf|]. split; [exact Ht|].
    split; [exact Hs|]. split; [exact He|].
    rewrite FolderNameFacts.replaceForbidden_id by exact Hf.
    rewrite FolderNameFacts.tidy_id by exact Ht.
    rewrite FolderNameFacts.trim_id by assumption. reflexivity.
Qed.

(** ** Front matter values of the formatter *)

Module FormatterFacts.
Import JsText Yaml YamlSpec.

Lemma doubleBackslashes_plain v :
  existsb (isChar 92) v = false -> doubleBackslashes v = v.
Proof.
  induction v as [|c v IH]; intro H; [reflexivity|].
  cbn [existsb] in H. apply orb_false_iff in H. destruct H as [Hc Hv].
  change (doubleBackslashes (c :: v))
    with ((if isChar 92 c then [backslash; backslash] else [c]) ++ doubleBackslashes v).
  rewrite Hc, (IH Hv). reflexivity.
Qed.

Lemma readScalar_plain v :
  existsb (isChar 34) (ofString v) = false -> readScalar v = v.
Proof.
  intro H. unfold readScalar. destruct (ofString v) as [|c rest]; [reflexivity|].
  cbn [existsb] in H. apply orb_false_iff in H. destruct H as [H _].
  now rewrite H.
Qed.

End FormatterFacts.

(** X26. For a value
    without a backslash, [escapeFrontmatter] of the formatter loses nothing:
    reading what it writes, with a backslash making the next character
    literal, gives the value back; and when the value holds a double quote,
    a colon, a hash or a line feed it writes what [escapeYaml] writes. *)
Theorem escapeFrontmatter_keeps_values_without_backslash :
  forall value : string,
    existsb (JsText.isChar 92) (JsText.ofString value) = false ->
    YamlSpec.readScalar (Formatter.escapeFrontmatter value) = value
    /\ Formatter.escapeFrontmatter value
       = (if existsb Formatter.needsQuotes (JsText.ofString value)
          then Yaml.escapeYaml value else value).
Proof.
  intros value H. unfold Formatter.escapeFrontmatter.
  destruct (existsb Formatter.needsQuotes (JsText.ofString value)) eqn:E.
  - assert (E' : existsb Yaml.needsQuotes (JsText.ofString value) = true).
    { apply existsb_exists in E. destruct E as (c & Hc & E).
      apply existsb_exists. exists c. split; [exact Hc|].
      unfold Formatter.needsQuotes in E. unfold Yaml.needsQuotes.
      cbn [existsb] in *.
      repeat (apply orb_true_iff in E; destruct E as [E|E];
              [rewrite E; now rewrite ?orb_true_r|]).
      discriminate E. }
    assert (W : JsText.toString
                  (Yaml.quote :: Yaml.escapeQuotes (JsText.ofString value) ++ [Yaml.quote])
                = Yaml.escapeYaml value).
    { unfold Yaml.escapeYaml. rewrite E'.
      now rewrite (FormatterFacts.doubleBackslashes_plain _ H). }
    split; [|exact W]. rewrite W. apply YamlFacts.readScalar_escapeYaml.
  - split; [|reflexivity]. apply FormatterFacts.readScalar_plain.
    destruct (existsb (JsText.isChar 34) (JsText.ofString value)) eqn:Q;
      [|reflexivity].
    apply existsb_exists in Q. destruct Q as (c & Hc & Q).
    assert (existsb Formatter.needsQuotes (JsText.ofString value) = true).
    { apply existsb_exists. exists c. split; [exact Hc|].
      unfold Formatter.needsQuotes. cbn [existsb].
      unfold JsText.isChar in Q. now rewrite Q. }
    congruence.
Qed.

Lemma escapeFrontmatter_keeps_values_without_backslash_witness :
  YamlSpec.readScalar (Formatter.escapeFrontmatter "Fix: the #1 bug") = "Fix: the #1 bug"
  /\ Formatter.escapeFrontmatter "Fix: the #1 bug" = Yaml.escapeYaml "Fix: the #1 bug".
Proof.
  exact (escapeFrontmatter_keeps_values_without_backslash "Fix: the #1 bug" eq_refl).
Defined.

(** The condition is needed: the backslashes of a quoted value are written
    as they are, and read as the start of an escape. *)
Example backslash_is_not_escaped :
  JsText.ofString (Formatter.escapeFrontmatter "C:\new")
  = Yaml.quote :: JsText.ofString "C:\new" ++ [Yaml.quote]
  /\ YamlSpec.readScalar (Formatter.escapeFrontmatter "C:\new") = "C:new".
Proof. split; reflexivity. Qed.

(** ** The tags of a conversation *)

Module TaggerFacts.
Import Tagger TaggerSpec.

Lemma distinct_NoDup l : distinct l = true -> NoDup l.
Proof.
  induction l as [|x l IH]; intro H; [constructor|].
  cbn [distinct] in H. apply andb_true_iff in H. destruct H as [H1 H2].
  constructor; [|now apply IH].
  intro Hin. apply negb_true_iff in H1.
  assert (existsb (String.eqb x) l = true)
    by (apply existsb_exists; exists x; split; [exact Hin | apply String.eqb_refl]).
  congruence.
Qed.

Lemma includes_In x l : existsb (String.eqb x) l = true <-> In x l.
Proof.
  rewrite existsb_exists. split.
  - intros (y & Hy & E). apply String.eqb_eq in E. now subst y.
  - intro H. exists x. split; [exact H | apply String.eqb_refl].
Qed.

Lemma insertByCount_perm x l : Permutation (insertByCount x l) (x :: l).
Proof.
  induction l as [|y l IH]; [reflexivity|].
  cbn [insertByCount]. destruct (snd y <=? snd x); [reflexivity|].
  rewrite IH. apply perm_swap.
Qed.

Lemma sortByCount_perm l : Permutation (sortByCount l) l.
Proof.
  induction l as [|x l IH]; [reflexivity|].
  cbn [sortByCount]. rewrite insertByCount_perm. now constructor.
Qed.

(** The loop adds the matches in order until the list is full. *)
Lemma pushCapped_spec ms :
  forall tags,
    pushCapped tags ms = tags ++ firstn (MAX_TAGS - List.length tags) ms.
Proof.
  induction ms as [|m ms IH]; intro tags.
  - now rewrite firstn_nil, app_nil_r.
  - cbn [pushCapped]. destruct (MAX_TAGS <=? List.length tags) eqn:E.
    + apply Nat.leb_le in E.
      replace (MAX_TAGS - List.length tags) with 0 by lia.
      now rewrite app_nil_r.
    + apply Nat.leb_gt in E. rewrite IH, length_app. cbn [List.length].
      replace (MAX_TAGS - List.length tags)
        with (S (MAX_TAGS - (List.length tags + 1))) by lia.
      cbn [firstn]. now rewrite <- app_assoc.
Qed.

Lemma firstn_In {A} (x : A) n :
  forall l, In x (firstn n l) -> In x l.
Proof.
  induction n as [|n IH]; intros l H; [now elim H|].
  destruct l as [|y l]; [now elim H|].
  cbn [firstn] in H. destruct H as [H|H]; [now left | right; now apply IH].
Qed.

Lemma pushCapped_length tags ms :
  List.length tags <= MAX_TAGS -> List.length (pushCapped tags ms) <= MAX_TAGS.
Proof.
  intro H. rewrite pushCapped_spec, length_app, length_firstn. lia.
Qed.

Lemma pushCapped_In tags ms t :
  In t (pushCapped tags ms) -> In t tags \/ In t ms.
Proof.
  rewrite pushCapped_spec. intro H. apply in_app_or in H.
  destruct H as [H|H]; [now left | right]. now apply firstn_In in H.
Qed.

Lemma firstn_NoDup {A} n (l : list A) : NoDup l -> NoDup (firstn n l).
Proof.
  revert n. induction l as [|x l IH]; intros n H; [now rewrite firstn_nil|].
  destruct n as [|n]; [constructor|]. inversion H as [|? ? Hx Hl]; subst.
  cbn [firstn]. constructor; [|now apply IH].
  intro Hin. apply Hx. now apply firstn_In in Hin.
Qed.

(** Matches of a family above those of the tags so far are added without
    a repeat. *)
Lemma pushCapped_ok k tags ms :
  NoDup tags -> Forall (fun t => family t < k) tags ->
  NoDup ms -> Forall (fun t => family t = k) ms ->
  NoDup (pushCapped tags ms)
  /\ Forall (fun t => family t < S k) (pushCapped tags ms).
Proof.
  intros Ht Fk Hm Fm. rewrite pushCapped_spec.
  assert (Fm' : Forall (fun t => family t = k)
                       (firstn (MAX_TAGS - List.length tags) ms)).
  { apply Forall_forall. intros t Hin. apply firstn_In in Hin.
    rewrite Forall_forall in Fm. now apply Fm. }
  split.
  - apply NoDup_app; [exact Ht | now apply firstn_NoDup |].
    intros t H1 H2. rewrite Forall_forall in Fk, Fm'.
    specialize (Fk t H1). specialize (Fm' t H2). lia.
  - apply Forall_app. split.
    + eapply Forall_impl; [|exact Fk]. intros t H. cbv beta in *. lia.
    + eapply Forall_impl; [|exact Fm']. intros t H. cbv beta in *. lia.
Qed.

Lemma pushNew_NoDup ds : forall tags, NoDup tags -> NoDup (pushNew tags ds).
Proof.
  induction ds as [|d ds IH]; intros tags H; [exact H|].
  cbn [pushNew]. destruct (MAX_TAGS <=? List.length tags); [exact H|].
  destruct (existsb (String.eqb d) tags) eqn:E; [now apply IH|].
  apply IH. apply NoDup_app; [exact H | repeat constructor; intros [] |].
  intros t H1 [<-|[]].
  apply includes_In in H1. congruence.
Qed.

Lemma pushNew_length ds :
  forall tags,
    List.length tags <= MAX_TAGS -> List.length (pushNew tags ds) <= MAX_TAGS.
Proof.
  induction ds as [|d ds IH]; intros tags H; [exact H|].
  cbn [pushNew]. destruct (MAX_TAGS <=? List.length tags) eqn:E; [exact H|].
  apply Nat.leb_gt in E.
  destruct (existsb (String.eqb d) tags); [now apply IH|].
  apply IH. rewrite length_app. cbn [List.length]. lia.
Qed.

Lemma pushNew_In ds t :
  forall tags, In t (pushNew tags ds) -> In t tags \/ In t ds.
Proof.
  induction ds as [|d ds IH]; intros tags H; [now left|].
  cbn [pushNew] in H. destruct (MAX_TAGS <=? List.length tags); [now left|].
  destruct (existsb (String.eqb d) tags).
  - destruct (IH tags H) as [H1|H1]; [now left | right; now right].
  - destruct (IH _ H) as [H1|H1]; [|right; now right].
    apply in_app_or in H1. destruct H1 as [H1|[<-|[]]]; [now left|].
    right. now left.
Qed.

Lemma pushCapped_head x tags ms :
  exists rest, pushCapped (x :: tags) ms = x :: rest.
Proof. rewrite pushCapped_spec. eexists. reflexivity. Qed.

Lemma pushNew_head x ds :
  forall tags, exists rest, pushNew (x :: tags) ds = x :: rest.
Proof.
  induction ds as [|d ds IH]; intro tags; [now eexists|].
  cbn [pushNew].
  destruct (MAX_TAGS <=? List.length (x :: tags)); [now eexists|].
  destruct (existsb (String.eqb d) (x :: tags)); [apply IH|].
  apply (IH (tags ++ [d])).
Qed.

Section WithRegExp.
Context {Input : Type}.
Variable stringify : Input -> string.
Variable matchCount : string -> string -> string -> nat.
Variable test : string -> string -> string -> bool.

Lemma ruleMatch_In text rules t :
  In t (map fst (flat_map (ruleMatch matchCount text) rules)) ->
  RuleMatched matchCount text rules t.
Proof.
  intro H. apply in_map_iff in H. destruct H as ([t' n] & <- & H).
  apply in_flat_map in H. destruct H as (rule & Hr & H).
  unfold ruleMatch in H. cbv zeta in H.
  destruct (0 <? matchCount _ _ _) eqn:E; [|now elim H].
  destruct H as [H|[]]. injection H as <- <-.
  exists rule. split; [exact Hr|]. split; [reflexivity|]. now apply Nat.ltb_lt.
Qed.

Lemma ruleMatch_tags text rules :
  forall t, In t (map fst (flat_map (ruleMatch matchCount text) rules)) ->
            In t (map tag rules).
Proof.
  intros t H. destruct (ruleMatch_In _ _ _ H) as (rule & Hr & -> & _).
  now apply in_map.
Qed.

Lemma ruleMatch_NoDup text rules :
  NoDup (map tag rules) ->
  NoDup (map fst (flat_map (ruleMatch matchCount text) rules)).
Proof.
  induction rules as [|rule rules IH]; intro H; [constructor|].
  cbn [map] in H. inversion H as [|? ? Hx Hl]; subst.
  cbn [flat_map]. unfold ruleMatch at 1. cbv zeta.
  destruct (0 <? _); [|now apply IH].
  cbn [app map fst]. constructor; [|now apply IH].
  intro Hin. apply Hx. now apply ruleMatch_tags in Hin.
Qed.

(** What [matchRules] gives for a rule table whose tags are distinct and
    of one family. *)
Lemma matchRules_spec text rules k :
  distinct (map tag rules) = true ->
  forallb (fun rule => family (tag rule) =? k) rules = true ->
  NoDup (map fst (matchRules matchCount text rules))
  /\ Forall (fun t => family t = k) (map fst (matchRules matchCount text rules))
  /\ forall t, In t (map fst (matchRules matchCount text rules)) ->
               RuleMatched matchCount text rules t.
Proof.
  intros Hd Hk. unfold matchRules.
  assert (P : Permutation
                (map fst (sortByCount (flat_map (ruleMatch matchCount text) rules)))
                (map fst (flat_map (ruleMatch matchCount text) rules)))
    by (apply Permutation_map, sortByCount_perm).
  assert (Hin : forall t,
             In t (map fst (sortByCount (flat_map (ruleMatch matchCount text) rules))) ->
             RuleMatched matchCount text rules t).
  { intros t H. apply ruleMatch_In. now apply (Permutation_in _ P). }
  split; [|split; [|exact Hin]].
  - apply (Permutation_NoDup (Permutation_sym P)).
    apply ruleMatch_NoDup. now apply distinct_NoDup.
  - apply Forall_forall. intros t H.
    destruct (Hin t H) as (rule & Hr & -> & _).
    rewrite forallb_forall in Hk. apply Nat.eqb_eq. now apply Hk.
Qed.

Lemma domainSet_In text title rules :
  forall set t,
    In t (fold_left
            (fun set rule =>
               if domainMatch matchCount test text title rule
               then setAdd (tag rule) set else set)
            rules set) ->
    In t set
    \/ exists rule,
         In rule rules /\ t = tag rule
         /\ domainMatch matchCount test text title rule = true.
Proof.
  induction rules as [|rule rules IH]; intros set t H; [now left|].
  cbn [fold_left] in H. apply IH in H. destruct H as [H|(r & Hr & E & Hm)].
  - destruct (domainMatch matchCount test text title rule) eqn:Hm; [|now left].
    unfold setAdd in H. destruct (existsb _ set); [now left|].
    apply in_app_or in H. destruct H as [H|[<-|[]]]; [now left|].
    right. exists rule. split; [now left | now split].
  - right. exists r. split; [now right | now split].
Qed.

Lemma matchDomainTags_In text title t :
  In t (matchDomainTags matchCount test text title []) ->
  DomainMatched matchCount test text title t.
Proof.
  intro H. apply domainSet_In in H. destruct H as [[]|(rule & Hr & E & Hm)].
  exists rule. split; [exact Hr|]. split; [exact E|].
  unfold domainMatch in Hm.
  destruct (test (source rule) (flags rule) title); [now left | right].
  now apply Nat.leb_le in Hm.
Qed.

Lemma family_project (conv : ReconstructedConversation Input) :
  family (projectTag conv) = 0.
Proof. reflexivity. Qed.

(** The tags of [extractTags], once the search text is not empty. *)
Lemma tagged_spec (conv : ReconstructedConversation Input) tags0 :
  NoDup tags0 -> Forall (fun t => family t < 1) tags0 ->
  List.length tags0 <= MAX_TAGS ->
  let text := buildSearchText stringify conv in
  let tags :=
    pushNew
      (pushCapped
         (pushCapped
            (pushCapped tags0 (map fst (matchRules matchCount text TOPIC_RULES)))
            (map fst (matchRules matchCount text TECH_RULES)))
         (map fst (matchRules matchCount text ACTIVITY_RULES)))
      (matchDomainTags matchCount test text (titleOf conv) []) in
  List.length tags <= MAX_TAGS
  /\ NoDup tags
  /\ forall t, In t tags ->
       In t tags0
       \/ RuleMatched matchCount text
            (TOPIC_RULES ++ TECH_RULES ++ ACTIVITY_RULES) t
       \/ DomainMatched matchCount test text (titleOf conv) t.
Proof.
  intros H0 F0 L0 text tags. subst tags.
  destruct (matchRules_spec text TOPIC_RULES 1 eq_refl eq_refl) as (N1 & F1 & M1).
  destruct (matchRules_spec text TECH_RULES 2 eq_refl eq_refl) as (N2 & F2 & M2).
  destruct (matchRules_spec text ACTIVITY_RULES 3 eq_refl eq_refl) as (N3 & F3 & M3).
  destruct (pushCapped_ok 1 _ _ H0 F0 N1 F1) as [Ha Fa].
  destruct (pushCapped_ok 2 _ _ Ha Fa N2 F2) as [Hb Fb].
  destruct (pushCapped_ok 3 _ _ Hb Fb N3 F3) as [Hc _].
  split; [|split].
  - now apply pushNew_length, pushCapped_length, pushCapped_length,
      pushCapped_length.
  - now apply pushNew_NoDup.
  - intros t H. apply pushNew_In in H.
    destruct H as [H|H]; [|right; right; now apply matchDomainTags_In].
    apply pushCapped_In in H. destruct H as [H|H].
    2:{ right. left. destruct (M3 t H) as (rule & Hr & E & Hm).
        exists rule. split; [|now split]. apply in_or_app. right.
        apply in_or_app. now right. }
    apply pushCapped_In in H. destruct H as [H|H].
    2:{ right. left. destruct (M2 t H) as (rule & Hr & E & Hm).
        exists rule. split; [|now split]. apply in_or_app. right.
        apply in_or_app. now left. }
    apply pushCapped_In in H. destruct H as [H|H]; [now left|].
    right. left. destruct (M1 t H) as (rule & Hr & E & Hm).
    exists rule. split; [|now split]. apply in_or_app. now left.
Qed.

End WithRegExp.

End TaggerFacts.

(** X25. The tags [extractTags] gives a
    conversation, whatever the regular expressions of the rules match: there
    are at most 15 of them, no tag occurs twice, the project tag comes first
    when the conversation has a project name, and every other tag is there
    for a reason: it is the tag of a topic, technology or activity rule with
    a match in the search text, or the tag of a domain pattern that matches
    the title or has three matches or more in the search text. *)
Theorem extractTags_are_few_and_matched :
  forall (Input : Type) (stringify : Input -> string)
         (matchCount : string -> string -> string -> nat)
         (test : string -> string -> string -> bool)
         (conv : Tagger.ReconstructedConversation Input),
    let tags := Tagger.extractTags stringify matchCount test conv in
    let text := Tagger.buildSearchText stringify conv in
    List.length tags <= 15
    /\ NoDup tags
    /\ (Tagger.projectName conv <> "" ->
        exists rest, tags = Tagger.projectTag conv :: rest)
    /\ (forall t, In t tags ->
          (t = Tagger.projectTag conv /\ Tagger.projectName conv <> "")
          \/ TaggerSpec.RuleMatched matchCount text
               (Tagger.TOPIC_RULES ++ Tagger.TECH_RULES ++ Tagger.ACTIVITY_RULES) t
          \/ TaggerSpec.DomainMatched matchCount test text (Tagger.titleOf conv) t).
Proof.
  intros Input stringify matchCount test conv tags text.
  subst tags text. unfold Tagger.extractTags. cbv zeta.
  set (tags0 := if String.eqb (Tagger.projectName conv) "" then []
                else [Tagger.projectTag conv]).
  assert (H0 : NoDup tags0).
  { subst tags0. destruct (String.eqb _ ""); repeat constructor. intros []. }
  assert (F0 : Forall (fun t => TaggerSpec.family t < 1) tags0).
  { subst tags0. destruct (String.eqb _ ""); repeat constructor. }
  assert (L0 : List.length tags0 <= Tagger.MAX_TAGS).
  { subst tags0. unfold Tagger.MAX_TAGS. destruct (String.eqb _ ""); simpl; lia. }
  assert (I0 : forall t, In t tags0 ->
                 t = Tagger.projectTag conv /\ Tagger.projectName conv <> "").
  { subst tags0. intros t H.
    destruct (String.eqb_spec (Tagger.projectName conv) "") as [E|E]; [now elim H|].
    destruct H as [<-|[]]. now split. }
  assert (P0 : Tagger.projectName conv <> "" -> tags0 = [Tagger.projectTag conv]).
  { subst tags0. intro Hne.
    destruct (String.eqb_spec (Tagger.projectName conv) ""); [contradiction|].
    reflexivity. }
  destruct (String.eqb (Tagger.buildSearchText stringify conv) "").
  - split; [exact L0|]. split; [exact H0|]. split.
    + intro Hne. exists []. now apply P0.
    + intros t H. left. now apply I0.
  - destruct (TaggerFacts.tagged_spec stringify matchCount test conv tags0 H0 F0 L0)
      as (L & N & M).
    split; [exact L|]. split; [exact N|]. split.
    + intro Hne. rewrite (P0 Hne).
      destruct (TaggerFacts.pushCapped_head (Tagger.projectTag conv) []
                  (map fst (Tagger.matchRules matchCount
                              (Tagger.buildSearchText stringify conv)
                              Tagger.TOPIC_RULES))) as [r1 E1].
      rewrite E1.
      destruct (TaggerFacts.pushCapped_head (Tagger.projectTag conv) r1
                  (map fst (Tagger.matchRules matchCount
                              (Tagger.buildSearchText stringify conv)
                              Tagger.TECH_RULES))) as [r2 E2].
      rewrite E2.
      destruct (TaggerFacts.pushCapped_head (Tagger.projectTag conv) r2
                  (map fst (Tagger.matchRules matchCount
                              (Tagger.buildSearchText stringify conv)
                              Tagger.ACTIVITY_RULES))) as [r3 E3].
      rewrite E3. apply TaggerFacts.pushNew_head.
    + intros t H. destruct (M t H) as [H1|H1]; [left; now apply I0 | now right].
Qed.
